(** * Doomcord: session and rate-limiting core

    A shallow embedding of [config/settings.py], [src/doom/engine.py] and
    [src/doom/session.py], and the properties of the rate limiter, the game
    session and the session manager that the specification states.

    Modelling conventions.
    - Python [int] is [Z].  Python [float] values are rationals [Q], and a
      float operation is the exact one followed by the rounding of binary64
      ([Float64.round]).  The modules [RateLimiter], [GameSession] and
      [SessionManager] compute on the exact rationals; [RateLimiter64],
      [GameSession64] and [SessionManager64] are the same methods with the
      subtractions and divisions of their tests rounded.  Properties that
      turn on a difference of floats close to its limit are stated of the
      rounded methods.
    - Every [time.time()] call is an input: the limiter's methods take the
      value their call returned as an argument [current_time]; the session
      and manager methods read a clock carried by the [World].
    - A method [def m(self, ...)] becomes a computation over the state
      [self]; mutations made before an exception are kept.
    - The coroutines run one after the other, as the single driving loop
      runs them; an [await] is a call. *)

From Stdlib Require Import ZArith QArith Qround List String Bool Lia Lqa.
From Stdlib Require Import Qabs Qpower.
From Stdlib Require SpecFloat.
Import ListNotations.
Open Scope Z_scope.

(** ** Python arithmetic on timestamps *)

(** [a < b] on floats, as a boolean. *)
Definition Qltb (a b : Q) : bool := negb (Qle_bool b a).

(** [int(x)] of a float: truncation towards zero. *)
Definition py_int (x : Q) : Z := Z.quot (Qnum x) (Zpos (Qden x)).

(** ** config/settings.py *)

Module Settings.
Definition MESSAGE_RATE_LIMIT : Q := 1.
Definition REACTION_RATE_LIMIT : Q := 1 # 4.
(** [int(os.getenv('MAX_SESSIONS', '10'))], at its default. *)
Definition MAX_SESSIONS : Z := 10.
Definition MAX_UPDATES_PER_MINUTE : Z := 60.
Definition SESSION_LIMIT_MESSAGE : string :=
  " Maximum number of game sessions reached. Try again later.".
End Settings.

(** ** session.py: class RateLimiter *)

Module RateLimiter.
Import Settings.

Record t : Type := mk
  { last_update : Q;
    update_count : Z;
    last_minute : Z }.

(** [__init__] *)
Definition init : t :=
  {| last_update := 0; update_count := 0; last_minute := 0 |}.

(** The minute counter reset at the head of [can_update]. *)
Definition roll (current_time : Q) (self : t) : t :=
  let current_minute := py_int (current_time / 60) in
  if current_minute >? last_minute self
  then {| last_update := last_update self;
          update_count := 0;
          last_minute := current_minute |}
  else self.

(** [can_update]: the verdict and the limiter after the call. *)
Definition can_update (current_time : Q) (self : t) : bool * t :=
  let self := roll current_time self in
  if update_count self >=? MAX_UPDATES_PER_MINUTE then (false, self)
  else if Qltb (current_time - last_update self) MESSAGE_RATE_LIMIT
       then (false, self)
       else (true, self).

(** [record_update] *)
Definition record_update (current_time : Q) (self : t) : t :=
  {| last_update := current_time;
     update_count := update_count self + 1;
     last_minute := last_minute self |}.

(** What the specification's words say of [recordUpdate(now)]: roll the
    bucket over when [now] is in a later bucket, then stamp and count. *)
Definition spec_record_update (now : Q) (self : t) : t :=
  let bucket := py_int (now / 60) in
  let count := if bucket >? last_minute self then 0 else update_count self in
  let marker :=
    if bucket >? last_minute self then bucket else last_minute self in
  {| last_update := now; update_count := count + 1; last_minute := marker |}.

(** A call made on a limiter, with the clock reading it saw. *)
Inductive call : Type :=
| CanUpdate (now : Q)
| RecordUpdate (now : Q).

(** Running a sequence of calls.  The result keeps the limiter, the times
    at which an update was recorded (oldest first), and whether the
    sequence kept the discipline: a [RecordUpdate now] comes right after a
    [CanUpdate now] that answered [True].  [permit] is the time of such an
    answer while it is still the latest call. *)
Record run_state : Type := mk_run
  { limiter : t;
    permit : option Q;
    recorded : list Q;
    disciplined : bool }.

Definition start_run (r : t) : run_state :=
  {| limiter := r; permit := None; recorded := []; disciplined := true |}.

Definition Qeqb_opt (p : option Q) (now : Q) : bool :=
  match p with
  | Some t0 => Qeq_bool t0 now
  | None => false
  end.

Definition step (s : run_state) (c : call) : run_state :=
  match c with
  | CanUpdate now =>
      let (ok, r) := can_update now (limiter s) in
      {| limiter := r;
         permit := if ok then Some now else None;
         recorded := recorded s;
         disciplined := disciplined s |}
  | RecordUpdate now =>
      {| limiter := record_update now (limiter s);
         permit := None;
         recorded := recorded s ++ [now];
         disciplined := disciplined s && Qeqb_opt (permit s) now |}
  end.

Definition run (cs : list call) (s : run_state) : run_state :=
  fold_left step cs s.

(** The 60-time-unit bucket of a timestamp, as the limiter computes it. *)
Definition bucket_of (now : Q) : Z := py_int (now / 60).

(** Updates recorded in bucket [m]. *)
Definition recorded_in (m : Z) (ts : list Q) : list Q :=
  filter (fun now => bucket_of now =? m) ts.

(** [n] check-then-record pairs spaced one time unit apart from [t0];
    [None] as soon as a check answers [False]. *)
Fixpoint pairs (n : nat) (t0 : Q) (r : t) : option t :=
  match n with
  | O => Some r
  | S n' =>
      let (ok, r1) := can_update t0 r in
      if ok then pairs n' (t0 + 1) (record_update t0 r1) else None
  end.
End RateLimiter.

(** ** Effects: clock, trace, exceptions *)

(** A Python value as it occurs in a saved state: an [int], or the
    3-tuple of floats of a position. *)
Inductive PyVal : Type :=
| PyInt (n : Z)
| PyFloat3 (p : Q * Q * Q).

(** A [dict] with string keys, in insertion order. *)
Definition PyDict : Type := list (string * PyVal).

(** What the program does that an observer outside can order: the calls
    the manager makes on a session (recorded at the call site, under the
    registry key), the writes to the registry, the pacing sleeps and the
    save files written. *)
Inductive Event : Type :=
| CallStop (user_id : Z)
| Started (user_id : Z)
| Publish (user_id : Z)
| Remove (user_id : Z)
| CallUpdate (user_id : Z)
| Sleep (seconds : Q)
| SaveFile (level : Z) (data : PyDict).

(** The [n]-th call of [time.time()] returns [clock n]. *)
Record World : Type := mkWorld
  { clock : nat -> Q;
    reads : nat;
    trace : list Event }.

Inductive Exn : Type :=
| DoomError   (* raised inside python_doom *)
| TypeError
| KeyError.

Inductive Res (A : Type) : Type :=
| Ok (a : A)
| Raise (e : Exn).
Arguments Ok {A} a.
Arguments Raise {A} e.

(** A method body over the object [self : St]. *)
Definition M (St A : Type) : Type := St -> World -> Res A * St * World.

Definition ret {St A : Type} (a : A) : M St A := fun s w => (Ok a, s, w).

Definition bind {St A B : Type} (c : M St A) (k : A -> M St B) : M St B :=
  fun s w =>
    match c s w with
    | (Ok a, s', w') => k a s' w'
    | (Raise e, s', w') => (Raise e, s', w')
    end.

Definition raise {St A : Type} (e : Exn) : M St A := fun s w => (Raise e, s, w).

Definition get {St : Type} : M St St := fun s w => (Ok s, s, w).

Definition modify {St : Type} (f : St -> St) : M St unit :=
  fun s w => (Ok tt, f s, w).

(** [time.time()] *)
Definition time_time {St : Type} : M St Q :=
  fun s w =>
    (Ok (clock w (reads w)), s,
     {| clock := clock w; reads := S (reads w); trace := trace w |}).

Definition emit {St : Type} (e : Event) : M St unit :=
  fun s w =>
    (Ok tt, s,
     {| clock := clock w; reads := reads w; trace := trace w ++ [e] |}).

(** A method call on an attribute: [self.attr.m()]. *)
Definition within {St T A : Type} (proj : St -> T) (upd : T -> St -> St)
  (c : M T A) : M St A :=
  fun s w => let '(r, t', w') := c (proj s) w in (r, upd t' s, w').

(** A method call on a fresh local object; the object is the result. *)
Definition on_local {St T A : Type} (obj : T) (c : M T A) : M St T :=
  fun s w =>
    match c obj w with
    | (Ok _, obj', w') => (Ok obj', s, w')
    | (Raise e, _, w') => (Raise e, s, w')
    end.

Declare Scope method_scope.
Delimit Scope method_scope with method.
Notation "x <- c ;; k" := (bind c (fun x => k))
  (at level 61, c at next level, right associativity) : method_scope.
Notation "c ;; k" := (bind c (fun _ => k))
  (at level 61, right associativity) : method_scope.

(** A [for] loop over a list. *)
Fixpoint for_each {St X : Type} (xs : list X) (body : X -> M St unit)
  : M St unit :=
  match xs with
  | [] => ret tt
  | x :: xs' => (body x ;; for_each xs' body)%method
  end.

(** ** A [dict] keyed by user identifiers, in insertion order *)

Module Dict.
Section Ops.
Context {V : Type}.

Definition t : Type := list (Z * V).

(** [k in d] *)
Definition contains (k : Z) (d : t) : bool :=
  existsb (fun kv => fst kv =? k) d.

(** [d.get(k)] *)
Definition get (k : Z) (d : t) : option V :=
  option_map snd (find (fun kv => fst kv =? k) d).

(** [d[k] = v]: a present key keeps its place, a new one goes last. *)
Definition set (k : Z) (v : V) (d : t) : t :=
  if contains k d
  then map (fun kv => if fst kv =? k then (k, v) else kv) d
  else d ++ [(k, v)].

(** [del d[k]] *)
Definition del (k : Z) (d : t) : t :=
  filter (fun kv => negb (fst kv =? k)) d.

Definition keys (d : t) : list Z := map fst d.

(** The number of entries under [k]. *)
Definition count (k : Z) (d : t) : nat :=
  List.length (filter (fun kv => fst kv =? k) d).

(** Keys are unique, as in every Python [dict]. *)
Definition wf (d : t) : Prop := NoDup (keys d).

(** A method call on the entry under [k]: [d[k].m()]. *)
Definition at_key {A : Type} (k : Z) (c : M V A) : M t A :=
  fun d w =>
    match get k d with
    | Some v => let '(r, v', w') := c v w in (r, set k v' d, w')
    | None => (Raise KeyError, d, w)
    end.
End Ops.
Arguments t V : clear implicits.
End Dict.

(** ** engine.py: the python_doom library *)

Inductive Button : Type :=
| MOVE_FORWARD | MOVE_BACKWARD | TURN_LEFT | TURN_RIGHT | ATTACK | USE.

Inductive GameVariable : Type := HEALTH | ARMOR | AMMO | WEAPON.

(** The configuration calls of [setup_game]. *)
Inductive Setting : Type :=
| set_doom_game_path (path : string)
| set_screen_resolution (width height : Z)
| set_screen_format_GRAY8
| add_available_button (b : Button)
| add_available_game_variable (v : GameVariable)
| set_window_visible (visible : bool)
| set_mode_PLAYER.

(** A frame: rows of 8-bit pixels. *)
Definition Frame : Type := list (list Z).

(** The simulator behind [python_doom.DoomGame], whose code is not part of
    the repository: a handle of some type [G] and the calls the engine
    makes on it.  [init] and [new_episode] answer [None] when the library
    raises; the other calls are taken to return. *)
Class DoomGame (G : Type) : Type :=
  { new_game : G;
    configure : Setting -> G -> G;
    init : G -> option G;
    new_episode : G -> option G;
    get_game_variable : GameVariable -> G -> Z;
    screen_buffer : G -> Frame;
    make_action : list Z -> G -> G;
    close : G -> G }.

(** ** engine.py: class GameState *)

Module GameState.
Record t : Type := mk
  { health : Z;
    armor : Z;
    ammo : Z;
    weapon : Z;
    position : Q * Q * Q;
    level : Z;
    score : Z }.

(** [GameState()], the field defaults. *)
Definition default : t :=
  {| health := 100; armor := 0; ammo := 50; weapon := 2;
     position := (0, 0, 0)%Q; level := 1; score := 0 |}.

(** [to_dict]: [asdict(self)] *)
Definition to_dict (self : t) : PyDict :=
  [ ("health", PyInt (health self));
    ("armor", PyInt (armor self));
    ("ammo", PyInt (ammo self));
    ("weapon", PyInt (weapon self));
    ("position", PyFloat3 (position self));
    ("level", PyInt (level self));
    ("score", PyInt (score self)) ]%string.

(** One keyword argument of the call of [cls] on the unpacked [data].
    A key that is no field is a
    [TypeError], here [None]; so is, in this typed record, a value that
    is not of the field's annotated type. *)
Definition with_field (k : string) (v : PyVal) (s : t) : option t :=
  match v with
  | PyInt n =>
      if (k =? "health")%string then
        Some {| health := n; armor := armor s; ammo := ammo s;
                weapon := weapon s; position := position s;
                level := level s; score := score s |}
      else if (k =? "armor")%string then
        Some {| health := health s; armor := n; ammo := ammo s;
                weapon := weapon s; position := position s;
                level := level s; score := score s |}
      else if (k =? "ammo")%string then
        Some {| health := health s; armor := armor s; ammo := n;
                weapon := weapon s; position := position s;
                level := level s; score := score s |}
      else if (k =? "weapon")%string then
        Some {| health := health s; armor := armor s; ammo := ammo s;
                weapon := n; position := position s;
                level := level s; score := score s |}
      else if (k =? "level")%string then
        Some {| health := health s; armor := armor s; ammo := ammo s;
                weapon := weapon s; position := position s;
                level := n; score := score s |}
      else if (k =? "score")%string then
        Some {| health := health s; armor := armor s; ammo := ammo s;
                weapon := weapon s; position := position s;
                level := level s; score := n |}
      else None
  | PyFloat3 p =>
      if (k =? "position")%string then
        Some {| health := health s; armor := armor s; ammo := ammo s;
                weapon := weapon s; position := p;
                level := level s; score := score s |}
      else None
  end.

(** [from_dict]: [cls] called on the unpacked [data]; fields absent from
    [data] keep their defaults. *)
Definition from_dict (data : PyDict) : option t :=
  fold_left
    (fun acc kv =>
       match acc with
       | Some s => with_field (fst kv) (snd kv) s
       | None => None
       end)
    data (Some default).
End GameState.

(** [data[key]] on a saved state. *)
Definition py_getitem {St : Type} (key : string) (data : PyDict) : M St PyVal :=
  match find (fun kv => (fst kv =? key)%string) data with
  | Some kv => ret (snd kv)
  | None => raise KeyError
  end.

(** ** engine.py: class DoomEngine *)

Module DoomEngine.
Record t (G : Type) : Type := mk
  { wad_path : string;
    game_state : GameState.t;
    frame_buffer : option Frame;
    initialized : bool;
    game : G }.
Arguments mk {G}.
Arguments wad_path {G}.
Arguments game_state {G}.
Arguments frame_buffer {G}.
Arguments initialized {G}.
Arguments game {G}.

Section Methods.
Context {G : Type} {doom : DoomGame G}.

Definition set_game_state (gs : GameState.t) (self : t G) : t G :=
  {| wad_path := wad_path self; game_state := gs;
     frame_buffer := frame_buffer self;
     initialized := initialized self; game := game self |}.

Definition set_frame_buffer (fb : option Frame) (self : t G) : t G :=
  {| wad_path := wad_path self; game_state := game_state self;
     frame_buffer := fb;
     initialized := initialized self; game := game self |}.

Definition set_initialized (b : bool) (self : t G) : t G :=
  {| wad_path := wad_path self; game_state := game_state self;
     frame_buffer := frame_buffer self;
     initialized := b; game := game self |}.

Definition set_game (g : G) (self : t G) : t G :=
  {| wad_path := wad_path self; game_state := game_state self;
     frame_buffer := frame_buffer self;
     initialized := initialized self; game := g |}.

(** [setup_game] *)
Definition setup_game (wad : string) (g : G) : G :=
  fold_left (fun g0 c => configure c g0)
    [ set_doom_game_path wad;
      set_screen_resolution 640 400;
      set_screen_format_GRAY8;
      add_available_button MOVE_FORWARD;
      add_available_button MOVE_BACKWARD;
      add_available_button TURN_LEFT;
      add_available_button TURN_RIGHT;
      add_available_button ATTACK;
      add_available_button USE;
      add_available_game_variable HEALTH;
      add_available_game_variable ARMOR;
      add_available_game_variable AMMO;
      add_available_game_variable WEAPON;
      set_window_visible false;
      set_mode_PLAYER ]
    g.

(** [__init__]; [wad_path or os.path.join('assets', 'doom1.wad')]. *)
Definition new (wad : option string) : t G :=
  let path :=
    match wad with
    | Some p => if (p =? "")%string then "assets/doom1.wad"%string else p
    | None => "assets/doom1.wad"%string
    end in
  {| wad_path := path;
     game_state := GameState.default;
     frame_buffer := None;
     initialized := false;
     game := setup_game path new_game |}.

(** A call on [self.game] that may raise. *)
Definition game_call (f : G -> option G) : M (t G) unit :=
  fun self w =>
    match f (game self) with
    | Some g => (Ok tt, set_game g self, w)
    | None => (Raise DoomError, self, w)
    end.

Definition initialize : M (t G) unit :=
  (self <- get ;;
   if initialized self then ret tt
   else
     game_call init ;;
     game_call new_episode ;;
     modify (set_initialized true))%method.

Definition ensure_initialized : M (t G) unit :=
  (self <- get ;;
   if negb (initialized self) then initialize else ret tt)%method.

Definition update (delta_time : Q) : M (t G) unit :=
  (ensure_initialized ;;
   modify (fun self =>
     let g := game self in
     let gs := game_state self in
     set_game_state
       {| GameState.health := get_game_variable HEALTH g;
          GameState.armor := get_game_variable ARMOR g;
          GameState.ammo := get_game_variable AMMO g;
          GameState.weapon := get_game_variable WEAPON g;
          GameState.position := GameState.position gs;
          GameState.level := GameState.level gs;
          GameState.score := GameState.score gs |}
       self) ;;
   modify (fun self =>
     set_frame_buffer (Some (screen_buffer (game self))) self))%method.

Definition do_action (action : list Z) : M (t G) unit :=
  modify (fun self => set_game (make_action action (game self)) self).

Definition _move_forward : M (t G) unit := do_action [1; 0; 0; 0; 0; 0].
Definition _move_backward : M (t G) unit := do_action [0; 1; 0; 0; 0; 0].
Definition _turn_left : M (t G) unit := do_action [0; 0; 1; 0; 0; 0].
Definition _turn_right : M (t G) unit := do_action [0; 0; 0; 1; 0; 0].
Definition _shoot : M (t G) unit :=
  (self <- get ;;
   if GameState.ammo (game_state self) >? 0
   then do_action [0; 0; 0; 0; 1; 0]
   else ret tt)%method.
Definition _use : M (t G) unit := do_action [0; 0; 0; 0; 0; 1].
Definition _switch_weapon : M (t G) unit := ret tt.

Definition handle_input (action : string) : M (t G) unit :=
  (ensure_initialized ;;
   if (action =? "forward")%string then _move_forward
   else if (action =? "backward")%string then _move_backward
   else if (action =? "left")%string then _turn_left
   else if (action =? "right")%string then _turn_right
   else if (action =? "shoot")%string then _shoot
   else if (action =? "use")%string then _use
   else if (action =? "weapon_switch")%string then _switch_weapon
   else ret tt)%method.

(** [np.zeros((400, 640), dtype=np.uint8)] *)
Definition blank_frame : Frame := repeat (repeat 0 640%nat) 400%nat.

Definition get_frame : M (t G) Frame :=
  (ensure_initialized ;;
   self <- get ;;
   ret match frame_buffer self with
       | Some f => f
       | None => blank_frame
       end)%method.

(** [save_state]; the file written is the event, its timestamped name
    is left out. *)
Definition save_state : M (t G) PyDict :=
  (self <- get ;;
   let state_data := GameState.to_dict (game_state self) in
   emit (SaveFile (GameState.level (game_state self)) state_data) ;;
   ret state_data)%method.

Definition load_state (state : PyDict) : M (t G) unit :=
  match GameState.from_dict state with
  | Some gs => modify (set_game_state gs)
  | None => raise TypeError
  end.

(** [__del__]: the only place where the simulator is closed. *)
Definition del (self : t G) : t G := set_game (close (game self)) self.
End Methods.
End DoomEngine.

(** ** frame_buffer.py: class FrameBuffer *)

Module FrameBuffer.
Record t : Type := mk { width : Z; height : Z }.

(** [FrameBuffer()] *)
Definition new : t := {| width := 60; height := 40 |}.

(** The two rendering methods go through PIL and numpy, whose code is
    not part of the repository; they are pure, and taken as given. *)
Class Renderer : Type :=
  { frame_to_ascii : t -> Frame -> string;
    add_status_bar :
      t -> string -> PyVal -> PyVal -> PyVal -> PyVal -> string }.
End FrameBuffer.

(** ** session.py: class GameSession *)

Module GameSession.
Import Settings.

Record t (G : Type) : Type := mk
  { user_id : Z;
    engine : DoomEngine.t G;
    frame_buffer : FrameBuffer.t;
    message_id : option Z;
    channel_id : option Z;
    last_update : Q;
    active : bool;
    rate_limiter : RateLimiter.t;
    last_input_time : Q }.
Arguments mk {G}.
Arguments user_id {G}.
Arguments engine {G}.
Arguments frame_buffer {G}.
Arguments message_id {G}.
Arguments channel_id {G}.
Arguments last_update {G}.
Arguments active {G}.
Arguments rate_limiter {G}.
Arguments last_input_time {G}.

Section Methods.
Context {G : Type} {doom : DoomGame G} {renderer : FrameBuffer.Renderer}.

Definition set_engine (e : DoomEngine.t G) (self : t G) : t G :=
  {| user_id := user_id self; engine := e;
     frame_buffer := frame_buffer self;
     message_id := message_id self; channel_id := channel_id self;
     last_update := last_update self; active := active self;
     rate_limiter := rate_limiter self;
     last_input_time := last_input_time self |}.

Definition set_active (b : bool) (self : t G) : t G :=
  {| user_id := user_id self; engine := engine self;
     frame_buffer := frame_buffer self;
     message_id := message_id self; channel_id := channel_id self;
     last_update := last_update self; active := b;
     rate_limiter := rate_limiter self;
     last_input_time := last_input_time self |}.

Definition set_rate_limiter (r : RateLimiter.t) (self : t G) : t G :=
  {| user_id := user_id self; engine := engine self;
     frame_buffer := frame_buffer self;
     message_id := message_id self; channel_id := channel_id self;
     last_update := last_update self; active := active self;
     rate_limiter := r;
     last_input_time := last_input_time self |}.

Definition set_last_input_time (q : Q) (self : t G) : t G :=
  {| user_id := user_id self; engine := engine self;
     frame_buffer := frame_buffer self;
     message_id := message_id self; channel_id := channel_id self;
     last_update := last_update self; active := active self;
     rate_limiter := rate_limiter self;
     last_input_time := q |}.

(** [__init__] *)
Definition new (uid : Z) : t G :=
  {| user_id := uid;
     engine := DoomEngine.new None;
     frame_buffer := FrameBuffer.new;
     message_id := None;
     channel_id := None;
     last_update := 0;
     active := false;
     rate_limiter := RateLimiter.init;
     last_input_time := 0 |}.

Definition start : M (t G) unit :=
  (within engine set_engine DoomEngine.initialize ;;
   modify (set_active true))%method.

Definition stop : M (t G) unit :=
  modify (set_active false).
  (* Clean up resources *)

Definition handle_input (action : string) : M (t G) unit :=
  (self <- get ;;
   if negb (active self) then ret tt
   else
     current_time <- time_time ;;
     if Qltb (current_time - last_input_time self) REACTION_RATE_LIMIT
     then ret tt
     else
       modify (set_last_input_time current_time) ;;
       within engine set_engine (DoomEngine.handle_input action))%method.

(** [self.rate_limiter.can_update()] *)
Definition limiter_can_update : M (t G) bool :=
  (current_time <- time_time ;;
   self <- get ;;
   let (ok, r) := RateLimiter.can_update current_time (rate_limiter self) in
   modify (set_rate_limiter r) ;;
   ret ok)%method.

(** [self.rate_limiter.record_update()] *)
Definition limiter_record_update : M (t G) unit :=
  (current_time <- time_time ;;
   modify (fun self =>
     set_rate_limiter
       (RateLimiter.record_update current_time (rate_limiter self)) self)
  )%method.

Definition update (delta_time : Q) : M (t G) unit :=
  (self <- get ;;
   if negb (active self) then ret tt
   else
     ok <- limiter_can_update ;;
     if negb ok then ret tt
     else
       within engine set_engine (DoomEngine.update delta_time) ;;
       limiter_record_update)%method.

Definition get_frame : M (t G) string :=
  (self <- get ;;
   if negb (active self) then ret ""%string
   else
     frame <- within engine set_engine DoomEngine.get_frame ;;
     let ascii_frame :=
       FrameBuffer.frame_to_ascii (frame_buffer self) frame in
     game_state <- within engine set_engine DoomEngine.save_state ;;
     health <- py_getitem "health" game_state ;;
     ammo <- py_getitem "ammo" game_state ;;
     armor <- py_getitem "armor" game_state ;;
     weapon <- py_getitem "weapon" game_state ;;
     ret (FrameBuffer.add_status_bar (frame_buffer self)
            ascii_frame health ammo armor weapon))%method.

Definition save_state : M (t G) PyDict :=
  within engine set_engine DoomEngine.save_state.

Definition load_state (state : PyDict) : M (t G) unit :=
  within engine set_engine (DoomEngine.load_state state).

(** The operations a caller can issue against a session. *)
Inductive op : Type :=
| Start
| Stop
| HandleInput (action : string)
| Update (delta_time : Q)
| GetFrame
| SaveState
| LoadState (state : PyDict).

Definition run_op (o : op) : M (t G) unit :=
  match o with
  | Start => start
  | Stop => stop
  | HandleInput action => handle_input action
  | Update delta_time => update delta_time
  | GetFrame => (get_frame ;; ret tt)%method
  | SaveState => (save_state ;; ret tt)%method
  | LoadState state => load_state state
  end.

(** A sequence of operations; one that raises does not stop the
    caller from issuing the next. *)
Fixpoint run_ops (os : list op) (self : t G) (w : World) : t G * World :=
  match os with
  | [] => (self, w)
  | o :: os' =>
      let '(_, self', w') := run_op o self w in run_ops os' self' w'
  end.
End Methods.
End GameSession.

(** ** session.py: class SessionManager *)

Module SessionManager.
Import Settings.

Record t (G : Type) : Type := mk
  { sessions : Dict.t (GameSession.t G);
    last_cleanup : Q }.
Arguments mk {G}.
Arguments sessions {G}.
Arguments last_cleanup {G}.

Section Methods.
Context {G : Type} {doom : DoomGame G} {renderer : FrameBuffer.Renderer}.

Definition set_sessions (d : Dict.t (GameSession.t G)) (self : t G) : t G :=
  {| sessions := d; last_cleanup := last_cleanup self |}.

Definition set_last_cleanup (q : Q) (self : t G) : t G :=
  {| sessions := sessions self; last_cleanup := q |}.

(** [__init__] *)
Definition new : t G := {| sessions := []; last_cleanup := 0 |}.

(** [await self.sessions[user_id].stop()], seen from outside. *)
Definition stop_registered (uid : Z) : M (t G) unit :=
  (emit (CallStop uid) ;;
   within sessions set_sessions (Dict.at_key uid GameSession.stop))%method.

Definition create_session (uid : Z) : M (t G) (GameSession.t G) :=
  (self <- get ;;
   (if Dict.contains uid (sessions self)
    then stop_registered uid
    else ret tt) ;;
   session <- on_local (GameSession.new uid) GameSession.start ;;
   emit (Started uid) ;;
   modify (fun self =>
     set_sessions (Dict.set uid session (sessions self)) self) ;;
   emit (Publish uid) ;;
   ret session)%method.

Definition get_session (uid : Z) : M (t G) (option (GameSession.t G)) :=
  (self <- get ;; ret (Dict.get uid (sessions self)))%method.

Definition end_session (uid : Z) : M (t G) unit :=
  (self <- get ;;
   if Dict.contains uid (sessions self)
   then
     stop_registered uid ;;
     modify (fun self => set_sessions (Dict.del uid (sessions self)) self) ;;
     emit (Remove uid)
   else ret tt)%method.

(** The sweep's test on one session. *)
Definition idle (current_time : Q) (session : GameSession.t G) : bool :=
  Qltb 300 (current_time - GameSession.last_update session).

(** The second loop of [update_all], over the entries of the registry
    in their order; each session object is updated in place.  The manager
    is driven by one loop: no other task changes the registry while the
    pass sleeps. *)
Fixpoint update_sessions (delta_time : Q)
  (d : Dict.t (GameSession.t G)) (w : World)
  : Res unit * Dict.t (GameSession.t G) * World :=
  match d with
  | [] => (Ok tt, [], w)
  | (uid, session) :: rest =>
      match (emit (CallUpdate uid) ;;
             GameSession.update delta_time ;;
             emit (Sleep MESSAGE_RATE_LIMIT))%method session w with
      | (Ok _, session', w') =>
          let '(r, rest', w'') := update_sessions delta_time rest w' in
          (r, (uid, session') :: rest', w'')
      | (Raise e, session', w') =>
          (Raise e, (uid, session') :: rest, w')
      end
  end.

Definition update_all (delta_time : Q) : M (t G) unit :=
  (current_time <- time_time ;;
   self <- get ;;
   (if Qle_bool 60 (current_time - last_cleanup self)
    then
      modify (set_last_cleanup current_time) ;;
      let inactive_users :=
        map fst
          (filter (fun kv => idle current_time (snd kv)) (sessions self)) in
      for_each inactive_users end_session
    else ret tt) ;;
   within sessions set_sessions (update_sessions delta_time))%method.
End Methods.
End SessionManager.

(** ** A small simulator, to run the program on *)

Module Toy.
(** What was done to the handle. *)
Record game : Type := mk
  { running : bool;
    closed : bool;
    actions : list (list Z) }.

#[global] Instance doom : DoomGame game :=
  { new_game := {| running := false; closed := false; actions := [] |};
    configure := fun _ g => g;
    init := fun g =>
      if closed g then None
      else Some {| running := true; closed := false; actions := actions g |};
    new_episode := fun g => if running g then Some g else None;
    get_game_variable := fun v _ =>
      match v with
      | HEALTH => 100 | ARMOR => 0 | AMMO => 50 | WEAPON => 2
      end;
    screen_buffer := fun _ => [[0; 255]; [255; 0]];
    make_action := fun a g =>
      {| running := running g; closed := closed g;
         actions := actions g ++ [a] |};
    close := fun g =>
      {| running := false; closed := true; actions := actions g |} }.

#[global] Instance renderer : FrameBuffer.Renderer :=
  { FrameBuffer.frame_to_ascii := fun _ _ => "@"%string;
    FrameBuffer.add_status_bar := fun _ s _ _ _ _ => s }.

(** A clock that starts at [t0] and advances by one at every reading. *)
Definition clock_from (t0 : Z) (n : nat) : Q := inject_Z (t0 + Z.of_nat n).

Definition world (t0 : Z) : World :=
  {| clock := clock_from t0; reads := 0; trace := [] |}.

(** A manager's first tick, at time 1000, with no session yet. *)
Definition booted : Res unit * SessionManager.t game * World :=
  SessionManager.update_all 1 SessionManager.new (world 1000).

(** Then user 1 joins. *)
Definition joined : Res (GameSession.t game) * SessionManager.t game * World :=
  SessionManager.create_session 1 (snd (fst booted)) (snd booted).

Definition manager1 : SessionManager.t game := snd (fst joined).
Definition world1 : World := snd joined.

(** The session a call returned, or a fresh one when it raised. *)
Definition returned (r : Res (GameSession.t game)) : GameSession.t game :=
  match r with
  | Ok s => s
  | Raise _ => GameSession.new 0
  end.

(** A manager on which users 1 to 10 each created a session. *)
Definition filled : Res unit * SessionManager.t game * World :=
  for_each [1; 2; 3; 4; 5; 6; 7; 8; 9; 10]
    (fun uid => (SessionManager.create_session uid ;; ret tt)%method)
    SessionManager.new (world 1000).

Definition full_manager : SessionManager.t game := snd (fst filled).
Definition full_world : World := snd filled.
End Toy.

(** ** engine.py: the field names of [GameState] *)

Definition GameState_fields : list string :=
  [ "health"; "armor"; "ammo"; "weapon"; "position"; "level";
    "score" ]%string.

(** ** A simulator that cannot start *)

Module Broken.
Record game : Type := mk { attempts : nat }.

#[global] Instance doom : DoomGame game :=
  { new_game := {| attempts := 0 |};
    configure := fun _ g => g;
    init := fun _ => None;
    new_episode := fun _ => None;
    get_game_variable := fun _ _ => 0;
    screen_buffer := fun _ => [];
    make_action := fun _ g => g;
    close := fun g => g }.
End Broken.

(** ** Binary64 arithmetic on rationals

    Where a property turns on a strict test between floats, exact
    rationals say more than the program does.  [Float64.round] is the
    rounding of IEEE-754 binary64, to nearest with ties to even, with
    subnormals; a float operation is the exact operation followed by it.
    Overflow is not a value here: [Float64.to_float] answers [None] at and
    beyond [2 ^ 1024]. *)

Module Float64.
(** The binary exponent of a positive rational: [floor (log2 x)]. *)
Definition ilog2 (x : Q) : Z :=
  let k := Z.log2 (Qnum x) - Z.log2 (Zpos (Qden x)) in
  if Qle_bool (2 ^ k) x then k else k - 1.

(** The exponent of the last of the 53 bits of [x]; [-1074] for the
    subnormals. *)
Definition ulp_exp (x : Q) : Z := Z.max (ilog2 (Qabs x) - 52) (-1074).

(** The nearest integer, the even one of two equally near. *)
Definition rne (q : Q) : Z :=
  let f := Qfloor q in
  match Qcompare (q - inject_Z f) (1 # 2) with
  | Lt => f
  | Gt => f + 1
  | Eq => if Z.even f then f else f + 1
  end.

Definition round (x : Q) : Q :=
  if Qeq_bool x 0 then 0%Q
  else (inject_Z (rne (x / 2 ^ ulp_exp x)) * 2 ^ ulp_exp x)%Q.

(** [a - b], [a / b] and [a * b] on floats. *)
Definition sub (a b : Q) : Q := round (a - b).
Definition div (a b : Q) : Q := round (a / b).
Definition mul (a b : Q) : Q := round (a * b).

(** A rational as a float, when it rounds to a finite one. *)
Definition to_float (x : Q) : option Q :=
  let r := round x in
  if Qltb (Qabs r) (2 ^ 1024) then Some r else None.

(** The value of a float of the standard library's specification of
    IEEE-754, and the binary64 float nearest to [m * 2 ^ e] there. *)
Definition of_spec (x : SpecFloat.spec_float) : option Q :=
  match x with
  | SpecFloat.S754_zero _ => Some 0%Q
  | SpecFloat.S754_finite s m e =>
      Some ((if s then -1 else 1) * inject_Z (Zpos m) * 2 ^ e)%Q
  | _ => None
  end.

Definition spec (m e : Z) : SpecFloat.spec_float :=
  SpecFloat.binary_normalize 53 1024 m e false.
End Float64.

(** ** session.py: the methods that test a difference of floats, rounded *)

Module RateLimiter64.
Import Settings.

(** [can_update] with its division and its subtraction rounded. *)
Definition can_update (current_time : Q) (self : RateLimiter.t)
  : bool * RateLimiter.t :=
  let current_minute := py_int (Float64.div current_time 60) in
  let self :=
    if current_minute >? RateLimiter.last_minute self
    then {| RateLimiter.last_update := RateLimiter.last_update self;
            RateLimiter.update_count := 0;
            RateLimiter.last_minute := current_minute |}
    else self in
  if RateLimiter.update_count self >=? MAX_UPDATES_PER_MINUTE
  then (false, self)
  else if Qltb (Float64.sub current_time (RateLimiter.last_update self))
            MESSAGE_RATE_LIMIT
       then (false, self)
       else (true, self).
End RateLimiter64.

Module GameSession64.
Import Settings.

Section Methods.
Context {G : Type} {doom : DoomGame G} {renderer : FrameBuffer.Renderer}.

(** [handle_input] with its subtraction rounded. *)
Definition handle_input (action : string) : M (GameSession.t G) unit :=
  (self <- get ;;
   if negb (GameSession.active self) then ret tt
   else
     current_time <- time_time ;;
     if Qltb (Float64.sub current_time (GameSession.last_input_time self))
          REACTION_RATE_LIMIT
     then ret tt
     else
       modify (GameSession.set_last_input_time current_time) ;;
       within GameSession.engine GameSession.set_engine
         (DoomEngine.handle_input action))%method.

(** [self.rate_limiter.can_update()], rounded. *)
Definition limiter_can_update : M (GameSession.t G) bool :=
  (current_time <- time_time ;;
   self <- get ;;
   let (ok, r) :=
     RateLimiter64.can_update current_time (GameSession.rate_limiter self) in
   modify (GameSession.set_rate_limiter r) ;;
   ret ok)%method.

(** [update] with the limiter's tests rounded. *)
Definition update (delta_time : Q) : M (GameSession.t G) unit :=
  (self <- get ;;
   if negb (GameSession.active self) then ret tt
   else
     ok <- limiter_can_update ;;
     if negb ok then ret tt
     else
       within GameSession.engine GameSession.set_engine
         (DoomEngine.update delta_time) ;;
       GameSession.limiter_record_update)%method.
End Methods.
End GameSession64.

Module SessionManager64.
Import Settings.

Section Methods.
Context {G : Type} {doom : DoomGame G} {renderer : FrameBuffer.Renderer}.

(** The sweep's test on one session, its subtraction rounded. *)
Definition idle (current_time : Q) (session : GameSession.t G) : bool :=
  Qltb 300 (Float64.sub current_time (GameSession.last_update session)).

(** The second loop of [update_all], the sessions' limiters rounding. *)
Fixpoint update_sessions (delta_time : Q)
  (d : Dict.t (GameSession.t G)) (w : World)
  : Res unit * Dict.t (GameSession.t G) * World :=
  match d with
  | [] => (Ok tt, [], w)
  | (uid, session) :: rest =>
      match (emit (CallUpdate uid) ;;
             GameSession64.update delta_time ;;
             emit (Sleep MESSAGE_RATE_LIMIT))%method session w with
      | (Ok _, session', w') =>
          let '(r, rest', w'') := update_sessions delta_time rest w' in
          (r, (uid, session') :: rest', w'')
      | (Raise e, session', w') =>
          (Raise e, (uid, session') :: rest, w')
      end
  end.

(** [update_all] with the subtractions of its two tests rounded. *)
Definition update_all (delta_time : Q) : M (SessionManager.t G) unit :=
  (current_time <- time_time ;;
   self <- get ;;
   (if Qle_bool 60
         (Float64.sub current_time (SessionManager.last_cleanup self))
    then
      modify (SessionManager.set_last_cleanup current_time) ;;
      let inactive_users :=
        map fst
          (filter (fun kv => idle current_time (snd kv))
             (SessionManager.sessions self)) in
      for_each inactive_users SessionManager.end_session
    else ret tt) ;;
   within SessionManager.sessions SessionManager.set_sessions
     (update_sessions delta_time))%method.
End Methods.
End SessionManager64.

(** ** session.py: [create_session] before the registry is written *)


(** ** A simulator that starts and has no episode *)

Module Stalled.
Record game : Type := mk { inits : nat }.

#[global] Instance doom : DoomGame game :=
  { new_game := {| inits := 0 |};
    configure := fun _ g => g;
    init := fun g => Some {| inits := S (inits g) |};
    new_episode := fun _ => None;
    get_game_variable := fun _ _ => 0;
    screen_buffer := fun _ => [];
    make_action := fun _ g => g;
    close := fun g => g }.
End Stalled.

(** ** engine.py: the calls of [setup_game], as a list *)

Definition setup_calls (wad : string) : list Setting :=
  [ set_doom_game_path wad;
    set_screen_resolution 640 400;
    set_screen_format_GRAY8;
    add_available_button MOVE_FORWARD;
    add_available_button MOVE_BACKWARD;
    add_available_button TURN_LEFT;
    add_available_button TURN_RIGHT;
    add_available_button ATTACK;
    add_available_button USE;
    add_available_game_variable HEALTH;
    add_available_game_variable ARMOR;
    add_available_game_variable AMMO;
    add_available_game_variable WEAPON;
    set_window_visible false;
    set_mode_PLAYER ].

(** The buttons made available, in the order of the calls: the order in
    which [make_action] reads its list. *)
Fixpoint available_buttons (calls : list Setting) : list Button :=
  match calls with
  | [] => []
  | add_available_button b :: rest => b :: available_buttons rest
  | _ :: rest => available_buttons rest
  end.

Definition Button_eqb (a b : Button) : bool :=
  match a, b with
  | MOVE_FORWARD, MOVE_FORWARD | MOVE_BACKWARD, MOVE_BACKWARD
  | TURN_LEFT, TURN_LEFT | TURN_RIGHT, TURN_RIGHT
  | ATTACK, ATTACK | USE, USE => true
  | _, _ => false
  end.

(** The action list that presses [b] alone. *)
Definition press (b : Button) (buttons : list Button) : list Z :=
  map (fun b' => if Button_eqb b b' then 1 else 0) buttons.

(** The button each input name of [handle_input] stands for. *)
Definition button_of_action (action : string) : option Button :=
  if (action =? "forward")%string then Some MOVE_FORWARD
  else if (action =? "backward")%string then Some MOVE_BACKWARD
  else if (action =? "left")%string then Some TURN_LEFT
  else if (action =? "right")%string then Some TURN_RIGHT
  else if (action =? "shoot")%string then Some ATTACK
  else if (action =? "use")%string then Some USE
  else None.

(** ** frame_buffer.py: the methods written in Python *)

Module Render.
(** A Python [str] that holds characters outside ASCII, as code points. *)
Definition unicode : Type := list Z.

(** U+2588, the filled cell of a bar, and U+2591, the empty one. *)
Definition FULL_BLOCK : Z := 9608.
Definition LIGHT_SHADE : Z := 9617.

(** [c * n] for a one-character string [c]: empty when [n <= 0].  The
    string is built whatever its length: memory is not modelled. *)
Definition str_times (c : Z) (n : Z) : unicode := repeat c (Z.to_nat n).

(** What [_create_bar] gives: a bar, or one of the two errors its
    arithmetic can raise. *)
Inductive bar_result : Type :=
| Bar (cells : unicode)
| ZeroDivisionError
| OverflowError.

(** [_create_bar].  [value / max_value] on ints is the float nearest to
    the quotient, [... * length] converts [length] to a float and
    multiplies, [int(...)] truncates; a result too large for a float is an
    [OverflowError] at the division, at the conversion, or at [int] of an
    infinite product. *)
Definition _create_bar (value max_value length : Z) : bar_result :=
  if max_value =? 0 then ZeroDivisionError
  else
    match Float64.to_float (inject_Z value / inject_Z max_value) with
    | None => OverflowError
    | Some ratio =>
        match Float64.to_float (inject_Z length) with
        | None => OverflowError
        | Some len =>
            match Float64.to_float (ratio * len) with
            | None => OverflowError
            | Some product =>
                let filled := py_int product in
                Bar (str_times FULL_BLOCK filled
                     ++ str_times LIGHT_SHADE (length - filled))
            end
        end
    end.

(** The table of [_weapon_name]. *)
Definition weapons : list (Z * string) :=
  [ (1, "Fist"); (2, "Pistol"); (3, "Shotgun"); (4, "Chaingun");
    (5, "Rocket"); (6, "Plasma"); (7, "BFG9000") ]%string.

(** [_weapon_name]: [weapons.get(weapon_id, "Unknown")] *)
Definition _weapon_name (weapon_id : Z) : string :=
  match find (fun kv => fst kv =? weapon_id) weapons with
  | Some kv => snd kv
  | None => "Unknown"%string
  end.

Definition ASCII_CHARS : string := " .:-=+*#%@".

(** [s[i]] on a string: a negative index counts from the end, an index
    out of range is an [IndexError], here [None]. *)
Definition str_index (s : string) (i : Z) : option Ascii.ascii :=
  let n := Z.of_nat (String.length s) in
  if 0 <=? i then String.get (Z.to_nat i) s
  else if - n <=? i then String.get (Z.to_nat (n + i)) s
  else None.

(** One entry of [normalized]:
    [(pixel / 255.0 * (len(ASCII_CHARS) - 1))] truncated by [astype(int)]. *)
Definition normalized (pixel : Z) : Z :=
  py_int (inject_Z pixel / 255
          * inject_Z (Z.of_nat (String.length ASCII_CHARS) - 1)).

(** [''.join(ASCII_CHARS[pixel] for pixel in row)] *)
Fixpoint ascii_row (row : list Z) : option string :=
  match row with
  | [] => Some EmptyString
  | pixel :: rest =>
      match str_index ASCII_CHARS (normalized pixel), ascii_row rest with
      | Some c, Some s => Some (String c s)
      | _, _ => None
      end
  end.

Fixpoint ascii_rows (pixels : list (list Z)) : option (list string) :=
  match pixels with
  | [] => Some []
  | row :: rest =>
      match ascii_row row, ascii_rows rest with
      | Some r, Some rs => Some (r :: rs)
      | _, _ => None
      end
  end.

(** [frame_to_ascii] from the array [pixels] that PIL returned on: the
    normalisation, the rows and their join by newlines. *)
Definition ascii_art (pixels : list (list Z)) : option string :=
  option_map (String.concat (String (Ascii.ascii_of_nat 10) EmptyString))
    (ascii_rows pixels).
End Render.

(** ** bot/main.py: class DoomBot *)

Module DoomBot.
(** [class DoomSession]: the three attributes set to [None] hold nothing
    else anywhere in the file. *)
Record DoomSession : Type := mkSession
  { user_id : Z;
    game_state : option GameState.t;
    current_message : option Z;
    ascii_frame : option string }.

(** [DoomSession(user_id)] *)
Definition new_session (uid : Z) : DoomSession :=
  {| user_id := uid; game_state := None; current_message := None;
     ascii_frame := None |}.

Record t : Type := mk { active_sessions : Dict.t DoomSession }.

(** [DoomBot()] as far as the sessions go. *)
Definition new : t := {| active_sessions := [] |}.

Definition ALREADY_ACTIVE : string :=
  "You already have an active game session!".
Definition STARTING : string := "Starting DOOM... Get ready!".

(** [start_game(ctx)] for [ctx.author.id = author_id]: the bot after the
    call and what [ctx.send] was given. *)
Definition start_game (author_id : Z) (self : t) : t * list string :=
  if Dict.contains author_id (active_sessions self)
  then (self, [ALREADY_ACTIVE])
  else
    let session := new_session author_id in
    ({| active_sessions := Dict.set author_id session (active_sessions self) |},
     [STARTING]).
End DoomBot.

(** ** Predicates used in the statements and their proofs *)

(** Timestamps at least MESSAGE_RATE_LIMIT apart, the first one at least
    that much after [lo]. *)
Fixpoint spaced (lo : Q) (ts : list Q) : Prop :=
  match ts with
  | [] => True
  | t0 :: ts' => (lo + Settings.MESSAGE_RATE_LIMIT <= t0)%Q /\ spaced t0 ts'
  end.

(** What a run that keeps the discipline maintains, from a limiter whose
    [last_update] is [lo]. *)
Definition run_inv (lo : Q) (s : RateLimiter.run_state) : Prop :=
  RateLimiter.disciplined s = true ->
  spaced lo (RateLimiter.recorded s)
  /\ RateLimiter.last_update (RateLimiter.limiter s) =
       last (RateLimiter.recorded s) lo
  /\ (forall now, RateLimiter.permit s = Some now ->
        (RateLimiter.last_update (RateLimiter.limiter s)
           + Settings.MESSAGE_RATE_LIMIT <= now)%Q).

(** What such a run maintains of the counter: it never passes the
    ceiling, and is below it right after a check that answered [True]. *)
Definition count_inv (s : RateLimiter.run_state) : Prop :=
  RateLimiter.disciplined s = true ->
  RateLimiter.update_count (RateLimiter.limiter s)
    <= Settings.MAX_UPDATES_PER_MINUTE
  /\ (forall now, RateLimiter.permit s = Some now ->
        RateLimiter.update_count (RateLimiter.limiter s)
          < Settings.MAX_UPDATES_PER_MINUTE).

(** [c] leaves the part [f] of [self] as it is, however it ends. *)
Definition keeps {St A X : Type} (f : St -> X) (c : M St A) : Prop :=
  forall s w, f (snd (fst (c s w))) = f s.

(** [c] adds nothing to the trace. *)
Definition silent {St A : Type} (c : M St A) : Prop :=
  forall s w, trace (snd (c s w)) = trace w.

(** Events of the sweep, and events of the update pass over the keys [ks]. *)
Definition sweep_event (ks : list Z) (e : Event) : Prop :=
  exists k, In k ks /\ (e = CallStop k \/ e = Remove k).

Definition pass_event (ks : list Z) (e : Event) : Prop :=
  (exists k, In k ks /\ e = CallUpdate k) \/ (exists q, e = Sleep q).

(** [c] leaves the world as it is: it reads no clock and records nothing. *)
Definition quiet {St A : Type} (c : M St A) : Prop :=
  forall s w, snd (c s w) = w.

(** What holds of every registry the manager builds: keys are unique, a
    session sits under its own user id, its engine is initialized and its
    [last_update] is the 0 of construction. *)
Definition entry_ok {G : Type} (kv : Z * GameSession.t G) : Prop :=
  GameSession.user_id (snd kv) = fst kv
  /\ DoomEngine.initialized (GameSession.engine (snd kv)) = true
  /\ GameSession.last_update (snd kv) = 0%Q.

Definition registered_ok {G : Type} (m : SessionManager.t G) : Prop :=
  Dict.wf (SessionManager.sessions m)
  /\ Forall entry_ok (SessionManager.sessions m).

(** The trace of an update pass that ran over the keys [ks]. *)
Definition pass_trace (ks : list Z) : list Event :=
  flat_map (fun k => [CallUpdate k; Sleep Settings.MESSAGE_RATE_LIMIT]) ks.

(** * Properties *)

(** ** Timestamps *)

Lemma Qltb_true (a b : Q) : Qltb a b = true <-> (a < b)%Q.
Proof.
  unfold Qltb. rewrite negb_true_iff, <- not_true_iff_false, Qle_bool_iff.
  split; [apply Qnot_le_lt | apply Qlt_not_le].
Qed.

Lemma Qltb_false (a b : Q) : Qltb a b = false <-> (b <= a)%Q.
Proof.
  unfold Qltb. rewrite negb_false_iff. apply Qle_bool_iff.
Qed.

Lemma py_int_floor (x : Q) : (0 <= x)%Q -> py_int x = Qfloor x.
Proof.
  destruct x as [n d]. unfold Qle, py_int, Qfloor. simpl. intros H.
  apply Z.quot_div_nonneg; lia.
Qed.

Lemma py_int_ceiling (x : Q) : (x <= 0)%Q -> py_int x = Qceiling x.
Proof.
  destruct x as [n d]. unfold Qle, py_int, Qceiling, Qfloor. simpl. intros H.
  replace n with (- - n) at 1 by lia.
  rewrite Z.quot_opp_l by lia.
  rewrite Z.quot_div_nonneg by lia. reflexivity.
Qed.

Lemma py_int_mono (x y : Q) : (x <= y)%Q -> py_int x <= py_int y.
Proof.
  intros Hxy.
  destruct (Qlt_le_dec x 0) as [Hx | Hx].
  - rewrite (py_int_ceiling x) by lra.
    destruct (Qlt_le_dec y 0) as [Hy | Hy].
    + rewrite (py_int_ceiling y) by lra. now apply Qceiling_resp_le.
    + rewrite (py_int_floor y) by assumption.
      transitivity 0.
      * change 0 with (Qceiling 0). apply Qceiling_resp_le. lra.
      * change 0 with (Qfloor 0). now apply Qfloor_resp_le.
  - rewrite (py_int_floor x) by assumption.
    rewrite (py_int_floor y) by lra. now apply Qfloor_resp_le.
Qed.

Lemma bucket_of_mono (a b : Q) :
  (a <= b)%Q -> RateLimiter.bucket_of a <= RateLimiter.bucket_of b.
Proof.
  intros H. apply py_int_mono.
  unfold Qdiv. apply Qmult_le_compat_r; [assumption | easy].
Qed.

(** A non-negative timestamp lies in the 60 units of its bucket. *)
Lemma bucket_of_range (now : Q) (m : Z) :
  (0 <= now)%Q -> RateLimiter.bucket_of now = m ->
  (60 * inject_Z m <= now /\ now < 60 * inject_Z m + 60)%Q.
Proof.
  intros H0 Hm. unfold RateLimiter.bucket_of in Hm.
  assert (Hq : (0 <= now / 60)%Q).
  { unfold Qdiv. apply Qmult_le_0_compat; [assumption | easy]. }
  rewrite py_int_floor in Hm by assumption. subst m.
  pose proof (Qfloor_le (now / 60)) as Hlo.
  pose proof (Qlt_floor (now / 60)) as Hhi.
  rewrite inject_Z_plus in Hhi.
  set (f := inject_Z (Qfloor (now / 60))) in *.
  assert (Hd : (now / 60 == now * (1 # 60))%Q) by (unfold Qdiv; reflexivity).
  rewrite Hd in Hlo, Hhi. change (inject_Z 1) with 1%Q in Hhi.
  split; lra.
Qed.

(** ** Binary64 rounding *)

Lemma rne_Z (n : Z) : Float64.rne (inject_Z n) = n.
Proof.
  unfold Float64.rne. rewrite Qfloor_Z.
  destruct (Qcompare_spec (inject_Z n - inject_Z n) (1 # 2)) as [H | H | H].
  - exfalso. assert (inject_Z n - inject_Z n == 0)%Q by ring.
    rewrite H0 in H. discriminate.
  - reflexivity.
  - exfalso. assert (inject_Z n - inject_Z n == 0)%Q by ring.
    rewrite H0 in H. discriminate.
Qed.

Lemma rne_bounds (q : Q) : Qfloor q <= Float64.rne q <= Qfloor q + 1.
Proof.
  unfold Float64.rne. destruct (Qcompare _ _); [destruct (Z.even _) | |]; lia.
Qed.

Lemma rne_mono (p q : Q) : (p <= q)%Q -> Float64.rne p <= Float64.rne q.
Proof.
  intros Hpq.
  pose proof (Qfloor_resp_le _ _ Hpq) as Hf.
  pose proof (rne_bounds p) as Hp. pose proof (rne_bounds q) as Hq.
  destruct (Z.eq_dec (Qfloor p) (Qfloor q)) as [E | N]; [| lia].
  unfold Float64.rne in *. rewrite E in *.
  set (f := Qfloor q) in *.
  destruct (Qcompare_spec (p - inject_Z f) (1 # 2)) as [H1 | H1 | H1];
    destruct (Qcompare_spec (q - inject_Z f) (1 # 2)) as [H2 | H2 | H2];
    try destruct (Z.even f); try lia; exfalso; lra.
Qed.

Lemma pow2_pos (k : Z) : (0 < 2 ^ k)%Q.
Proof. apply Qpower_0_lt. reflexivity. Qed.

Lemma pow2_succ (k : Z) : (2 ^ (k + 1) == 2 * 2 ^ k)%Q.
Proof. rewrite Qpower_plus by discriminate. change (2 ^ 1)%Q with 2%Q. ring. Qed.

Lemma pow2_le (j k : Z) : j <= k -> (2 ^ j <= 2 ^ k)%Q.
Proof. intros H. apply Qpower_le_compat_l; [assumption | discriminate]. Qed.

Lemma pow2_Z (a : Z) : 0 <= a -> (inject_Z (2 ^ a) == 2 ^ a)%Q.
Proof. intros H. now rewrite Zpower_Qpower. Qed.

(** [ilog2] is the binary exponent of a positive rational. *)
Lemma ilog2_spec (x : Q) :
  (0 < x)%Q ->
  (2 ^ Float64.ilog2 x <= x /\ x < 2 ^ (Float64.ilog2 x + 1))%Q.
Proof.
  intros Hx. destruct x as [n d]. unfold Float64.ilog2. simpl Qnum. simpl Qden.
  assert (Hn : 0 < n) by (unfold Qlt in Hx; simpl in Hx; lia).
  pose proof (Z.log2_spec n Hn) as [Ha1 Ha2].
  pose proof (Z.log2_spec (Zpos d) (Pos2Z.is_pos d)) as [Hb1 Hb2].
  pose proof (Z.log2_nonneg n) as Ha0.
  pose proof (Z.log2_nonneg (Zpos d)) as Hb0.
  set (a := Z.log2 n) in *. set (b := Z.log2 (Zpos d)) in *.
  assert (HA1 : (2 ^ a <= inject_Z n)%Q).
  { rewrite <- pow2_Z by assumption. now rewrite <- Zle_Qle. }
  assert (HA2 : (inject_Z n < 2 * 2 ^ a)%Q).
  { rewrite <- pow2_succ, <- pow2_Z by lia. rewrite <- Zlt_Qlt.
    now rewrite <- Z.add_1_r in Ha2. }
  assert (HB1 : (2 ^ b <= inject_Z (Zpos d))%Q).
  { rewrite <- pow2_Z by assumption. now rewrite <- Zle_Qle. }
  assert (HB2 : (inject_Z (Zpos d) < 2 * 2 ^ b)%Q).
  { rewrite <- pow2_succ, <- pow2_Z by lia. rewrite <- Zlt_Qlt.
    now rewrite <- Z.add_1_r in Hb2. }
  assert (Hk : (2 ^ a == 2 ^ (a - b) * 2 ^ b)%Q).
  { rewrite <- Qpower_plus by discriminate. now replace (a - b + b) with a by lia. }
  assert (Hx' : (n # d == inject_Z n / inject_Z (Zpos d))%Q) by apply Qmake_Qdiv.
  assert (Hd : (0 < inject_Z (Zpos d))%Q) by reflexivity.
  pose proof (pow2_pos a) as Pa. pose proof (pow2_pos b) as Pb.
  pose proof (pow2_pos (a - b)) as Pk.
  destruct (Qle_bool (2 ^ (a - b)) (n # d)) eqn:E.
  - apply Qle_bool_iff in E. split; [exact E |].
    rewrite pow2_succ, Hx'. apply Qlt_shift_div_r; [assumption |].
    apply Qlt_le_trans with (2 * 2 ^ a)%Q; [assumption |].
    rewrite Hk. 
    setoid_replace (2 * (2 ^ (a - b) * 2 ^ b))%Q with (2 * 2 ^ (a - b) * 2 ^ b)%Q by ring.
    apply Qmult_le_l; [| assumption]. lra.
  - assert (E' : (n # d < 2 ^ (a - b))%Q).
    { apply Qnot_le_lt. intros H. apply Qle_bool_iff in H. congruence. }
    replace (a - b - 1 + 1) with (a - b) by lia. split; [| exact E'].
    rewrite Hx'. apply Qle_shift_div_l; [assumption |].
    assert (H2 : (2 ^ (a - b) == 2 * 2 ^ (a - b - 1))%Q).
    { rewrite <- pow2_succ. now replace (a - b - 1 + 1) with (a - b) by lia. }
    pose proof (pow2_pos (a - b - 1)) as Pk'.
    apply Qle_trans with (2 ^ a)%Q; [| assumption].
    rewrite Hk, H2.
    setoid_replace (2 * 2 ^ (a - b - 1) * 2 ^ b)%Q with (2 ^ (a - b - 1) * (2 * 2 ^ b))%Q by ring.
    apply Qmult_le_l; [assumption |]. lra.
Qed.

Lemma Qabs_pos_eq (x : Q) : (0 < x)%Q -> Qabs x = x.
Proof.
  destruct x as [n d]. unfold Qlt, Qabs. simpl. intros H.
  f_equal. lia.
Qed.

Lemma Qeq_bool_pos (x : Q) : (0 < x)%Q -> Qeq_bool x 0 = false.
Proof.
  intros H. destruct (Qeq_bool x 0) eqn:E; [| reflexivity].
  apply Qeq_bool_iff in E. rewrite E in H. discriminate.
Qed.

Lemma round_pos_eq (x : Q) :
  (0 < x)%Q ->
  Float64.round x =
  (inject_Z (Float64.rne (x / 2 ^ Float64.ulp_exp x))
   * 2 ^ Float64.ulp_exp x)%Q.
Proof. intros H. unfold Float64.round. now rewrite Qeq_bool_pos. Qed.

Lemma rne_nonneg (q : Q) : (0 <= q)%Q -> 0 <= Float64.rne q.
Proof.
  intros H. rewrite <- (rne_Z 0). now apply rne_mono.
Qed.

Lemma round_nonneg (x : Q) : (0 <= x)%Q -> (0 <= Float64.round x)%Q.
Proof.
  intros H. unfold Float64.round. destruct (Qeq_bool x 0); [discriminate |].
  pose proof (pow2_pos (Float64.ulp_exp x)) as Hp.
  apply Qmult_le_0_compat; [| lra].
  change 0%Q with (inject_Z 0). rewrite <- Zle_Qle. apply rne_nonneg.
  apply Qle_shift_div_l; [assumption |]. now rewrite Qmult_0_l.
Qed.

Lemma round_nonpos (x : Q) : (x <= 0)%Q -> (Float64.round x <= 0)%Q.
Proof.
  intros H. unfold Float64.round. destruct (Qeq_bool x 0); [discriminate |].
  pose proof (pow2_pos (Float64.ulp_exp x)) as Hp.
  assert (Hr : Float64.rne (x / 2 ^ Float64.ulp_exp x) <= 0).
  { rewrite <- (rne_Z 0). apply rne_mono.
    apply Qle_shift_div_r; [assumption |]. now rewrite Qmult_0_l. }
  rewrite Zle_Qle in Hr. change (inject_Z 0) with 0%Q in Hr.
  set (m := inject_Z _) in *. nra.
Qed.

Lemma ulp_exp_pos (x : Q) :
  (0 < x)%Q ->
  Float64.ulp_exp x = Z.max (Float64.ilog2 x - 52) (-1074).
Proof. intros H. unfold Float64.ulp_exp. now rewrite Qabs_pos_eq. Qed.

(** A positive [x] is below [2 ^ (ulp_exp x + 53)]. *)
Lemma below_binade (x : Q) :
  (0 < x)%Q -> (x < 2 ^ (Float64.ulp_exp x + 53))%Q.
Proof.
  intros H. destruct (ilog2_spec x H) as [_ Hhi].
  apply Qlt_le_trans with (1 := Hhi). apply pow2_le.
  rewrite ulp_exp_pos by assumption. lia.
Qed.

Lemma ilog2_mono (x y : Q) :
  (0 < x)%Q -> (x <= y)%Q -> Float64.ilog2 x <= Float64.ilog2 y.
Proof.
  intros Hx Hxy. assert (Hy : (0 < y)%Q) by lra.
  destruct (ilog2_spec x Hx) as [Hlo _].
  destruct (ilog2_spec y Hy) as [_ Hhi].
  assert (H : (2 ^ Float64.ilog2 x < 2 ^ (Float64.ilog2 y + 1))%Q) by lra.
  apply Qpower_lt_compat_l_inv in H; [lia | reflexivity].
Qed.

(** Rounding is monotone on the positive rationals. *)
Lemma round_mono_pos (x y : Q) :
  (0 < x)%Q -> (x <= y)%Q -> (Float64.round x <= Float64.round y)%Q.
Proof.
  intros Hx Hxy. assert (Hy : (0 < y)%Q) by lra.
  rewrite (round_pos_eq x Hx), (round_pos_eq y Hy).
  pose proof (ilog2_mono x y Hx Hxy) as He.
  pose proof (ulp_exp_pos x Hx) as Hsx. pose proof (ulp_exp_pos y Hy) as Hsy.
  pose proof (below_binade x Hx) as Hbx.
  set (sx := Float64.ulp_exp x) in *. set (sy := Float64.ulp_exp y) in *.
  pose proof (pow2_pos sx) as Px. pose proof (pow2_pos sy) as Py.
  destruct (Z.eq_dec sx sy) as [E | N].
  - rewrite <- E. apply Qmult_le_compat_r; [| lra].
    rewrite <- Zle_Qle. apply rne_mono.
    apply Qmult_le_compat_r; [assumption |].
    apply Qinv_le_0_compat. lra.
  - assert (Hlt : sx < sy) by lia.
    assert (Hsy' : sy = Float64.ilog2 y - 52) by lia.
    apply Qle_trans with (2 ^ (sx + 53))%Q.
    + rewrite Qpower_plus by discriminate.
      rewrite (Qmult_comm (2 ^ sx)).
      apply Qmult_le_compat_r; [| lra].
      rewrite <- (pow2_Z 53) by lia. rewrite <- Zle_Qle.
      rewrite <- (rne_Z (2 ^ 53)). apply rne_mono.
      apply Qle_shift_div_r; [assumption |].
      rewrite (pow2_Z 53) by lia. rewrite <- Qpower_plus by discriminate.
      rewrite Z.add_comm. lra.
    + apply Qle_trans with (2 ^ (sy + 52))%Q; [apply pow2_le; lia |].
      rewrite Qpower_plus by discriminate.
      rewrite (Qmult_comm (2 ^ sy)).
      apply Qmult_le_compat_r; [| lra].
      rewrite <- (pow2_Z 52) by lia. rewrite <- Zle_Qle.
      rewrite <- (rne_Z (2 ^ 52)). apply rne_mono.
      apply Qle_shift_div_l; [assumption |].
      rewrite (pow2_Z 52) by lia. rewrite <- Qpower_plus by discriminate.
      destruct (ilog2_spec y Hy) as [Hlo _].
      replace (52 + sy) with (Float64.ilog2 y) by lia. exact Hlo.
Qed.

(** Rounding is monotone wherever the larger argument is not negative. *)
Lemma round_le (x y : Q) :
  (x <= y)%Q -> (0 <= y)%Q -> (Float64.round x <= Float64.round y)%Q.
Proof.
  intros Hxy Hy.
  destruct (Qlt_le_dec 0 x) as [Hx | Hx].
  - now apply round_mono_pos.
  - apply Qle_trans with 0%Q; [now apply round_nonpos | now apply round_nonneg].
Qed.

(** Integers below [2 ^ 53] are doubles. *)
Lemma round_Z (n : Z) :
  0 <= n < 2 ^ 53 -> (Float64.round (inject_Z n) == inject_Z n)%Q.
Proof.
  intros Hn. destruct (Z.eq_dec n 0) as [-> | Hne]; [reflexivity |].
  assert (Hpos : (0 < inject_Z n)%Q).
  { change 0%Q with (inject_Z 0). rewrite <- Zlt_Qlt. lia. }
  rewrite (round_pos_eq _ Hpos).
  pose proof (ulp_exp_pos _ Hpos) as Hs.
  destruct (ilog2_spec _ Hpos) as [Hlo _].
  assert (He : Float64.ilog2 (inject_Z n) < 53).
  { assert (H : (2 ^ Float64.ilog2 (inject_Z n) < 2 ^ 53)%Q).
    { apply Qle_lt_trans with (1 := Hlo).
      rewrite <- (pow2_Z 53) by lia. rewrite <- Zlt_Qlt. lia. }
    apply Qpower_lt_compat_l_inv in H; [lia | reflexivity]. }
  set (s := Float64.ulp_exp (inject_Z n)) in *.
  assert (Hs0 : s <= 0) by lia.
  assert (Hinv : (2 ^ s * 2 ^ (- s) == 1)%Q).
  { rewrite <- Qpower_plus by discriminate.
    now replace (s + - s) with 0 by lia. }
  pose proof (pow2_pos s) as Ps.
  assert (Hq : (inject_Z n / 2 ^ s == inject_Z (n * 2 ^ (- s)))%Q).
  { rewrite inject_Z_mult, pow2_Z by lia.
    apply Qmult_inj_r with (2 ^ s)%Q; [lra |].
    unfold Qdiv. rewrite <- !Qmult_assoc.
    rewrite (Qmult_comm (/ 2 ^ s)), Qmult_inv_r by lra.
    rewrite (Qmult_comm (2 ^ (- s))), Hinv. ring. }
  assert (Hr : Float64.rne (inject_Z n / 2 ^ s) = n * 2 ^ (- s)).
  { apply Z.le_antisymm.
    - rewrite <- (rne_Z (n * 2 ^ (- s))). apply rne_mono. rewrite Hq. lra.
    - rewrite <- (rne_Z (n * 2 ^ (- s))) at 1. apply rne_mono. rewrite Hq. lra. }
  rewrite Hr, inject_Z_mult, pow2_Z by lia.
  rewrite <- Qmult_assoc, (Qmult_comm (2 ^ (- s))), Hinv. ring.
Qed.

(** The two limits of the code and the floats right below them. *)
Lemma round_below_message_limit :
  (Float64.round (Settings.MESSAGE_RATE_LIMIT - (1 # 2) ^ 53)
     < Settings.MESSAGE_RATE_LIMIT)%Q.
Proof. vm_compute. reflexivity. Qed.

Lemma round_below_reaction_limit :
  (Float64.round (Settings.REACTION_RATE_LIMIT - (1 # 2) ^ 55)
     < Settings.REACTION_RATE_LIMIT)%Q.
Proof. vm_compute. reflexivity. Qed.

(** A difference that stays a last place below a limit rounds below it. *)
Lemma sub_below (a b limit gap : Q) :
  (a - b <= limit - gap)%Q -> (0 <= limit - gap)%Q ->
  (Float64.round (limit - gap) < limit)%Q ->
  (Float64.sub a b < limit)%Q.
Proof.
  intros Hd H0 Hr. unfold Float64.sub.
  apply Qle_lt_trans with (2 := Hr). now apply round_le.
Qed.

(** [Float64] against the standard library's specification of binary64,
    at the operations and arguments met below: [1.0 - 2 ** -60],
    [0.25 - 2 ** -60], [1 / 49 * 49] and [1 / 10]. *)
Example float64_agrees_with_spec :
  option_map Qred
    (Float64.of_spec
       (SpecFloat.SFsub 53 1024 (Float64.spec 1 0) (Float64.spec 1 (-60))))
  = Some (Qred (Float64.sub 1 ((1 # 2) ^ 60)))
  /\ option_map Qred
       (Float64.of_spec
          (SpecFloat.SFsub 53 1024 (Float64.spec 1 (-2))
             (Float64.spec 1 (-60))))
     = Some (Qred (Float64.sub (1 # 4) ((1 # 2) ^ 60)))
  /\ option_map Qred
       (Float64.of_spec
          (SpecFloat.SFmul 53 1024
             (SpecFloat.SFdiv 53 1024 (Float64.spec 1 0) (Float64.spec 49 0))
             (Float64.spec 49 0)))
     = Some (Qred (Float64.mul (Float64.div 1 49) 49))
  /\ option_map Qred
       (Float64.of_spec
          (SpecFloat.SFdiv 53 1024 (Float64.spec 1 0) (Float64.spec 10 0)))
     = Some (Qred (Float64.div 1 10)).
Proof. vm_compute. repeat split. Qed.

(** ** RateLimiter *)

Lemma roll_last_update (now : Q) (r : RateLimiter.t) :
  RateLimiter.last_update (RateLimiter.roll now r) = RateLimiter.last_update r.
Proof. unfold RateLimiter.roll. now destruct (_ >? _). Qed.

Lemma can_update_state (now : Q) (r : RateLimiter.t) :
  snd (RateLimiter.can_update now r) = RateLimiter.roll now r.
Proof.
  unfold RateLimiter.can_update.
  destruct (_ >=? _); [reflexivity |]. now destruct (Qltb _ _).
Qed.

Lemma can_update_last_update (now : Q) (r : RateLimiter.t) :
  RateLimiter.last_update (snd (RateLimiter.can_update now r)) =
  RateLimiter.last_update r.
Proof. rewrite can_update_state. apply roll_last_update. Qed.

Lemma can_update_true (now : Q) (r : RateLimiter.t) :
  fst (RateLimiter.can_update now r) = true ->
  RateLimiter.update_count (RateLimiter.roll now r)
    < Settings.MAX_UPDATES_PER_MINUTE /\
  (RateLimiter.last_update r + Settings.MESSAGE_RATE_LIMIT <= now)%Q.
Proof.
  unfold RateLimiter.can_update.
  destruct (_ >=? _) eqn:Hc; [discriminate |].
  destruct (Qltb _ _) eqn:Hq; [discriminate |]. intros _.
  apply Qltb_false in Hq. rewrite roll_last_update in Hq.
  split; [lia | lra].
Qed.

Lemma roll_last_minute_ge (now : Q) (r : RateLimiter.t) :
  RateLimiter.last_minute r <= RateLimiter.last_minute (RateLimiter.roll now r)
  /\ RateLimiter.bucket_of now
     <= RateLimiter.last_minute (RateLimiter.roll now r).
Proof.
  unfold RateLimiter.roll, RateLimiter.bucket_of.
  destruct (_ >? _) eqn:H; simpl; lia.
Qed.

Lemma roll_same_bucket (now : Q) (r : RateLimiter.t) :
  RateLimiter.bucket_of now <= RateLimiter.last_minute r ->
  RateLimiter.roll now r = r.
Proof.
  unfold RateLimiter.roll, RateLimiter.bucket_of. intros H.
  destruct (_ >? _) eqn:E; [lia | reflexivity].
Qed.

(** C4, as the specification states it, fails: a check made in a later
    minute than the tracked one resets the count and moves the marker. *)
Lemma can_update_not_pure :
  let r := {| RateLimiter.last_update := 5;
              RateLimiter.update_count := 5;
              RateLimiter.last_minute := 0 |} in
  RateLimiter.can_update 60 r =
    (true, {| RateLimiter.last_update := 5;
              RateLimiter.update_count := 0;
              RateLimiter.last_minute := 1 |})
  /\ snd (RateLimiter.can_update 60 r) <> r.
Proof. split; [reflexivity | discriminate]. Qed.

(** C4 (amended): [can_update] never writes [last_update]; it leaves the
    limiter as it is unless the minute of the current time is later than
    [last_minute], and then it sets [update_count] to zero and
    [last_minute] to that minute.  [record_update] never writes
    [last_minute]. *)
Theorem can_update_frame (now : Q) (r : RateLimiter.t) :
  RateLimiter.last_update (snd (RateLimiter.can_update now r)) =
    RateLimiter.last_update r
  /\ snd (RateLimiter.can_update now r) =
       (if RateLimiter.last_minute r <? RateLimiter.bucket_of now
        then {| RateLimiter.last_update := RateLimiter.last_update r;
                RateLimiter.update_count := 0;
                RateLimiter.last_minute := RateLimiter.bucket_of now |}
        else r)
  /\ RateLimiter.last_minute (RateLimiter.record_update now r) =
       RateLimiter.last_minute r.
Proof.
  split; [apply can_update_last_update |]. split; [| reflexivity].
  rewrite can_update_state. unfold RateLimiter.roll, RateLimiter.bucket_of.
  rewrite Z.gtb_ltb. reflexivity.
Qed.

(** C5, as the specification states it, fails: a [record_update] in a later
    minute keeps counting in the old bucket. *)
Lemma record_update_no_rollover :
  let r := {| RateLimiter.last_update := 1;
              RateLimiter.update_count := 1;
              RateLimiter.last_minute := 0 |} in
  RateLimiter.record_update 120 r =
    {| RateLimiter.last_update := 120;
       RateLimiter.update_count := 2;
       RateLimiter.last_minute := 0 |}
  /\ RateLimiter.spec_record_update 120 r =
    {| RateLimiter.last_update := 120;
       RateLimiter.update_count := 1;
       RateLimiter.last_minute := 2 |}
  /\ RateLimiter.record_update 120 r <> RateLimiter.spec_record_update 120 r.
Proof. repeat split; discriminate. Qed.

(** C5 (amended): [record_update] sets [last_update] to the current time and
    adds one to [update_count], and leaves [last_minute] alone; the rollover
    is done by [can_update], so that the stamping with rollover of the
    specification is [can_update] followed by [record_update] at the same
    time. *)
Theorem record_update_effect (now : Q) (r : RateLimiter.t) :
  RateLimiter.last_update (RateLimiter.record_update now r) = now
  /\ RateLimiter.update_count (RateLimiter.record_update now r) =
       RateLimiter.update_count r + 1
  /\ RateLimiter.last_minute (RateLimiter.record_update now r) =
       RateLimiter.last_minute r
  /\ RateLimiter.spec_record_update now r =
       RateLimiter.record_update now (snd (RateLimiter.can_update now r)).
Proof.
  repeat split. rewrite can_update_state.
  unfold RateLimiter.spec_record_update, RateLimiter.record_update,
    RateLimiter.roll.
  now destruct (_ >? _).
Qed.

(** Checks made after a record do not move [last_update]. *)
Lemma checks_last_update (checks : list Q) (r : RateLimiter.t) :
  RateLimiter.last_update
    (fold_left (fun r0 now => snd (RateLimiter.can_update now r0)) checks r) =
  RateLimiter.last_update r.
Proof.
  revert r. induction checks as [| c cs IH]; intros r; simpl.
  - reflexivity.
  - rewrite IH. apply can_update_last_update.
Qed.

(** The same of the rounded checks. *)
Lemma can_update64_last_update (now : Q) (r : RateLimiter.t) :
  RateLimiter.last_update (snd (RateLimiter64.can_update now r)) =
  RateLimiter.last_update r.
Proof.
  unfold RateLimiter64.can_update. cbv zeta.
  repeat match goal with
         | |- context [if ?b then _ else _] => destruct b
         end; reflexivity.
Qed.

Lemma checks64_last_update (checks : list Q) (r : RateLimiter.t) :
  RateLimiter.last_update
    (fold_left (fun r0 now => snd (RateLimiter64.can_update now r0)) checks r) =
  RateLimiter.last_update r.
Proof.
  revert r. induction checks as [| c cs IH]; intros r; simpl.
  - reflexivity.
  - rewrite IH. apply can_update64_last_update.
Qed.

(** A rounded check answers [True] only when the rounded difference has
    reached the limit. *)
Lemma can_update64_true (now : Q) (r : RateLimiter.t) :
  fst (RateLimiter64.can_update now r) = true ->
  (Settings.MESSAGE_RATE_LIMIT
     <= Float64.sub now (RateLimiter.last_update r))%Q.
Proof.
  unfold RateLimiter64.can_update. cbv zeta.
  destruct (_ >? _);
    cbn [RateLimiter.last_update RateLimiter.update_count];
    (destruct (_ >=? _); [discriminate |]);
    (destruct (Qltb _ _) eqn:Hq; [discriminate |]);
    intros _; now apply Qltb_false in Hq.
Qed.

(** C7, as the specification states it, fails on floats: [2 ** -60] and
    [1.0] are floats less than MESSAGE_RATE_LIMIT apart, and the check at
    [1.0] after a record at [2 ** -60] answers [True], because
    [1.0 - 2 ** -60] is [1.0]; on exact rationals the same check answers
    [False]. *)
Lemma can_update_rounds_to_limit :
  let now1 := ((1 # 2) ^ 60)%Q in
  let now2 := 1%Q in
  (Float64.round now1 == now1)%Q
  /\ (Float64.round now2 == now2)%Q
  /\ (now1 < now2)%Q
  /\ (now2 - now1 < Settings.MESSAGE_RATE_LIMIT)%Q
  /\ (Float64.sub now2 now1 == Settings.MESSAGE_RATE_LIMIT)%Q
  /\ fst (RateLimiter64.can_update now2
            (RateLimiter.record_update now1 RateLimiter.init)) = true
  /\ fst (RateLimiter.can_update now2
            (RateLimiter.record_update now1 RateLimiter.init)) = false.
Proof. vm_compute. repeat split. Qed.

(** C7 (amended): after [record_update] at [now1], every [can_update] at a
    time [now2 > now1] for which the float difference [now2 - now1] is less
    than MESSAGE_RATE_LIMIT answers [False], also when other checks were
    made in between; the float difference is below the limit whenever the
    exact one is at most [MESSAGE_RATE_LIMIT - 2 ** -53], the greatest
    float below the limit. *)
Theorem can_update_min_interval
  (r : RateLimiter.t) (checks : list Q) (now1 now2 : Q) :
  (now1 < now2)%Q ->
  (Float64.sub now2 now1 < Settings.MESSAGE_RATE_LIMIT)%Q
  \/ (now2 - now1 <= Settings.MESSAGE_RATE_LIMIT - (1 # 2) ^ 53)%Q ->
  fst (RateLimiter64.can_update now2
         (fold_left (fun r0 now => snd (RateLimiter64.can_update now r0))
            checks (RateLimiter.record_update now1 r))) = false.
Proof.
  intros _ Hclose.
  assert (Hlt : (Float64.sub now2 now1 < Settings.MESSAGE_RATE_LIMIT)%Q).
  { destruct Hclose as [H | H]; [exact H |].
    apply (sub_below _ _ _ _ H); [vm_compute; discriminate |].
    apply round_below_message_limit. }
  destruct (fst _) eqn:Hv; [| reflexivity].
  apply can_update64_true in Hv.
  rewrite checks64_last_update in Hv. simpl in Hv. lra.
Qed.

Lemma can_update_min_interval_witness :
  fst (RateLimiter64.can_update (21 # 2)
         (fold_left (fun r0 now => snd (RateLimiter64.can_update now r0))
            [(41 # 4)%Q] (RateLimiter.record_update 10 RateLimiter.init)))
  = false
  /\ fst (RateLimiter64.can_update (11 - (1 # 2) ^ 49)
            (fold_left (fun r0 now => snd (RateLimiter64.can_update now r0))
               [] (RateLimiter.record_update 10 RateLimiter.init)))
     = false.
Proof.
  split.
  - apply (can_update_min_interval RateLimiter.init [(41 # 4)%Q] 10 (21 # 2));
      [reflexivity |].
    left. vm_compute. reflexivity.
  - apply (can_update_min_interval RateLimiter.init [] 10 (11 - (1 # 2) ^ 49));
      [vm_compute; reflexivity |].
    right. vm_compute. discriminate.
Defined.

(** *** Updates per bucket *)

Lemma spaced_weaken (lo lo' : Q) (ts : list Q) :
  (lo' <= lo)%Q -> spaced lo ts -> spaced lo' ts.
Proof.
  destruct ts as [| t0 ts]; simpl; [easy |].
  intros Hle [H1 H2]. split; [lra | assumption].
Qed.

Lemma last_cons_default (a d d' : Q) (ts : list Q) :
  last (a :: ts) d = last (a :: ts) d'.
Proof.
  revert a. induction ts as [| b ts IH]; intros a; [reflexivity |].
  change (last (b :: ts) d = last (b :: ts) d'). apply IH.
Qed.

Lemma spaced_app (lo : Q) (ts : list Q) (now : Q) :
  spaced lo ts -> (last ts lo + Settings.MESSAGE_RATE_LIMIT <= now)%Q ->
  spaced lo (ts ++ [now]).
Proof.
  revert lo. induction ts as [| t0 ts IH]; intros lo; simpl.
  - intros _ H. split; [assumption | exact I].
  - intros [H1 H2] H3. split; [assumption |].
    apply IH; [assumption |].
    destruct ts as [| t1 ts]; [assumption |].
    change (last (t0 :: t1 :: ts) lo) with (last (t1 :: ts) lo) in H3.
    now rewrite (last_cons_default t1 t0 lo).
Qed.

Lemma spaced_filter (f : Q -> bool) (lo : Q) (ts : list Q) :
  spaced lo ts -> spaced lo (filter f ts).
Proof.
  revert lo. induction ts as [| t0 ts IH]; intros lo; simpl; [easy |].
  intros [H1 H2]. destruct (f t0); simpl.
  - split; [assumption | now apply IH].
  - apply IH. apply (spaced_weaken t0); [| assumption].
    unfold Settings.MESSAGE_RATE_LIMIT in H1. lra.
Qed.

Lemma spaced_lower (lo : Q) (ts : list Q) :
  spaced lo ts -> Forall (fun t0 => (lo + 1 <= t0)%Q) ts.
Proof.
  revert lo. induction ts as [| t0 ts IH]; intros lo; simpl; [constructor |].
  intros [H1 H2]. unfold Settings.MESSAGE_RATE_LIMIT in H1.
  constructor; [assumption |].
  apply IH in H2. revert H2. apply Forall_impl. intros a Ha. lra.
Qed.

(** [n] spaced timestamps after [lo] and before [hi] need [n] time units. *)
Lemma spaced_count (lo hi : Q) (ts : list Q) :
  ts <> [] -> spaced lo ts -> Forall (fun t0 => (t0 < hi)%Q) ts ->
  (lo + inject_Z (Z.of_nat (List.length ts)) < hi)%Q.
Proof.
  revert lo. induction ts as [| t0 ts IH]; intros lo Hne; [easy |].
  simpl spaced. intros [H1 H2] Hhi. inversion Hhi as [| ? ? Ht0 Hrest]; subst.
  unfold Settings.MESSAGE_RATE_LIMIT in H1.
  change (List.length (t0 :: ts)) with (S (List.length ts)).
  rewrite Nat2Z.inj_succ, <- Z.add_1_r, inject_Z_plus.
  change (inject_Z 1) with 1%Q.
  destruct ts as [| t1 ts].
  - simpl. change (inject_Z 0) with 0%Q. lra.
  - specialize (IH t0 ltac:(discriminate) H2 Hrest). lra.
Qed.

Lemma run_inv_start (r : RateLimiter.t) :
  run_inv (RateLimiter.last_update r) (RateLimiter.start_run r).
Proof. intros _. simpl. repeat split. discriminate. Qed.

Lemma run_inv_step (lo : Q) (s : RateLimiter.run_state) (c : RateLimiter.call) :
  run_inv lo s -> run_inv lo (RateLimiter.step s c).
Proof.
  intros Hinv. destruct c as [now | now]; unfold run_inv; simpl.
  - destruct (RateLimiter.can_update now (RateLimiter.limiter s))
      as [ok r] eqn:Hcu. simpl.
    intros Hd. destruct (Hinv Hd) as (Hsp & Hlast & _).
    pose proof (can_update_last_update now (RateLimiter.limiter s)) as Hlu.
    rewrite Hcu in Hlu. simpl in Hlu.
    repeat split; [assumption | congruence |].
    intros now' Hp. destruct ok; [| discriminate].
    injection Hp as <-. rewrite Hlu.
    apply (can_update_true now). now rewrite Hcu.
  - intros Hd. apply andb_true_iff in Hd. destruct Hd as [Hd Hp].
    destruct (Hinv Hd) as (Hsp & Hlast & Hperm).
    destruct (RateLimiter.permit s) as [t0 |] eqn:Hpm; [| discriminate].
    simpl in Hp. apply Qeq_bool_iff in Hp.
    specialize (Hperm t0 eq_refl). rewrite Hlast in Hperm.
    repeat split.
    + apply spaced_app; [assumption | lra].
    + now rewrite last_last.
    + discriminate.
Qed.

Lemma run_inv_run (lo : Q) (cs : list RateLimiter.call)
  (s : RateLimiter.run_state) :
  run_inv lo s -> run_inv lo (RateLimiter.run cs s).
Proof.
  revert s. unfold RateLimiter.run.
  induction cs as [| c cs IH]; intros s H; simpl; [assumption |].
  apply IH. now apply run_inv_step.
Qed.

(** Spaced timestamps after a non-negative time: at most
    MAX_UPDATES_PER_MINUTE of them fall in one bucket. *)
Lemma spaced_bucket_bound (lo : Q) (ts : list Q) (m : Z) :
  (0 <= lo)%Q -> spaced lo ts ->
  Z.of_nat (List.length (RateLimiter.recorded_in m ts))
    <= Settings.MAX_UPDATES_PER_MINUTE.
Proof.
  intros Hlo Hsp. unfold RateLimiter.recorded_in.
  set (f := fun now => RateLimiter.bucket_of now =? m).
  pose proof (spaced_filter f lo ts Hsp) as Hfs.
  assert (Hrange : Forall (fun t0 => (60 * inject_Z m <= t0
                                      /\ t0 < 60 * inject_Z m + 60)%Q)
                     (filter f ts)).
  { apply Forall_forall. intros t0 Hin. apply filter_In in Hin.
    destruct Hin as [Hin Hf]. unfold f in Hf. apply Z.eqb_eq in Hf.
    apply bucket_of_range; [| assumption].
    apply spaced_lower in Hsp. rewrite Forall_forall in Hsp.
    specialize (Hsp t0 Hin). simpl in Hsp. lra. }
  destruct (filter f ts) as [| t0 fl] eqn:Hfl; [simpl; easy |].
  assert (Hsp' : spaced (60 * inject_Z m - 1) (t0 :: fl)).
  { simpl in Hfs |- *. destruct Hfs as [_ Hfs]. split; [| assumption].
    inversion Hrange as [| ? ? [Ha _] _]; subst.
    unfold Settings.MESSAGE_RATE_LIMIT. lra. }
  assert (Hhi : Forall (fun t1 => (t1 < 60 * inject_Z m + 60)%Q) (t0 :: fl)).
  { revert Hrange. apply Forall_impl. now intros a [_ Ha]. }
  pose proof (spaced_count _ _ (t0 :: fl) ltac:(discriminate) Hsp' Hhi) as Hc.
  assert (Hlt : (inject_Z (Z.of_nat (List.length (t0 :: fl))) < inject_Z 61)%Q).
  { change (inject_Z 61) with 61%Q. lra. }
  rewrite <- Zlt_Qlt in Hlt. unfold Settings.MAX_UPDATES_PER_MINUTE. lia.
Qed.

Lemma count_inv_step (s : RateLimiter.run_state) (c : RateLimiter.call) :
  count_inv s -> count_inv (RateLimiter.step s c).
Proof.
  intros Hinv. destruct c as [now | now]; unfold count_inv; simpl.
  - destruct (RateLimiter.can_update now (RateLimiter.limiter s))
      as [ok r] eqn:Hcu. simpl.
    intros Hd. destruct (Hinv Hd) as [Hle _].
    pose proof (can_update_state now (RateLimiter.limiter s)) as Hst.
    rewrite Hcu in Hst. simpl in Hst. subst r.
    split.
    + unfold RateLimiter.roll. destruct (_ >? _); simpl; [easy | assumption].
    + intros now' Hp. destruct ok; [| discriminate].
      apply (can_update_true now). now rewrite Hcu.
  - intros Hd. apply andb_true_iff in Hd. destruct Hd as [Hd Hp].
    destruct (Hinv Hd) as [_ Hperm].
    destruct (RateLimiter.permit s) as [t0 |] eqn:Hpm; [| discriminate].
    specialize (Hperm t0 eq_refl). split; [lia | discriminate].
Qed.

Lemma count_inv_run (cs : list RateLimiter.call) (s : RateLimiter.run_state) :
  count_inv s -> count_inv (RateLimiter.run cs s).
Proof.
  revert s. unfold RateLimiter.run.
  induction cs as [| c cs IH]; intros s H; simpl; [assumption |].
  apply IH. now apply count_inv_step.
Qed.

Lemma pairs_S (n : nat) (t0 : Q) (r : RateLimiter.t) :
  RateLimiter.pairs (S n) t0 r =
  (let (ok, r1) := RateLimiter.can_update t0 r in
   if ok
   then RateLimiter.pairs n (t0 + 1) (RateLimiter.record_update t0 r1)
   else None).
Proof. reflexivity. Qed.

(** Permitted pairs made while the tracked minute is not behind: each one
    adds one to the count and the marker stays. *)
Lemma pairs_same_bucket (n : nat) :
  forall (t0 tmax : Q) (r r' : RateLimiter.t),
    RateLimiter.pairs n t0 r = Some r' ->
    (t0 + inject_Z (Z.of_nat n) <= tmax + 1)%Q ->
    RateLimiter.bucket_of tmax <= RateLimiter.last_minute r ->
    RateLimiter.update_count r' = RateLimiter.update_count r + Z.of_nat n
    /\ RateLimiter.last_minute r' = RateLimiter.last_minute r.
Proof.
  induction n as [| n IH]; intros t0 tmax r r' Hp Hle Hb.
  - simpl in Hp. injection Hp as <-. simpl. split; [lia | reflexivity].
  - rewrite pairs_S in Hp.
    rewrite Nat2Z.inj_succ, <- Z.add_1_r, inject_Z_plus in Hle.
    change (inject_Z 1) with 1%Q in Hle.
    assert (Hn : (0 <= inject_Z (Z.of_nat n))%Q).
    { change 0%Q with (inject_Z 0). rewrite <- Zle_Qle. lia. }
    assert (Hroll : RateLimiter.roll t0 r = r).
    { apply roll_same_bucket.
      transitivity (RateLimiter.bucket_of tmax); [| assumption].
      apply bucket_of_mono. lra. }
    pose proof (can_update_state t0 r) as Hst. rewrite Hroll in Hst.
    destruct (RateLimiter.can_update t0 r) as [ok r1]. simpl in Hst. subst r1.
    destruct ok; [| discriminate].
    apply (IH _ tmax) in Hp; [| lra | assumption].
    destruct Hp as [Hc Hm]. simpl in Hc, Hm. split; [lia | assumption].
Qed.

(** After 60 permitted pairs one time unit apart inside one bucket, a check
    in that bucket is refused. *)
Lemma sixty_pairs_then_refused (r r' : RateLimiter.t) (t0 now : Q) :
  0 <= RateLimiter.update_count r ->
  RateLimiter.pairs 60 t0 r = Some r' ->
  RateLimiter.bucket_of (t0 + 59) = RateLimiter.bucket_of t0 ->
  RateLimiter.bucket_of now = RateLimiter.bucket_of t0 ->
  fst (RateLimiter.can_update now r') = false.
Proof.
  intros Hc0 Hp Hlast Hnow.
  change 60%nat with (S 59) in Hp. rewrite pairs_S in Hp.
  pose proof (can_update_state t0 r) as Hst.
  destruct (RateLimiter.can_update t0 r) as [ok r1]. simpl in Hst. subst r1.
  destruct ok; [| discriminate].
  destruct (roll_last_minute_ge t0 r) as [_ Hge].
  assert (Hc1 : 0 <= RateLimiter.update_count (RateLimiter.roll t0 r)).
  { unfold RateLimiter.roll. destruct (_ >? _); simpl; [easy | assumption]. }
  apply (pairs_same_bucket 59 _ (t0 + 59)) in Hp.
  - destruct Hp as [Hc Hm]. simpl in Hc, Hm.
    unfold RateLimiter.can_update.
    rewrite roll_same_bucket by (rewrite Hm, Hnow; exact Hge).
    unfold Settings.MAX_UPDATES_PER_MINUTE.
    destruct (_ >=? 60) eqn:E; [reflexivity | lia].
  - change (inject_Z (Z.of_nat 59)) with 59%Q. lra.
  - simpl. rewrite Hlast. exact Hge.
Qed.

(** The counter of a fresh limiter stays within the ceiling. *)
Lemma update_count_bounded (cs : list RateLimiter.call) :
  let s := RateLimiter.run cs (RateLimiter.start_run RateLimiter.init) in
  RateLimiter.disciplined s = true ->
  RateLimiter.update_count (RateLimiter.limiter s)
    <= Settings.MAX_UPDATES_PER_MINUTE.
Proof.
  intros s Hd.
  apply (count_inv_run cs (RateLimiter.start_run RateLimiter.init));
    [| exact Hd].
  intros _. simpl. split; [easy | discriminate].
Qed.

(** C6: in every sequence of calls on a limiter in which each
    [record_update] comes right after a [can_update] that answered [True] at
    the same time, the updates recorded in any one bucket of 60 time units
    number at most MAX_UPDATES_PER_MINUTE; and after 60 permitted pairs one
    time unit apart inside one bucket, a 61st [can_update] in that bucket
    answers [False]. *)
Theorem updates_per_bucket_bounded :
  (forall (r : RateLimiter.t) (cs : list RateLimiter.call) (m : Z),
      (0 <= RateLimiter.last_update r)%Q ->
      RateLimiter.disciplined
        (RateLimiter.run cs (RateLimiter.start_run r)) = true ->
      Z.of_nat (List.length
                  (RateLimiter.recorded_in m
                     (RateLimiter.recorded
                        (RateLimiter.run cs (RateLimiter.start_run r)))))
        <= Settings.MAX_UPDATES_PER_MINUTE)
  /\ (forall (r r' : RateLimiter.t) (t0 now : Q),
         0 <= RateLimiter.update_count r ->
         RateLimiter.pairs 60 t0 r = Some r' ->
         RateLimiter.bucket_of (t0 + 59) = RateLimiter.bucket_of t0 ->
         RateLimiter.bucket_of now = RateLimiter.bucket_of t0 ->
         fst (RateLimiter.can_update now r') = false).
Proof.
  split.
  - intros r cs m Hlo Hd.
    apply (spaced_bucket_bound (RateLimiter.last_update r)); [assumption |].
    apply (run_inv_run _ cs (RateLimiter.start_run r)); [| exact Hd].
    apply run_inv_start.
  - intros r r' t0 now. apply sixty_pairs_then_refused.
Qed.

Lemma updates_per_bucket_bounded_witness :
  Z.of_nat (List.length
              (RateLimiter.recorded_in 0
                 (RateLimiter.recorded
                    (RateLimiter.run
                       [RateLimiter.CanUpdate 1; RateLimiter.RecordUpdate 1;
                        RateLimiter.CanUpdate (3 # 2);
                        RateLimiter.CanUpdate 2; RateLimiter.RecordUpdate 2]
                       (RateLimiter.start_run RateLimiter.init)))))
    <= Settings.MAX_UPDATES_PER_MINUTE
  /\ RateLimiter.pairs 60 60 RateLimiter.init =
       Some {| RateLimiter.last_update := 119;
               RateLimiter.update_count := 60;
               RateLimiter.last_minute := 1 |}
  /\ fst (RateLimiter.can_update (239 # 2)
            {| RateLimiter.last_update := 119;
               RateLimiter.update_count := 60;
               RateLimiter.last_minute := 1 |}) = false.
Proof.
  split; [| split].
  - apply (proj1 updates_per_bucket_bounded RateLimiter.init);
      [apply Qle_refl | reflexivity].
  - vm_compute. reflexivity.
  - apply (proj2 updates_per_bucket_bounded
             RateLimiter.init _ 60%Q (239 # 2)%Q);
      [discriminate | vm_compute; reflexivity | reflexivity | reflexivity].
Defined.

(** ** Method bodies: what a computation leaves alone *)

Section Keeps.
Context {St X : Type} (f : St -> X).

Lemma keeps_ret {A : Type} (a : A) : keeps f (ret a).
Proof. intros s w. reflexivity. Qed.

Lemma keeps_raise {A : Type} (e : Exn) : keeps f (@raise St A e).
Proof. intros s w. reflexivity. Qed.

Lemma keeps_get : keeps f get.
Proof. intros s w. reflexivity. Qed.

Lemma keeps_time : keeps f time_time.
Proof. intros s w. reflexivity. Qed.

Lemma keeps_emit (e : Event) : keeps f (emit e).
Proof. intros s w. reflexivity. Qed.

Lemma keeps_modify (g : St -> St) :
  (forall s, f (g s) = f s) -> keeps f (modify g).
Proof. intros H s w. apply H. Qed.

Lemma keeps_bind {A B : Type} (c : M St A) (k : A -> M St B) :
  keeps f c -> (forall a, keeps f (k a)) -> keeps f (bind c k).
Proof.
  intros Hc Hk s w. unfold bind. specialize (Hc s w).
  destruct (c s w) as [[[a | e] s'] w']; simpl in *.
  - now rewrite Hk.
  - assumption.
Qed.

Lemma keeps_within {T A : Type} (proj : St -> T) (upd : T -> St -> St)
  (c : M T A) :
  (forall t0 s, f (upd t0 s) = f s) -> keeps f (within proj upd c).
Proof.
  intros H s w. unfold within.
  destruct (c (proj s) w) as [[r t'] w']. simpl. apply H.
Qed.

Lemma keeps_if {A : Type} (b : bool) (c1 c2 : M St A) :
  keeps f c1 -> keeps f c2 -> keeps f (if b then c1 else c2).
Proof. now destruct b. Qed.

Lemma keeps_getitem (key : string) (data : PyDict) :
  keeps f (@py_getitem St key data).
Proof.
  unfold py_getitem. destruct (find _ data);
    [apply keeps_ret | apply keeps_raise].
Qed.
End Keeps.

Section Silent.
Context {St : Type}.

Lemma silent_ret {A : Type} (a : A) : silent (@ret St A a).
Proof. intros s w. reflexivity. Qed.

Lemma silent_raise {A : Type} (e : Exn) : silent (@raise St A e).
Proof. intros s w. reflexivity. Qed.

Lemma silent_get : silent (@get St).
Proof. intros s w. reflexivity. Qed.

Lemma silent_time : silent (@time_time St).
Proof. intros s w. reflexivity. Qed.

Lemma silent_modify (g : St -> St) : silent (modify g).
Proof. intros s w. reflexivity. Qed.

Lemma silent_bind {A B : Type} (c : M St A) (k : A -> M St B) :
  silent c -> (forall a, silent (k a)) -> silent (bind c k).
Proof.
  intros Hc Hk s w. unfold bind. specialize (Hc s w).
  destruct (c s w) as [[[a | e] s'] w']; simpl in *.
  - now rewrite Hk.
  - assumption.
Qed.

Lemma silent_within {T A : Type} (proj : St -> T) (upd : T -> St -> St)
  (c : M T A) :
  silent c -> silent (within proj upd c).
Proof.
  intros H s w. unfold within. specialize (H (proj s) w).
  now destruct (c (proj s) w) as [[r t'] w'].
Qed.

Lemma silent_if {A : Type} (b : bool) (c1 c2 : M St A) :
  silent c1 -> silent c2 -> silent (if b then c1 else c2).
Proof. now destruct b. Qed.
End Silent.

(** ** GameState *)

(** C9: a [GameState] turned into its dict by [to_dict] and read back by
    [from_dict] is the same [GameState]; and loading into an engine the
    state another one saved gives it that engine's [game_state]. *)
Theorem from_dict_to_dict :
  (forall s : GameState.t, GameState.from_dict (GameState.to_dict s) = Some s)
  /\ (forall (G : Type) (doom : DoomGame G) (e e' : DoomEngine.t G)
        (w w' : World),
         fst (DoomEngine.save_state e w) =
           (Ok (GameState.to_dict (DoomEngine.game_state e)), e)
         /\ DoomEngine.load_state
                (GameState.to_dict (DoomEngine.game_state e)) e' w' =
              (Ok tt,
               DoomEngine.set_game_state (DoomEngine.game_state e) e', w')).
Proof.
  assert (Hrt : forall s, GameState.from_dict (GameState.to_dict s) = Some s).
  { intros [h a am wp p l sc]. reflexivity. }
  split; [exact Hrt |].
  intros G doom e e' w w'. split; [reflexivity |].
  unfold DoomEngine.load_state. rewrite Hrt. reflexivity.
Qed.

(** ** GameSession *)

Ltac keeps_step :=
  first
    [ apply keeps_ret | apply keeps_raise | apply keeps_get
    | apply keeps_time | apply keeps_emit | apply keeps_getitem
    | apply keeps_within; intros; reflexivity
    | apply keeps_modify; intros; reflexivity
    | apply keeps_bind; [| intro]
    | match goal with
      | |- keeps _ (let (_, _) := ?x in _) => destruct x
      | |- keeps _ (if ?b then _ else _) => destruct b
      | |- keeps _ (match ?x with _ => _ end) => destruct x
      end ].

Section SessionFrame.
Context {G : Type} {doom : DoomGame G} {renderer : FrameBuffer.Renderer}.

(** No operation of a session writes its [last_update]. *)
Lemma run_op_keeps_last_update (o : GameSession.op) :
  keeps (@GameSession.last_update G) (GameSession.run_op o).
Proof.
  destruct o; simpl;
    unfold GameSession.start, GameSession.stop, GameSession.handle_input,
      GameSession.update, GameSession.get_frame, GameSession.save_state,
      GameSession.load_state, GameSession.limiter_can_update,
      GameSession.limiter_record_update;
    repeat keeps_step.
Qed.

Lemma run_ops_keeps_last_update (os : list GameSession.op) :
  forall (s : GameSession.t G) (w : World),
    GameSession.last_update (fst (GameSession.run_ops os s w)) =
    GameSession.last_update s.
Proof.
  induction os as [| o os IH]; intros s w; simpl; [reflexivity |].
  pose proof (run_op_keeps_last_update o s w) as Ho.
  destruct (GameSession.run_op o s w) as [[r s'] w']. simpl in Ho.
  rewrite IH. exact Ho.
Qed.

(** [stop] only clears [active]. *)
Lemma stop_effect (s : GameSession.t G) (w : World) :
  GameSession.stop s w = (Ok tt, GameSession.set_active false s, w).
Proof. reflexivity. Qed.

(** On a session that is not active, [update], [handle_input] and
    [get_frame] return at once: the session and its engine are as before,
    the clock is not read, nothing is added to the trace. *)
Lemma inactive_noop (s : GameSession.t G) (w : World) :
  GameSession.active s = false ->
  (forall delta_time, GameSession.update delta_time s w = (Ok tt, s, w))
  /\ (forall action, GameSession.handle_input action s w = (Ok tt, s, w))
  /\ GameSession.get_frame s w = (Ok ""%string, s, w).
Proof.
  intros Ha.
  unfold GameSession.update, GameSession.handle_input,
    GameSession.get_frame, bind, get. rewrite Ha. simpl.
  repeat split.
Qed.
End SessionFrame.

(** C10: no operation of a [GameSession] writes its [last_update]: through
    every sequence of operations it keeps the 0 of construction, so the idle
    test of the sweep compares the current time with 0, whatever time the
    session's limiter recorded for its last update. *)
Theorem session_last_update_never_written
  (G : Type) (doom : DoomGame G) (renderer : FrameBuffer.Renderer) :
  (forall (o : GameSession.op) (s : GameSession.t G) (w : World),
      GameSession.last_update (snd (fst (GameSession.run_op o s w))) =
      GameSession.last_update s)
  /\ (forall (uid : Z) (os : list GameSession.op) (w : World) (now : Q),
         let s := fst (GameSession.run_ops os (GameSession.new uid) w) in
         GameSession.last_update s = 0%Q
         /\ SessionManager.idle now s = Qltb 300 (now - 0)).
Proof.
  split.
  - intros o s w. apply run_op_keeps_last_update.
  - intros uid os w now s.
    assert (H : GameSession.last_update s = 0%Q).
    { unfold s. now rewrite run_ops_keeps_last_update. }
    split; [exact H |]. unfold SessionManager.idle. now rewrite H.
Qed.

(** C8 at a started session: [stop] clears [active] and leaves the engine
    handle as it was, initialized and with its simulator running and not
    closed; closing is what [__del__] would do. *)
Lemma stop_keeps_engine_open :
  let started :=
    snd (fst (GameSession.start (GameSession.new 1) (Toy.world 0))) in
  let stopped := snd (fst (GameSession.stop started (Toy.world 0))) in
  GameSession.active started = true
  /\ GameSession.active stopped = false
  /\ GameSession.engine stopped = GameSession.engine started
  /\ DoomEngine.initialized (GameSession.engine stopped) = true
  /\ Toy.running (DoomEngine.game (GameSession.engine stopped)) = true
  /\ Toy.closed (DoomEngine.game (GameSession.engine stopped)) = false
  /\ Toy.closed
       (DoomEngine.game (DoomEngine.del (GameSession.engine stopped))) = true.
Proof. vm_compute. repeat split. Qed.

(** ** The registry as a dict *)

Section DictFacts.
Context {V : Type}.
Implicit Types (d : Dict.t V) (k : Z) (v : V).

Lemma dict_contains_keys k d : Dict.contains k d = true <-> In k (Dict.keys d).
Proof.
  unfold Dict.contains, Dict.keys. rewrite existsb_exists, in_map_iff.
  split; intros [kv [H1 H2]]; exists kv.
  - apply Z.eqb_eq in H2. now split.
  - split; [assumption | now apply Z.eqb_eq].
Qed.

Lemma dict_contains_get k d :
  Dict.contains k d = true -> exists v, Dict.get k d = Some v.
Proof.
  unfold Dict.contains, Dict.get.
  induction d as [| [k0 v0] d IH]; simpl; [discriminate |].
  destruct (k0 =? k); simpl; [now exists v0 | exact IH].
Qed.

Lemma dict_get_contains k d v :
  Dict.get k d = Some v -> Dict.contains k d = true.
Proof.
  unfold Dict.contains, Dict.get.
  induction d as [| [k0 v0] d IH]; simpl; [discriminate |].
  destruct (k0 =? k); simpl; [reflexivity | exact IH].
Qed.

Lemma dict_not_contains_get k d :
  Dict.contains k d = false -> Dict.get k d = None.
Proof.
  intros H. destruct (Dict.get k d) eqn:E; [| reflexivity].
  apply dict_get_contains in E. congruence.
Qed.

Lemma dict_keys_set k v d :
  Dict.keys (Dict.set k v d) =
  if Dict.contains k d then Dict.keys d else Dict.keys d ++ [k].
Proof.
  unfold Dict.set, Dict.keys. destruct (Dict.contains k d).
  - rewrite map_map. apply map_ext_in. intros [k0 v0] _. simpl.
    destruct (k0 =? k) eqn:E; [| reflexivity].
    apply Z.eqb_eq in E. now subst.
  - now rewrite map_app.
Qed.

Lemma dict_wf_set k v d : Dict.wf d -> Dict.wf (Dict.set k v d).
Proof.
  unfold Dict.wf. rewrite dict_keys_set.
  destruct (Dict.contains k d) eqn:E; [easy |].
  intros H. apply NoDup_app; [assumption | repeat constructor; easy |].
  intros a Ha [<- | []].
  apply dict_contains_keys in Ha. congruence.
Qed.

Lemma dict_get_set_same k v d : Dict.get k (Dict.set k v d) = Some v.
Proof.
  unfold Dict.set. destruct (Dict.contains k d) eqn:E.
  - unfold Dict.contains, Dict.get in *.
    induction d as [| [k0 v0] d IH]; simpl in *; [discriminate |].
    destruct (k0 =? k) eqn:E0; simpl.
    + now rewrite Z.eqb_refl.
    + rewrite E0. now apply IH.
  - unfold Dict.contains, Dict.get in *.
    induction d as [| [k0 v0] d IH]; simpl in *.
    + now rewrite Z.eqb_refl.
    + destruct (k0 =? k); [discriminate | now apply IH].
Qed.

Lemma dict_get_set_other k k' v d :
  k' <> k -> Dict.get k' (Dict.set k v d) = Dict.get k' d.
Proof.
  intros Hne. unfold Dict.set, Dict.get.
  destruct (Dict.contains k d).
  - induction d as [| [k0 v0] d IH]; simpl; [reflexivity |].
    destruct (k0 =? k) eqn:E0; simpl.
    + apply Z.eqb_eq in E0. subst k0.
      destruct (k =? k') eqn:E1; [apply Z.eqb_eq in E1; congruence |].
      exact IH.
    + destruct (k0 =? k'); [reflexivity | exact IH].
  - induction d as [| [k0 v0] d IH]; simpl.
    + destruct (k =? k') eqn:E1; [apply Z.eqb_eq in E1; congruence |].
      reflexivity.
    + destruct (k0 =? k'); [reflexivity | exact IH].
Qed.

Lemma dict_count_keys k d :
  Dict.count k d = count_occ Z.eq_dec (Dict.keys d) k.
Proof.
  unfold Dict.count, Dict.keys.
  induction d as [| [k0 v0] d IH]; simpl; [reflexivity |].
  destruct (k0 =? k) eqn:E; destruct (Z.eq_dec k0 k) as [e | n]; simpl.
  - now rewrite IH.
  - apply Z.eqb_eq in E. contradiction.
  - apply Z.eqb_neq in E. contradiction.
  - exact IH.
Qed.

(** After [d[k] = v] there is one entry under [k]. *)
Lemma dict_count_set k v d :
  Dict.wf d -> Dict.count k (Dict.set k v d) = 1%nat.
Proof.
  intros Hwf. rewrite dict_count_keys.
  apply NoDup_count_occ'.
  - now apply dict_wf_set.
  - apply dict_contains_keys.
    eapply dict_get_contains. apply dict_get_set_same.
Qed.

Lemma dict_length_set_new k v d :
  Dict.contains k d = false ->
  List.length (Dict.set k v d) = S (List.length d).
Proof.
  intros H. unfold Dict.set. rewrite H, length_app. simpl. lia.
Qed.

Lemma dict_contains_del k k' d :
  Dict.contains k' (Dict.del k d) = negb (k' =? k) && Dict.contains k' d.
Proof.
  unfold Dict.contains, Dict.del.
  induction d as [| [k0 v0] d IH]; simpl.
  - now rewrite andb_false_r.
  - destruct (k0 =? k) eqn:E; simpl.
    + rewrite IH. apply Z.eqb_eq in E. subst k0.
      destruct (k =? k') eqn:E1; simpl.
      * apply Z.eqb_eq in E1. subst k'. now rewrite Z.eqb_refl.
      * reflexivity.
    + rewrite IH. destruct (k0 =? k') eqn:E1; simpl; [| reflexivity].
      apply Z.eqb_eq in E1. subst k0. now rewrite E.
Qed.

Lemma dict_keys_del k d :
  Dict.keys (Dict.del k d) = filter (fun k' => negb (k' =? k)) (Dict.keys d).
Proof.
  unfold Dict.keys, Dict.del.
  induction d as [| [k0 v0] d IH]; simpl; [reflexivity |].
  destruct (k0 =? k); simpl; now rewrite IH.
Qed.

Lemma dict_del_set k v d : Dict.del k (Dict.set k v d) = Dict.del k d.
Proof.
  unfold Dict.set, Dict.del. destruct (Dict.contains k d).
  - induction d as [| [k0 v0] d IH]; simpl; [reflexivity |].
    destruct (k0 =? k) eqn:E; simpl.
    + rewrite Z.eqb_refl. simpl. exact IH.
    + rewrite E. simpl. now rewrite IH.
  - rewrite filter_app. simpl. rewrite Z.eqb_refl. simpl.
    apply app_nil_r.
Qed.

Lemma dict_contains_set k v d : Dict.contains k (Dict.set k v d) = true.
Proof. eapply dict_get_contains. apply dict_get_set_same. Qed.

Lemma dict_replace_absent k v d :
  Dict.contains k d = false ->
  map (fun kv => if fst kv =? k then (k, v) else kv) d = d.
Proof.
  unfold Dict.contains.
  induction d as [| [k0 v0] d IH]; simpl; [reflexivity |].
  destruct (k0 =? k); simpl; [discriminate |].
  intros H. now rewrite IH.
Qed.

Lemma dict_set_set k v v' d :
  Dict.set k v (Dict.set k v' d) = Dict.set k v d.
Proof.
  unfold Dict.set at 1. rewrite dict_contains_set.
  unfold Dict.set. destruct (Dict.contains k d) eqn:E.
  - rewrite map_map. apply map_ext. intros [k0 v0]. simpl.
    destruct (k0 =? k) eqn:E0; simpl; [now rewrite Z.eqb_refl | now rewrite E0].
  - rewrite map_app. simpl. rewrite Z.eqb_refl.
    now rewrite dict_replace_absent.
Qed.

Lemma dict_del_absent k d :
  Dict.contains k d = false -> Dict.del k d = d.
Proof.
  unfold Dict.contains, Dict.del.
  induction d as [| [k0 v0] d IH]; simpl; [reflexivity |].
  destruct (k0 =? k); simpl; [discriminate |].
  intros H. now rewrite IH.
Qed.

Lemma dict_get_in k v d :
  Dict.get k d = Some v -> In (k, v) d.
Proof.
  unfold Dict.get. destruct (find _ d) as [[k0 v0] |] eqn:E; [| discriminate].
  simpl. intros H. injection H as ->. apply find_some in E.
  destruct E as [Hin Hk]. simpl in Hk. apply Z.eqb_eq in Hk. now subst.
Qed.
End DictFacts.

(** ** SessionManager *)

Section ManagerFacts.
Context {G : Type} {doom : DoomGame G} {renderer : FrameBuffer.Renderer}.

(** A session that [start] returned from is active and its engine
    initialized; [start] adds nothing to the world. *)
Lemma start_new (uid : Z) (m : SessionManager.t G) (w : World) :
  match on_local (GameSession.new uid) GameSession.start m w with
  | (Ok s, m', w') =>
      m' = m /\ w' = w
      /\ GameSession.active s = true
      /\ DoomEngine.initialized (GameSession.engine s) = true
      /\ GameSession.user_id s = uid
  | (Raise e, m', w') => m' = m /\ w' = w
  end.
Proof.
  cbv beta iota delta [on_local GameSession.start within bind
    DoomEngine.initialize DoomEngine.game_call get modify ret].
  simpl.
  match goal with |- context [init ?g0] =>
    destruct (init g0) as [g |] end; simpl; [| now split].
  destruct (new_episode g) as [g' |]; simpl; [| now split].
  repeat split.
Qed.

Lemma stop_registered_eq (uid : Z) (m : SessionManager.t G) (w : World)
  (v : GameSession.t G) :
  Dict.get uid (SessionManager.sessions m) = Some v ->
  SessionManager.stop_registered uid m w =
  (Ok tt,
   SessionManager.set_sessions
     (Dict.set uid (GameSession.set_active false v)
        (SessionManager.sessions m)) m,
   {| clock := clock w; reads := reads w;
      trace := trace w ++ [CallStop uid] |}).
Proof.
  intros Hget.
  unfold SessionManager.stop_registered, bind, emit, within, Dict.at_key.
  simpl. rewrite Hget. reflexivity.
Qed.

(** What [create_session] has done when it returns. *)
Lemma create_session_ok (uid : Z) (m m' : SessionManager.t G) (w w' : World)
  (s : GameSession.t G) :
  SessionManager.create_session uid m w = (Ok s, m', w') ->
  SessionManager.sessions m' = Dict.set uid s (SessionManager.sessions m)
  /\ SessionManager.last_cleanup m' = SessionManager.last_cleanup m
  /\ GameSession.active s = true
  /\ DoomEngine.initialized (GameSession.engine s) = true
  /\ GameSession.user_id s = uid
  /\ clock w' = clock w /\ reads w' = reads w
  /\ trace w' =
       trace w
         ++ (if Dict.contains uid (SessionManager.sessions m)
             then [CallStop uid] else [])
         ++ [Started uid; Publish uid].
Proof.
  unfold SessionManager.create_session.
  unfold bind at 1. unfold get at 1.
  destruct (Dict.contains uid (SessionManager.sessions m)) eqn:Hc.
  - destruct (dict_contains_get _ _ Hc) as [v Hv].
    unfold bind at 1. rewrite (stop_registered_eq uid m w v Hv).
    unfold bind at 1.
    match goal with |- context [on_local ?a ?b ?c ?d] =>
      pose proof (start_new uid c d) as Hs;
      destruct (on_local a b c d) as [[[s0 | e] m1] w1] end;
      [| discriminate].
    destruct Hs as (-> & -> & Ha & Hi & Hu).
    unfold bind, emit, modify, ret. simpl. intros H.
    injection H as <- <- <-. simpl.
    rewrite dict_set_set, <- !app_assoc. simpl. repeat split; assumption.
  - unfold bind at 1. unfold ret at 1. unfold bind at 1.
    match goal with |- context [on_local ?a ?b ?c ?d] =>
      pose proof (start_new uid c d) as Hs;
      destruct (on_local a b c d) as [[[s0 | e] m1] w1] end;
      [| discriminate].
    destruct Hs as (-> & -> & Ha & Hi & Hu).
    unfold bind, emit, modify, ret. simpl. intros H.
    injection H as <- <- <-. simpl.
    rewrite <- !app_assoc. simpl. repeat split; assumption.
Qed.

(** [create_session] fails only when the simulator does. *)
Lemma create_session_returns (uid : Z) (m : SessionManager.t G) (w : World) :
  (exists g g' : G,
      init (DoomEngine.game (DoomEngine.new None)) = Some g
      /\ new_episode g = Some g') ->
  exists s m' w', SessionManager.create_session uid m w = (Ok s, m', w').
Proof.
  intros (g & g' & Hinit & Hepisode).
  assert (Hstart : forall (m0 : SessionManager.t G) w0, exists s,
             on_local (GameSession.new uid) GameSession.start m0 w0 =
             (Ok s, m0, w0)).
  { intros m0 w0.
    cbv beta iota delta [on_local GameSession.start within bind
      DoomEngine.initialize DoomEngine.game_call get modify ret].
    simpl. simpl in Hinit. rewrite Hinit. simpl. rewrite Hepisode. simpl.
    eexists. reflexivity. }
  unfold SessionManager.create_session.
  unfold bind at 1. unfold get at 1.
  destruct (Dict.contains uid (SessionManager.sessions m)) eqn:Hc.
  - destruct (dict_contains_get _ _ Hc) as [v Hv].
    unfold bind at 1. rewrite (stop_registered_eq uid m w v Hv).
    unfold bind at 1.
    match goal with |- context [on_local ?a ?b ?c ?d] =>
      destruct (Hstart c d) as [s ->] end.
    unfold bind, emit, modify, ret. simpl. now eexists _, _, _.
  - unfold bind at 1. unfold ret at 1. unfold bind at 1.
    destruct (Hstart m w) as [s ->].
    unfold bind, emit, modify, ret. simpl. now eexists _, _, _.
Qed.


End ManagerFacts.



(** C1 at a manager that holds MAX_SESSIONS sessions: [create_session] for
    an eleventh user returns a started session and the registry holds
    eleven. *)
Lemma create_session_beyond_max_sessions :
  Z.of_nat (List.length (SessionManager.sessions Toy.full_manager))
    = Settings.MAX_SESSIONS
  /\ Dict.contains 11 (SessionManager.sessions Toy.full_manager) = false
  /\ (exists s m' w',
         SessionManager.create_session 11 Toy.full_manager Toy.full_world =
           (Ok s, m', w')
         /\ GameSession.active s = true
         /\ Z.of_nat (List.length (SessionManager.sessions m'))
              = Settings.MAX_SESSIONS + 1
         /\ Dict.keys (SessionManager.sessions m') =
              [1; 2; 3; 4; 5; 6; 7; 8; 9; 10; 11]).
Proof.
  split; [vm_compute; reflexivity |]. split; [vm_compute; reflexivity |].
  eexists _, _, _. split; [vm_compute; reflexivity |].
  vm_compute. repeat split.
Qed.

(** No limit is consulted: a session created for a user who has none makes
    the registry one longer, however long it is. *)
Lemma create_session_grows
  (G : Type) (doom : DoomGame G) (renderer : FrameBuffer.Renderer)
  (uid : Z) (m m' : SessionManager.t G) (w w' : World) (s : GameSession.t G) :
  Dict.contains uid (SessionManager.sessions m) = false ->
  SessionManager.create_session uid m w = (Ok s, m', w') ->
  List.length (SessionManager.sessions m') =
  S (List.length (SessionManager.sessions m)).
Proof.
  intros Hc Hrun. apply create_session_ok in Hrun.
  destruct Hrun as (-> & _). now apply dict_length_set_new.
Qed.

(** *** The periodic sweep and the update pass *)

Section SweepFacts.
Context {G : Type} {doom : DoomGame G} {renderer : FrameBuffer.Renderer}.

Lemma game_call_silent (f : G -> option G) : silent (DoomEngine.game_call f).
Proof.
  intros e w. unfold DoomEngine.game_call. now destruct (f _).
Qed.

Lemma initialize_silent : silent (@DoomEngine.initialize G doom).
Proof.
  unfold DoomEngine.initialize.
  apply silent_bind; [apply silent_get | intros self].
  apply silent_if; [apply silent_ret |].
  repeat (apply silent_bind; [| intros ?]);
    auto using game_call_silent, silent_modify.
Qed.

Lemma engine_update_silent (dt : Q) : silent (@DoomEngine.update G doom dt).
Proof.
  unfold DoomEngine.update, DoomEngine.ensure_initialized.
  repeat (apply silent_bind; [| intros ?]);
    auto using silent_get, silent_modify, silent_if, initialize_silent,
      silent_ret.
Qed.

Lemma session_update_silent (dt : Q) : silent (@GameSession.update G doom dt).
Proof.
  unfold GameSession.update, GameSession.limiter_can_update,
    GameSession.limiter_record_update.
  apply silent_bind; [apply silent_get | intros self].
  apply silent_if; [apply silent_ret |].
  apply silent_bind.
  - apply silent_bind; [apply silent_time | intros ct].
    apply silent_bind; [apply silent_get | intros self'].
    destruct (RateLimiter.can_update _ _).
    apply silent_bind; [apply silent_modify | intros ?; apply silent_ret].
  - intros ok. apply silent_if; [apply silent_ret |].
    apply silent_bind.
    + apply silent_within, engine_update_silent.
    + intros _. apply silent_bind; [apply silent_time | intros ?].
      apply silent_modify.
Qed.

Lemma end_session_effect (uid : Z) (m : SessionManager.t G) (w : World) :
  let '(r, m', w') := SessionManager.end_session uid m w in
  r = Ok tt
  /\ SessionManager.sessions m' = Dict.del uid (SessionManager.sessions m)
  /\ SessionManager.last_cleanup m' = SessionManager.last_cleanup m
  /\ clock w' = clock w /\ reads w' = reads w
  /\ trace w' =
       trace w ++ (if Dict.contains uid (SessionManager.sessions m)
                   then [CallStop uid; Remove uid] else []).
Proof.
  unfold SessionManager.end_session.
  unfold bind at 1. unfold get at 1.
  destruct (Dict.contains uid (SessionManager.sessions m)) eqn:Hc.
  - destruct (dict_contains_get _ _ Hc) as [v Hv].
    unfold bind at 1. rewrite (stop_registered_eq uid m w v Hv).
    unfold bind, modify, emit. simpl.
    rewrite dict_del_set, <- app_assoc. repeat split.
  - unfold ret. rewrite app_nil_r. repeat split.
    symmetry. now apply dict_del_absent.
Qed.

(** The first loop of [update_all]: every listed user that is registered
    is stopped and removed, nothing else happens. *)
Lemma sweep_effect (ks : list Z) :
  forall (m : SessionManager.t G) (w : World),
    let '(r, m', w') := for_each ks SessionManager.end_session m w in
    r = Ok tt
    /\ clock w' = clock w /\ reads w' = reads w
    /\ (forall k, In k ks ->
          Dict.contains k (SessionManager.sessions m') = false)
    /\ (forall k, Dict.contains k (SessionManager.sessions m') = true ->
          Dict.contains k (SessionManager.sessions m) = true)
    /\ exists evs,
         trace w' = trace w ++ evs
         /\ Forall (sweep_event ks) evs
         /\ (forall k, In k ks ->
               Dict.contains k (SessionManager.sessions m) = true ->
               In (CallStop k) evs /\ In (Remove k) evs).
Proof.
  induction ks as [| k0 ks IH]; intros m w.
  - simpl. repeat split; try easy.
    exists []. rewrite app_nil_r. repeat split; easy.
  - simpl for_each. unfold bind.
    pose proof (end_session_effect k0 m w) as H0.
    destruct (SessionManager.end_session k0 m w) as [[r0 m0] w0].
    destruct H0 as (-> & Hs0 & _ & Hc0 & Hr0 & Ht0).
    specialize (IH m0 w0).
    destruct (for_each ks SessionManager.end_session m0 w0) as [[r1 m1] w1].
    destruct IH as (-> & Hc1 & Hr1 & Hgone & Hsub & evs & Ht1 & Hall & Hin).
    split; [reflexivity |]. split; [congruence |]. split; [congruence |].
    assert (Hmono : forall k,
               Dict.contains k (SessionManager.sessions m0) = true ->
               Dict.contains k (SessionManager.sessions m) = true).
    { intros k. rewrite Hs0, dict_contains_del.
      intros H. now apply andb_true_iff in H. }
    split; [| split].
    + intros k [<- | Hk]; [| now apply Hgone].
      destruct (Dict.contains k0 (SessionManager.sessions m1)) eqn:E;
        [| reflexivity].
      apply Hsub in E. rewrite Hs0, dict_contains_del, Z.eqb_refl in E.
      discriminate.
    + intros k Hk. apply Hmono. now apply Hsub.
    + exists ((if Dict.contains k0 (SessionManager.sessions m)
               then [CallStop k0; Remove k0] else []) ++ evs).
      split; [rewrite Ht1, Ht0; now rewrite app_assoc |]. split.
      * apply Forall_app. split.
        -- destruct (Dict.contains k0 _); [| constructor].
           constructor; [| constructor; [| constructor]];
             exists k0; (split; [now left | auto]).
        -- revert Hall. apply Forall_impl. intros e (k & Hk & He).
           exists k. split; [now right | exact He].
      * intros k Hk Hc.
        destruct (Z.eq_dec k k0) as [-> | Hne].
        -- rewrite Hc. simpl. auto.
        -- destruct Hk as [-> | Hk]; [contradiction |].
           assert (Hc' : Dict.contains k (SessionManager.sessions m0) = true).
           { rewrite Hs0, dict_contains_del, Hc.
             apply Z.eqb_neq in Hne. now rewrite Hne. }
           destruct (Hin k Hk Hc') as [H1 H2].
           split; apply in_or_app; now right.
Qed.

(** The second loop: the registry keeps its keys, and only the calls of
    [update] on registered sessions and the pacing sleeps are added to
    the trace. *)
Lemma update_sessions_effect (dt : Q) (d : Dict.t (GameSession.t G)) :
  forall w : World,
    let '(r, d', w') := SessionManager.update_sessions dt d w in
    Dict.keys d' = Dict.keys d
    /\ exists evs,
         trace w' = trace w ++ evs /\ Forall (pass_event (Dict.keys d)) evs.
Proof.
  induction d as [| [uid s] rest IH]; intros w.
  - simpl. split; [reflexivity |]. exists []. now rewrite app_nil_r.
  - simpl SessionManager.update_sessions.
    unfold bind at 1. unfold emit at 1.
    unfold bind at 1.
    pose proof (session_update_silent dt s
      {| clock := clock w; reads := reads w;
         trace := trace w ++ [CallUpdate uid] |}) as Hsil.
    destruct (GameSession.update dt s _) as [[[[] | e] s1] w1];
      simpl in Hsil.
    + unfold emit. 
      match goal with |- context [SessionManager.update_sessions dt rest ?w0] =>
        specialize (IH w0);
        destruct (SessionManager.update_sessions dt rest w0) as [[r2 d2] w2]
      end.
      destruct IH as (Hk & evs & Ht & Hall). simpl in Ht.
      split; [simpl; now rewrite Hk |].
      exists ([CallUpdate uid; Sleep Settings.MESSAGE_RATE_LIMIT] ++ evs).
      split.
      * rewrite Ht, Hsil. now rewrite <- !app_assoc.
      * apply Forall_app. split.
        -- constructor; [| constructor; [| constructor]].
           ++ left. exists uid. split; [now left | reflexivity].
           ++ right. now eexists.
        -- revert Hall. apply Forall_impl. intros e [(k & Hk' & He) | Hq].
           ++ left. exists k. split; [now right | exact He].
           ++ now right.
    + split; [reflexivity |]. exists [CallUpdate uid].
      split; [exact Hsil |].
      constructor; [| constructor].
      left. exists uid. split; [now left | reflexivity].
Qed.
End SweepFacts.

(** C2 (amended): on a tick of [update_all] on which the sweep is due (the
    current time is at least 60 after [last_cleanup]), a registered session
    whose [last_update] is more than 300 before the current time is stopped
    and removed by the sweep, which makes no call of [update]; the update
    pass that follows makes no call of [update] on it, and it is no longer
    registered when the tick ends. *)
Theorem update_all_sweep_before_updates
  (G : Type) (doom : DoomGame G) (renderer : FrameBuffer.Renderer)
  (delta_time : Q) (m : SessionManager.t G) (w : World)
  (uid : Z) (s : GameSession.t G) :
  (60 <= clock w (reads w) - SessionManager.last_cleanup m)%Q ->
  Dict.get uid (SessionManager.sessions m) = Some s ->
  (300 < clock w (reads w) - GameSession.last_update s)%Q ->
  exists sweep pass,
    trace (snd (SessionManager.update_all delta_time m w)) =
      trace w ++ sweep ++ pass
    /\ In (CallStop uid) sweep
    /\ In (Remove uid) sweep
    /\ (forall k, ~ In (CallUpdate k) sweep)
    /\ ~ In (CallUpdate uid) pass
    /\ Dict.get uid
         (SessionManager.sessions
            (snd (fst (SessionManager.update_all delta_time m w)))) = None.
Proof.
  intros Hdue Hget Hidle.
  set (res := SessionManager.update_all delta_time m w).
  assert (Hres : res = SessionManager.update_all delta_time m w)
    by reflexivity.
  clearbody res.
  unfold SessionManager.update_all in Hres.
  unfold bind at 1 in Hres. unfold time_time at 1 in Hres.
  unfold bind at 1 in Hres. unfold get at 1 in Hres.
  unfold bind at 1 in Hres.
  apply Qle_bool_iff in Hdue. rewrite Hdue in Hres.
  unfold bind at 1 in Hres. unfold modify at 1 in Hres.
  set (now := clock w (reads w)) in *.
  set (ks := map fst (filter (fun kv => SessionManager.idle now (snd kv))
                        (SessionManager.sessions m))) in *.
  assert (Hin : In uid ks).
  { unfold ks. apply in_map_iff. exists (uid, s). split; [reflexivity |].
    apply filter_In. split; [now apply dict_get_in |].
    simpl. unfold SessionManager.idle. now apply Qltb_true. }
  match type of Hres with
  | context [for_each ks SessionManager.end_session ?m1 ?w1] =>
    pose proof (sweep_effect ks m1 w1) as Hsw;
    destruct (for_each ks SessionManager.end_session m1 w1) as [[r2 m2] w2]
  end.
  destruct Hsw as (-> & _ & _ & Hgone & _ & sweep & Ht2 & Hall & Hstop).
  simpl in Ht2, Hstop.
  unfold within in Hres.
  pose proof (update_sessions_effect delta_time
                (SessionManager.sessions m2) w2) as Hup.
  destruct (SessionManager.update_sessions delta_time
              (SessionManager.sessions m2) w2) as [[r3 d3] w3].
  destruct Hup as (Hkeys & pass & Ht3 & Hpass).
  subst res. simpl.
  assert (Hnot : Dict.contains uid d3 = false).
  { destruct (Dict.contains uid d3) eqn:E; [| reflexivity].
    apply dict_contains_keys in E. rewrite Hkeys in E.
    apply dict_contains_keys in E. rewrite (Hgone uid Hin) in E.
    discriminate. }
  exists sweep, pass.
  destruct (Hstop uid Hin (dict_get_contains _ _ _ Hget)) as [H1 H2].
  split; [rewrite Ht3, Ht2; now rewrite app_assoc |].
  split; [exact H1 |]. split; [exact H2 |]. split; [| split].
  - intros k Hk. rewrite Forall_forall in Hall.
    destruct (Hall _ Hk) as (k' & _ & [He | He]); discriminate.
  - intros Hk. rewrite Forall_forall in Hpass.
    destruct (Hpass _ Hk) as [(k' & Hk' & He) | (q & He)]; [| discriminate].
    injection He as <-.
    apply dict_contains_keys in Hk'. rewrite (Hgone uid Hin) in Hk'.
    discriminate.
  - now apply dict_not_contains_get.
Qed.

Lemma update_all_sweep_before_updates_witness :
  (60 <= clock (Toy.world 2000) (reads (Toy.world 2000))
         - SessionManager.last_cleanup Toy.manager1)%Q
  /\ Dict.get 1 (SessionManager.sessions Toy.manager1) =
       Some (Toy.returned (fst (fst Toy.joined)))
  /\ (300 < clock (Toy.world 2000) (reads (Toy.world 2000))
           - GameSession.last_update (Toy.returned (fst (fst Toy.joined))))%Q
  /\ exists sweep pass,
       trace (snd (SessionManager.update_all 1 Toy.manager1 (Toy.world 2000))) =
         trace (Toy.world 2000) ++ sweep ++ pass
       /\ In (CallStop 1) sweep
       /\ In (Remove 1) sweep
       /\ (forall k, ~ In (CallUpdate k) sweep)
       /\ ~ In (CallUpdate 1) pass
       /\ Dict.get 1
            (SessionManager.sessions
               (snd (fst (SessionManager.update_all 1 Toy.manager1
                            (Toy.world 2000))))) = None.
Proof.
  assert (Hdue : (60 <= clock (Toy.world 2000) (reads (Toy.world 2000))
                        - SessionManager.last_cleanup Toy.manager1)%Q)
    by (vm_compute; discriminate).
  assert (Hget : Dict.get 1 (SessionManager.sessions Toy.manager1) =
                 Some (Toy.returned (fst (fst Toy.joined))))
    by (vm_compute; reflexivity).
  assert (Hidle : (300 < clock (Toy.world 2000) (reads (Toy.world 2000))
                         - GameSession.last_update
                             (Toy.returned (fst (fst Toy.joined))))%Q)
    by (vm_compute; reflexivity).
  split; [exact Hdue |]. split; [exact Hget |]. split; [exact Hidle |].
  exact (update_all_sweep_before_updates _ _ _ 1 Toy.manager1 (Toy.world 2000)
           1 _ Hdue Hget Hidle).
Defined.

(** C2, as the specification states it, fails on a tick that comes less
    than 60 after the last sweep: the sweep is skipped, and [update] is
    called on a session whose [last_update] is more than 300 old. *)
Lemma update_all_updates_idle_session :
  (clock Toy.world1 (reads Toy.world1)
     - SessionManager.last_cleanup Toy.manager1 < 60)%Q
  /\ exists s,
       Dict.get 1 (SessionManager.sessions Toy.manager1) = Some s
       /\ (300 < clock Toy.world1 (reads Toy.world1)
                - GameSession.last_update s)%Q
       /\ trace (snd (SessionManager.update_all 1 Toy.manager1 Toy.world1)) =
            trace Toy.world1 ++ [CallUpdate 1; Sleep 1]
       /\ Dict.contains 1
            (SessionManager.sessions
               (snd (fst (SessionManager.update_all 1 Toy.manager1
                            Toy.world1)))) = true.
Proof.
  split; [vm_compute; reflexivity |].
  eexists. split; [vm_compute; reflexivity |].
  split; [vm_compute; reflexivity |].
  split; vm_compute; reflexivity.
Qed.

(** What C10 means for the sweep: a session whose limiter recorded an
    update at time 1003 is stopped and removed by the sweep of time 1100,
    its own [last_update] being still 0. *)
Example recently_updated_session_is_swept :
  let ticked := SessionManager.update_all 1 Toy.manager1 Toy.world1 in
  let swept :=
    SessionManager.update_all 1 (snd (fst ticked)) (Toy.world 1100) in
  option_map
    (fun s => (RateLimiter.last_update (GameSession.rate_limiter s),
               GameSession.last_update s))
    (Dict.get 1 (SessionManager.sessions (snd (fst ticked))))
    = Some (1003%Q, 0%Q)
  /\ trace (snd swept) = [CallStop 1; Remove 1]
  /\ SessionManager.sessions (snd (fst swept)) = [].
Proof. vm_compute. repeat split. Qed.

(** * Further properties of the code *)

(** ** RateLimiter: recovery and repeated checks *)

(** X1: whatever the limiter holds, a check made in a later minute than the
    tracked one and at least MESSAGE_RATE_LIMIT after the last recorded
    update is permitted: the ceiling never blocks beyond its minute. *)
Theorem can_update_after_rollover (r : RateLimiter.t) (now : Q) :
  RateLimiter.last_minute r < RateLimiter.bucket_of now ->
  (RateLimiter.last_update r + Settings.MESSAGE_RATE_LIMIT <= now)%Q ->
  RateLimiter.can_update now r =
    (true, {| RateLimiter.last_update := RateLimiter.last_update r;
              RateLimiter.update_count := 0;
              RateLimiter.last_minute := RateLimiter.bucket_of now |}).
Proof.
  intros Hm Ht. unfold RateLimiter.can_update, RateLimiter.roll.
  change (py_int (now / 60)) with (RateLimiter.bucket_of now).
  destruct (_ >? _) eqn:E; [| lia]. simpl.
  destruct (Qltb _ _) eqn:Hq; [| reflexivity].
  apply Qltb_true in Hq. lra.
Qed.

Lemma can_update_after_rollover_witness :
  RateLimiter.can_update 120
    {| RateLimiter.last_update := 119;
       RateLimiter.update_count := 60;
       RateLimiter.last_minute := 1 |} =
    (true, {| RateLimiter.last_update := 119;
              RateLimiter.update_count := 0;
              RateLimiter.last_minute := RateLimiter.bucket_of 120 |}).
Proof.
  apply (can_update_after_rollover
           {| RateLimiter.last_update := 119;
              RateLimiter.update_count := 60;
              RateLimiter.last_minute := 1 |} 120); [reflexivity |].
  vm_compute. discriminate.
Defined.

Lemma roll_idempotent (now : Q) (r : RateLimiter.t) :
  RateLimiter.roll now (RateLimiter.roll now r) = RateLimiter.roll now r.
Proof.
  apply roll_same_bucket. apply roll_last_minute_ge.
Qed.

(** X2: a check repeated at the same time gives the same answer and
    changes nothing more: the reset made by the first check is made once. *)
Theorem can_update_repeated (now : Q) (r : RateLimiter.t) :
  RateLimiter.can_update now (snd (RateLimiter.can_update now r)) =
  RateLimiter.can_update now r.
Proof.
  rewrite can_update_state.
  unfold RateLimiter.can_update. now rewrite roll_idempotent.
Qed.

(** ** DoomEngine *)

Section Quiet.
Context {St : Type}.

Lemma quiet_ret {A : Type} (a : A) : quiet (@ret St A a).
Proof. intros s w. reflexivity. Qed.

Lemma quiet_raise {A : Type} (e : Exn) : quiet (@raise St A e).
Proof. intros s w. reflexivity. Qed.

Lemma quiet_get : quiet (@get St).
Proof. intros s w. reflexivity. Qed.

Lemma quiet_modify (g : St -> St) : quiet (modify g).
Proof. intros s w. reflexivity. Qed.

Lemma quiet_bind {A B : Type} (c : M St A) (k : A -> M St B) :
  quiet c -> (forall a, quiet (k a)) -> quiet (bind c k).
Proof.
  intros Hc Hk s w. unfold bind. specialize (Hc s w).
  destruct (c s w) as [[[a | e] s'] w']; simpl in *.
  - subst w'. apply Hk.
  - assumption.
Qed.

Lemma quiet_within {T A : Type} (proj : St -> T) (upd : T -> St -> St)
  (c : M T A) :
  quiet c -> quiet (within proj upd c).
Proof.
  intros H s w. unfold within. specialize (H (proj s) w).
  now destruct (c (proj s) w) as [[r t'] w'].
Qed.

Lemma quiet_if {A : Type} (b : bool) (c1 c2 : M St A) :
  quiet c1 -> quiet c2 -> quiet (if b then c1 else c2).
Proof. now destruct b. Qed.
End Quiet.

Ltac quiet_step :=
  first
    [ apply quiet_ret | apply quiet_raise | apply quiet_get
    | apply quiet_modify
    | apply quiet_bind; [| intro]
    | match goal with
      | |- quiet (if ?b then _ else _) => destruct b
      | |- quiet (match ?x with _ => _ end) => destruct x
      end ].

Section EngineFacts.
Context {G : Type} {doom : DoomGame G}.

Lemma game_call_quiet (f : G -> option G) : quiet (DoomEngine.game_call f).
Proof. intros e w. unfold DoomEngine.game_call. now destruct (f _). Qed.

Lemma initialize_quiet : quiet (@DoomEngine.initialize G doom).
Proof.
  unfold DoomEngine.initialize.
  apply quiet_bind; [apply quiet_get | intros self].
  apply quiet_if; [apply quiet_ret |].
  apply quiet_bind; [apply game_call_quiet | intros _].
  apply quiet_bind; [apply game_call_quiet | intros _]. apply quiet_modify.
Qed.

Lemma ensure_initialized_quiet : quiet (@DoomEngine.ensure_initialized G doom).
Proof.
  unfold DoomEngine.ensure_initialized.
  apply quiet_bind; [apply quiet_get | intros self].
  apply quiet_if; [apply initialize_quiet | apply quiet_ret].
Qed.

Lemma engine_update_quiet (dt : Q) : quiet (@DoomEngine.update G doom dt).
Proof.
  unfold DoomEngine.update.
  apply quiet_bind; [apply ensure_initialized_quiet | intros _].
  apply quiet_bind; [apply quiet_modify | intros _]. apply quiet_modify.
Qed.

Lemma engine_handle_input_quiet (action : string) :
  quiet (@DoomEngine.handle_input G doom action).
Proof.
  unfold DoomEngine.handle_input.
  apply quiet_bind; [apply ensure_initialized_quiet | intros _].
  unfold DoomEngine._move_forward, DoomEngine._move_backward,
    DoomEngine._turn_left, DoomEngine._turn_right, DoomEngine._shoot,
    DoomEngine._use, DoomEngine._switch_weapon, DoomEngine.do_action.
  repeat quiet_step.
Qed.

Lemma initialize_done (e : DoomEngine.t G) (w : World) :
  DoomEngine.initialized e = true ->
  DoomEngine.initialize e w = (Ok tt, e, w).
Proof.
  intros H. unfold DoomEngine.initialize, bind, get. now rewrite H.
Qed.

(** [initialize] on an engine that is not initialized, by what the
    simulator answers. *)
Lemma initialize_fresh (e : DoomEngine.t G) (w : World) :
  DoomEngine.initialized e = false ->
  DoomEngine.initialize e w =
  match init (DoomEngine.game e) with
  | None => (Raise DoomError, e, w)
  | Some g =>
      match new_episode g with
      | None => (Raise DoomError, DoomEngine.set_game g e, w)
      | Some g' =>
          (Ok tt,
           DoomEngine.set_initialized true
             (DoomEngine.set_game g' (DoomEngine.set_game g e)), w)
      end
  end.
Proof.
  intros H.
  unfold DoomEngine.initialize, bind, get, DoomEngine.game_call, modify.
  rewrite H. destruct (init (DoomEngine.game e)) as [g |]; [| reflexivity].
  simpl. now destruct (new_episode g).
Qed.

Lemma ensure_initialized_done (e : DoomEngine.t G) (w : World) :
  DoomEngine.initialized e = true ->
  DoomEngine.ensure_initialized e w = (Ok tt, e, w).
Proof.
  intros H. unfold DoomEngine.ensure_initialized, bind, get. now rewrite H.
Qed.

(** What [update] does to an initialized engine. *)
Lemma engine_update_initialized (dt : Q) (e : DoomEngine.t G) (w : World) :
  DoomEngine.initialized e = true ->
  exists e',
    DoomEngine.update dt e w = (Ok tt, e', w)
    /\ DoomEngine.initialized e' = true
    /\ DoomEngine.game e' = DoomEngine.game e
    /\ DoomEngine.frame_buffer e' =
         Some (screen_buffer (DoomEngine.game e))
    /\ GameState.health (DoomEngine.game_state e') =
         get_game_variable HEALTH (DoomEngine.game e).
Proof.
  intros H. unfold DoomEngine.update. unfold bind at 1.
  rewrite ensure_initialized_done by assumption.
  unfold bind, modify. simpl. eexists. split; [reflexivity |].
  simpl. now repeat split.
Qed.
End EngineFacts.

(** X3: [initialize] on an initialized engine changes nothing, and an
    engine it returned normally from is initialized, so that a second call
    changes nothing; it never touches the clock or the trace; when it
    raises, the error is the simulator's and the engine stays
    uninitialized.  The simulator can be started more than once: when
    [init] returns and [new_episode] raises, the engine keeps the started
    handle and stays uninitialized, and the next [initialize] calls [init]
    on that handle again. *)
Theorem initialize_outcomes
  (G : Type) (doom : DoomGame G) (e : DoomEngine.t G) (w : World) :
  snd (DoomEngine.initialize e w) = w
  /\ (DoomEngine.initialized e = true ->
      DoomEngine.initialize e w = (Ok tt, e, w))
  /\ (fst (fst (DoomEngine.initialize e w)) = Ok tt ->
      let e1 := snd (fst (DoomEngine.initialize e w)) in
      DoomEngine.initialized e1 = true
      /\ DoomEngine.initialize e1 w = (Ok tt, e1, w))
  /\ (fst (fst (DoomEngine.initialize e w)) <> Ok tt ->
      fst (fst (DoomEngine.initialize e w)) = Raise DoomError
      /\ DoomEngine.initialized (snd (fst (DoomEngine.initialize e w)))
         = false)
  /\ (forall g : G,
         DoomEngine.initialized e = false ->
         init (DoomEngine.game e) = Some g ->
         new_episode g = None ->
         let e1 := snd (fst (DoomEngine.initialize e w)) in
         fst (fst (DoomEngine.initialize e w)) = Raise DoomError
         /\ DoomEngine.initialized e1 = false
         /\ DoomEngine.game e1 = g
         /\ forall g' : G,
              init g = Some g' -> new_episode g' = None ->
              DoomEngine.game (snd (fst (DoomEngine.initialize e1 w))) = g').
Proof.
  split; [apply initialize_quiet |].
  split; [apply initialize_done |].
  split; [| split].
  - destruct (DoomEngine.initialized e) eqn:Hi.
    + rewrite (initialize_done e w Hi). simpl. intros _.
      split; [assumption | now apply initialize_done].
    + rewrite (initialize_fresh e w Hi).
      destruct (init (DoomEngine.game e)) as [g |]; [| discriminate].
      destruct (new_episode g) as [g' |]; [| discriminate].
      simpl. intros _. split; [reflexivity | now apply initialize_done].
  - destruct (DoomEngine.initialized e) eqn:Hi.
    + rewrite (initialize_done e w Hi). simpl. intros H. now elim H.
    + rewrite (initialize_fresh e w Hi).
      destruct (init (DoomEngine.game e)) as [g |]; [| now split].
      destruct (new_episode g) as [g' |]; simpl; [| now split].
      intros H. now elim H.
  - intros g Hi Hinit Hepisode.
    rewrite (initialize_fresh e w Hi), Hinit, Hepisode. simpl.
    split; [reflexivity |]. split; [exact Hi |]. split; [reflexivity |].
    intros g' Hinit' Hepisode'.
    rewrite initialize_fresh by exact Hi. simpl.
    now rewrite Hinit', Hepisode'.
Qed.

Lemma initialize_outcomes_witness :
  DoomEngine.initialize
    (snd (fst (DoomEngine.initialize
                 (@DoomEngine.new Toy.game _ None) (Toy.world 0))))
    (Toy.world 0)
  = (Ok tt,
     snd (fst (DoomEngine.initialize
                 (@DoomEngine.new Toy.game _ None) (Toy.world 0))),
     Toy.world 0)
  /\ (let e1 :=
        snd (fst (DoomEngine.initialize
                    (@DoomEngine.new Stalled.game _ None) (Toy.world 0))) in
      fst (fst (DoomEngine.initialize
                  (@DoomEngine.new Stalled.game _ None) (Toy.world 0)))
        = Raise DoomError
      /\ DoomEngine.initialized e1 = false
      /\ Stalled.inits (DoomEngine.game e1) = 1%nat
      /\ Stalled.inits
           (DoomEngine.game
              (snd (fst (DoomEngine.initialize e1 (Toy.world 0))))) = 2%nat).
Proof.
  split.
  - apply (proj1 (proj2 (initialize_outcomes Toy.game _
             (snd (fst (DoomEngine.initialize
                          (@DoomEngine.new Toy.game _ None) (Toy.world 0))))
             (Toy.world 0)))).
    reflexivity.
  - assert (Hinit : init (DoomEngine.game (@DoomEngine.new Stalled.game _ None))
                    = Some {| Stalled.inits := 1 |}) by reflexivity.
    assert (Hepisode : new_episode {| Stalled.inits := 1 |} = None)
      by reflexivity.
    destruct (proj2 (proj2 (proj2 (proj2
               (initialize_outcomes Stalled.game _
                  (@DoomEngine.new Stalled.game _ None) (Toy.world 0)))))
               {| Stalled.inits := 1 |} eq_refl Hinit Hepisode)
      as (Hraise & Hflag & Hgame & Hagain).
    split; [exact Hraise |]. split; [exact Hflag |].
    split; [now rewrite Hgame |].
    assert (Hinit' : init {| Stalled.inits := 1 |}
                     = Some {| Stalled.inits := 2 |}) by reflexivity.
    assert (Hepisode' : new_episode {| Stalled.inits := 2 |} = None)
      by reflexivity.
    now rewrite (Hagain {| Stalled.inits := 2 |} Hinit' Hepisode').
Defined.

Ltac split_action action :=
  repeat match goal with
         | |- context [(action =? ?s)%string] =>
             destruct (action =? s)%string
         end.

(** X4: on an initialized engine an input that names no button (any
    string outside the table, and [weapon_switch], whose handler is empty)
    and a [shoot] without ammunition reach the simulator with no action:
    the engine is as before and nothing is raised. *)
Theorem engine_handle_input_ignored
  (G : Type) (doom : DoomGame G) (action : string)
  (e : DoomEngine.t G) (w : World) :
  DoomEngine.initialized e = true ->
  button_of_action action = None
  \/ (action = "shoot"%string
      /\ GameState.ammo (DoomEngine.game_state e) <= 0) ->
  DoomEngine.handle_input action e w = (Ok tt, e, w).
Proof.
  intros Hi Hcase. unfold DoomEngine.handle_input. unfold bind at 1.
  rewrite ensure_initialized_done by assumption.
  destruct Hcase as [Hnone | [-> Hammo]].
  - unfold button_of_action in Hnone. revert Hnone.
    split_action action; intros Hnone; try discriminate; reflexivity.
  - simpl. unfold DoomEngine._shoot, bind, get.
    destruct (_ >? 0) eqn:E; [lia | reflexivity].
Qed.

Lemma engine_handle_input_ignored_witness :
  let e := snd (fst (DoomEngine.initialize
                       (@DoomEngine.new Toy.game _ None) (Toy.world 0))) in
  DoomEngine.handle_input "jump" e (Toy.world 0) = (Ok tt, e, Toy.world 0)
  /\ DoomEngine.handle_input "weapon_switch" e (Toy.world 0) =
       (Ok tt, e, Toy.world 0).
Proof.
  split;
    apply (engine_handle_input_ignored Toy.game _); try reflexivity;
    left; reflexivity.
Defined.

(** X5: on an initialized engine an input that names a button makes one
    [make_action] call whose list holds 1 at the place that button has in
    the order in which [setup_game] made the buttons available, and 0
    elsewhere ([shoot] only with ammunition left); [setup_game] makes
    exactly the calls of [setup_calls]. *)
Theorem engine_handle_input_presses
  (G : Type) (doom : DoomGame G) (action : string) (b : Button)
  (e : DoomEngine.t G) (w : World) :
  DoomEngine.initialized e = true ->
  button_of_action action = Some b ->
  (b = ATTACK -> 0 < GameState.ammo (DoomEngine.game_state e)) ->
  DoomEngine.handle_input action e w =
    (Ok tt,
     DoomEngine.set_game
       (make_action
          (press b (available_buttons (setup_calls (DoomEngine.wad_path e))))
          (DoomEngine.game e)) e,
     w)
  /\ forall (wad : string) (g : G),
       DoomEngine.setup_game wad g =
       fold_left (fun g0 c => configure c g0) (setup_calls wad) g.
Proof.
  intros Hi Hb Hammo. split; [| reflexivity].
  unfold DoomEngine.handle_input. unfold bind at 1.
  rewrite ensure_initialized_done by assumption.
  unfold button_of_action in Hb. revert Hb Hammo.
  split_action action; intros Hb Hammo; try discriminate;
    injection Hb as <-; try reflexivity.
  unfold DoomEngine._shoot, bind, get.
  destruct (_ >? 0) eqn:E; [reflexivity |].
  specialize (Hammo eq_refl). lia.
Qed.

Lemma engine_handle_input_presses_witness :
  let e := snd (fst (DoomEngine.initialize
                       (@DoomEngine.new Toy.game _ None) (Toy.world 0))) in
  Toy.actions
    (DoomEngine.game
       (snd (fst (DoomEngine.handle_input "shoot" e (Toy.world 0))))) =
  [[0; 0; 0; 0; 1; 0]].
Proof.
  intros e.
  rewrite (proj1 (engine_handle_input_presses Toy.game _ "shoot" ATTACK e
                    (Toy.world 0) eq_refl eq_refl
                    ltac:(intros _; reflexivity))).
  reflexivity.
Defined.

Lemma from_dict_absorbs (data : PyDict) :
  fold_left
    (fun acc kv =>
       match acc with
       | Some s => GameState.with_field (fst kv) (snd kv) s
       | None => None
       end)
    data None = None.
Proof. induction data as [| kv data IH]; simpl; auto. Qed.

Lemma with_field_unknown (k : string) (v : PyVal) (s : GameState.t) :
  ~ In k GameState_fields -> GameState.with_field k v s = None.
Proof.
  intros Hk. unfold GameState.with_field.
  assert (Hne : forall f, In f GameState_fields -> (k =? f)%string = false).
  { intros f Hf. apply String.eqb_neq. intros ->. contradiction. }
  destruct v; rewrite ?Hne by (simpl; tauto); reflexivity.
Qed.

(** X6: a saved state that holds a key that is no field of [GameState] is
    refused: [from_dict] fails, and [load_state] raises [TypeError] and
    leaves the engine, its [game_state] included, as it was. *)
Theorem load_state_unknown_key
  (G : Type) (doom : DoomGame G) (data : PyDict)
  (e : DoomEngine.t G) (w : World) :
  (exists kv, In kv data /\ ~ In (fst kv) GameState_fields) ->
  GameState.from_dict data = None
  /\ DoomEngine.load_state data e w = (Raise TypeError, e, w).
Proof.
  intros (kv & Hin & Hk).
  assert (H : GameState.from_dict data = None).
  { unfold GameState.from_dict. generalize (Some GameState.default).
    induction data as [| kv0 data IH]; [contradiction |].
    intros acc. simpl. destruct Hin as [-> | Hin].
    - destruct acc as [s |]; [| apply from_dict_absorbs].
      rewrite with_field_unknown by assumption. apply from_dict_absorbs.
    - now apply IH. }
  split; [exact H |]. unfold DoomEngine.load_state. now rewrite H.
Qed.

Lemma load_state_unknown_key_witness :
  GameState.from_dict
    (GameState.to_dict GameState.default ++ [("lives"%string, PyInt 3)])
  = None.
Proof.
  apply (load_state_unknown_key Toy.game _
           (GameState.to_dict GameState.default ++ [("lives"%string, PyInt 3)])
           (DoomEngine.new None) (Toy.world 0)).
  exists ("lives"%string, PyInt 3). split.
  - apply in_or_app. right. now left.
  - simpl. intros H. repeat (destruct H as [H | H]; [discriminate |]).
    exact H.
Defined.

(** ** GameSession: debounce, throttling, frames *)

Section SessionFacts.
Context {G : Type} {doom : DoomGame G} {renderer : FrameBuffer.Renderer}.

(** An input on an active session that comes too soon is dropped. *)
Lemma handle_input_dropped (action : string) (s : GameSession.t G)
  (w : World) :
  GameSession.active s = true ->
  (Float64.sub (clock w (reads w)) (GameSession.last_input_time s)
     < Settings.REACTION_RATE_LIMIT)%Q ->
  GameSession64.handle_input action s w =
  (Ok tt, s, {| clock := clock w; reads := S (reads w); trace := trace w |}).
Proof.
  intros Ha Hsoon. apply Qltb_true in Hsoon.
  unfold GameSession64.handle_input, bind, get, time_time.
  rewrite Ha. simpl. now rewrite Hsoon.
Qed.

(** An input on an active session that comes late enough is stamped and
    handed to the engine. *)
Lemma handle_input_accepted (action : string) (s : GameSession.t G)
  (w : World) :
  GameSession.active s = true ->
  (Settings.REACTION_RATE_LIMIT
     <= Float64.sub (clock w (reads w)) (GameSession.last_input_time s))%Q ->
  exists r e',
    GameSession64.handle_input action s w =
    (r,
     GameSession.set_engine e'
       (GameSession.set_last_input_time (clock w (reads w)) s),
     {| clock := clock w; reads := S (reads w); trace := trace w |})
    /\ fst (DoomEngine.handle_input action (GameSession.engine s)
              {| clock := clock w; reads := S (reads w); trace := trace w |})
       = (r, e').
Proof.
  intros Ha Hlate. apply Qltb_false in Hlate.
  unfold GameSession64.handle_input, bind, get, time_time, modify, within.
  rewrite Ha. simpl. rewrite Hlate. simpl.
  pose proof (engine_handle_input_quiet action (GameSession.engine s)
    {| clock := clock w; reads := S (reads w); trace := trace w |}) as Hq.
  destruct (DoomEngine.handle_input action (GameSession.engine s) _)
    as [[r e'] w']. simpl in Hq. subst w'.
  exists r, e'. now split.
Qed.

(** An engine [update] that returns has stored the simulator's frame. *)
Lemma engine_update_ok (dt : Q) (e e1 : DoomEngine.t G) (w w1 : World) :
  DoomEngine.update dt e w = (Ok tt, e1, w1) ->
  w1 = w
  /\ DoomEngine.frame_buffer e1 = Some (screen_buffer (DoomEngine.game e1)).
Proof.
  intros Hrun. pose proof (engine_update_quiet dt e w) as Hq.
  rewrite Hrun in Hq. simpl in Hq. split; [exact Hq |].
  unfold DoomEngine.update, bind, modify in Hrun.
  destruct (DoomEngine.ensure_initialized e w) as [[[u | x] e0] w0];
    [| discriminate].
  injection Hrun as <- _. reflexivity.
Qed.

(** A permitted [update] that returns. *)
Lemma update_permitted (dt : Q) (s : GameSession.t G) (w : World) :
  GameSession.active s = true ->
  fst (RateLimiter64.can_update (clock w (reads w))
         (GameSession.rate_limiter s)) = true ->
  fst (fst (GameSession64.update dt s w)) = Ok tt ->
  exists e1,
    GameSession64.update dt s w =
    (Ok tt,
     GameSession.set_rate_limiter
       (RateLimiter.record_update (clock w (S (reads w)))
          (snd (RateLimiter64.can_update (clock w (reads w))
                  (GameSession.rate_limiter s))))
       (GameSession.set_engine e1 s),
     {| clock := clock w; reads := S (S (reads w)); trace := trace w |})
    /\ DoomEngine.frame_buffer e1 = Some (screen_buffer (DoomEngine.game e1)).
Proof.
  intros Ha Hok.
  unfold GameSession64.update, GameSession64.limiter_can_update,
    GameSession.limiter_record_update, bind, get, time_time, modify,
    within, ret.
  rewrite Ha. simpl.
  destruct (RateLimiter64.can_update (clock w (reads w))
              (GameSession.rate_limiter s)) as [ok r] eqn:Hcu.
  simpl in Hok. subst ok. simpl.
  destruct (DoomEngine.update dt (GameSession.engine s)
              {| clock := clock w; reads := S (reads w); trace := trace w |})
    as [[[[] | x] e1] w1] eqn:Hup; simpl; [| discriminate].
  intros _. destruct (engine_update_ok _ _ _ _ _ Hup) as [-> Hfb].
  exists e1. split; [reflexivity | exact Hfb].
Qed.

(** An [update] on an active session that the limiter refuses. *)
Lemma update_refused (dt : Q) (s : GameSession.t G) (w : World) :
  GameSession.active s = true ->
  fst (RateLimiter64.can_update (clock w (reads w))
         (GameSession.rate_limiter s)) = false ->
  GameSession64.update dt s w =
  (Ok tt,
   GameSession.set_rate_limiter
     (snd (RateLimiter64.can_update (clock w (reads w))
             (GameSession.rate_limiter s))) s,
   {| clock := clock w; reads := S (reads w); trace := trace w |}).
Proof.
  intros Ha Hno.
  unfold GameSession64.update, GameSession64.limiter_can_update, bind, get,
    time_time, modify, ret.
  rewrite Ha. simpl.
  destruct (RateLimiter64.can_update (clock w (reads w))
              (GameSession.rate_limiter s)) as [ok r].
  simpl in Hno. subst ok. reflexivity.
Qed.
End SessionFacts.

(** X7: the debounce of [handle_input], on floats: after an input accepted
    on an active session at one clock reading, an input at a reading whose
    float difference from the first is less than REACTION_RATE_LIMIT is
    dropped: the session and its engine stay as the first input left
    them, and only the clock has been read.  The float difference is below
    the limit whenever the exact one is at most
    [REACTION_RATE_LIMIT - 2 ** -55], the greatest float below the limit. *)
Theorem handle_input_debounce
  (G : Type) (doom : DoomGame G) (renderer : FrameBuffer.Renderer)
  (a1 a2 : string) (s : GameSession.t G) (w : World) :
  GameSession.active s = true ->
  (Settings.REACTION_RATE_LIMIT
     <= Float64.sub (clock w (reads w)) (GameSession.last_input_time s))%Q ->
  (Float64.sub (clock w (S (reads w))) (clock w (reads w))
     < Settings.REACTION_RATE_LIMIT)%Q
  \/ (clock w (S (reads w)) - clock w (reads w)
        <= Settings.REACTION_RATE_LIMIT - (1 # 2) ^ 55)%Q ->
  let s1 := snd (fst (GameSession64.handle_input a1 s w)) in
  let w1 := snd (GameSession64.handle_input a1 s w) in
  GameSession.last_input_time s1 = clock w (reads w)
  /\ GameSession64.handle_input a2 s1 w1 =
       (Ok tt, s1,
        {| clock := clock w; reads := S (S (reads w)); trace := trace w |}).
Proof.
  intros Ha Hlate Hsoon s1 w1.
  assert (Hlt : (Float64.sub (clock w (S (reads w))) (clock w (reads w))
                   < Settings.REACTION_RATE_LIMIT)%Q).
  { destruct Hsoon as [H | H]; [exact H |].
    apply (sub_below _ _ _ _ H); [vm_compute; discriminate |].
    apply round_below_reaction_limit. }
  destruct (handle_input_accepted a1 s w Ha Hlate) as (r & e' & Hrun & _).
  unfold s1, w1. rewrite Hrun. simpl. split; [reflexivity |].
  now rewrite handle_input_dropped.
Qed.

Lemma handle_input_debounce_witness :
  let s := Toy.returned (fst (fst Toy.joined)) in
  let w := {| clock := fun n => (inject_Z (Z.of_nat n) * (1 # 8) + 5)%Q;
              reads := 0; trace := [] |} in
  Toy.actions
    (DoomEngine.game
       (GameSession.engine
          (snd (fst (GameSession64.handle_input "left"
                       (snd (fst (GameSession64.handle_input "forward" s w)))
                       (snd (GameSession64.handle_input "forward" s w)))))))
  = [[1; 0; 0; 0; 0; 0]].
Proof.
  intros s w.
  assert (Hlate : (Settings.REACTION_RATE_LIMIT
                     <= Float64.sub (clock w (reads w))
                          (GameSession.last_input_time s))%Q)
    by (vm_compute; discriminate).
  assert (Hsoon : (Float64.sub (clock w (S (reads w))) (clock w (reads w))
                     < Settings.REACTION_RATE_LIMIT)%Q
                  \/ (clock w (S (reads w)) - clock w (reads w)
                        <= Settings.REACTION_RATE_LIMIT - (1 # 2) ^ 55)%Q)
    by (right; vm_compute; discriminate).
  rewrite (proj2 (handle_input_debounce Toy.game _ _ "forward" "left" s w
                    eq_refl Hlate Hsoon)).
  vm_compute. reflexivity.
Defined.

(** Two inputs whose readings, [2 ** -60] and [0.25], are less than
    REACTION_RATE_LIMIT apart: the float difference is [0.25], and the
    second input reaches the engine. *)
Example handle_input_at_rounded_limit :
  let s := GameSession.set_last_input_time (-1)
             (Toy.returned (fst (fst Toy.joined))) in
  let w := {| clock := fun n => match n with
                                | O => ((1 # 2) ^ 60)%Q
                                | _ => (1 # 4)%Q
                                end;
              reads := 0; trace := [] |} in
  (clock w 1 - clock w 0 < Settings.REACTION_RATE_LIMIT)%Q
  /\ Toy.actions
       (DoomEngine.game
          (GameSession.engine
             (snd (fst (GameSession64.handle_input "left"
                          (snd (fst (GameSession64.handle_input "forward" s w)))
                          (snd (GameSession64.handle_input "forward" s w)))))))
     = [[1; 0; 0; 0; 0; 0]; [0; 0; 1; 0; 0; 0]].
Proof. vm_compute. split; reflexivity. Qed.

(** X8: the throttle of [update], on floats: when an update on an active
    session is permitted and returns, the engine holds the simulator's
    frame and the limiter has recorded the clock reading made after the
    engine call; an update at a reading whose float difference from the
    recorded one is less than MESSAGE_RATE_LIMIT returns without touching
    the engine or the recorded time, after one reading of the clock.  The
    float difference is below the limit whenever the exact one is at most
    [MESSAGE_RATE_LIMIT - 2 ** -53]. *)
Theorem update_then_throttled
  (G : Type) (doom : DoomGame G) (renderer : FrameBuffer.Renderer)
  (dt dt' : Q) (s : GameSession.t G) (w : World) :
  GameSession.active s = true ->
  fst (RateLimiter64.can_update (clock w (reads w))
         (GameSession.rate_limiter s)) = true ->
  fst (fst (GameSession64.update dt s w)) = Ok tt ->
  (Float64.sub (clock w (S (S (reads w)))) (clock w (S (reads w)))
     < Settings.MESSAGE_RATE_LIMIT)%Q
  \/ (clock w (S (S (reads w))) - clock w (S (reads w))
        <= Settings.MESSAGE_RATE_LIMIT - (1 # 2) ^ 53)%Q ->
  let s1 := snd (fst (GameSession64.update dt s w)) in
  let w1 := snd (GameSession64.update dt s w) in
  let s2 := snd (fst (GameSession64.update dt' s1 w1)) in
  DoomEngine.frame_buffer (GameSession.engine s1) =
    Some (screen_buffer (DoomEngine.game (GameSession.engine s1)))
  /\ RateLimiter.last_update (GameSession.rate_limiter s1) =
       clock w (S (reads w))
  /\ reads w1 = S (S (reads w))
  /\ GameSession64.update dt' s1 w1 =
       (Ok tt, s2,
        {| clock := clock w; reads := S (S (S (reads w)));
           trace := trace w |})
  /\ GameSession.engine s2 = GameSession.engine s1
  /\ RateLimiter.last_update (GameSession.rate_limiter s2) =
       clock w (S (reads w)).
Proof.
  intros Ha Hok Hret Hsoon.
  assert (Hlt : (Float64.sub (clock w (S (S (reads w))))
                   (clock w (S (reads w))) < Settings.MESSAGE_RATE_LIMIT)%Q).
  { destruct Hsoon as [H | H]; [exact H |].
    apply (sub_below _ _ _ _ H); [vm_compute; discriminate |].
    apply round_below_message_limit. }
  destruct (update_permitted dt s w Ha Hok Hret) as (e1 & Hrun & Hfb).
  intros s1 w1 s2. unfold s2, s1, w1. rewrite Hrun. simpl.
  split; [exact Hfb |]. split; [reflexivity |]. split; [reflexivity |].
  set (r1 := RateLimiter.record_update _ _).
  set (s1' := GameSession.set_rate_limiter r1 _).
  set (w1' := {| clock := clock w; reads := S (S (reads w));
                 trace := trace w |}).
  assert (Hno : fst (RateLimiter64.can_update (clock w1' (reads w1'))
                       (GameSession.rate_limiter s1')) = false).
  { simpl.
    destruct (fst (RateLimiter64.can_update (clock w (S (S (reads w)))) r1))
      eqn:Hv; [| reflexivity].
    apply can_update64_true in Hv. unfold r1 in Hv. simpl in Hv. lra. }
  rewrite (update_refused dt' s1' w1' Ha Hno). simpl.
  split; [reflexivity |]. split; [reflexivity |].
  apply can_update64_last_update.
Qed.

Lemma update_then_throttled_witness :
  let s := Toy.returned (fst (fst Toy.joined)) in
  let w := {| clock := fun n => (inject_Z (Z.of_nat n) * (1 # 2) + 1000)%Q;
              reads := 0; trace := [] |} in
  RateLimiter.update_count
    (GameSession.rate_limiter
       (snd (fst (GameSession64.update 1
                    (snd (fst (GameSession64.update 1 s w)))
                    (snd (GameSession64.update 1 s w)))))) = 1
  /\ GameSession.engine
       (snd (fst (GameSession64.update 1
                    (snd (fst (GameSession64.update 1 s w)))
                    (snd (GameSession64.update 1 s w)))))
     = GameSession.engine (snd (fst (GameSession64.update 1 s w))).
Proof.
  intros s w. split; [vm_compute; reflexivity |].
  assert (Hok : fst (RateLimiter64.can_update (clock w (reads w))
                       (GameSession.rate_limiter s)) = true)
    by (vm_compute; reflexivity).
  assert (Hret : fst (fst (GameSession64.update 1 s w)) = Ok tt)
    by (vm_compute; reflexivity).
  assert (Hsoon : (Float64.sub (clock w (S (S (reads w))))
                     (clock w (S (reads w))) < Settings.MESSAGE_RATE_LIMIT)%Q
                  \/ (clock w (S (S (reads w))) - clock w (S (reads w))
                        <= Settings.MESSAGE_RATE_LIMIT - (1 # 2) ^ 53)%Q)
    by (left; vm_compute; reflexivity).
  apply (update_then_throttled Toy.game _ _ 1 1 s w eq_refl Hok Hret Hsoon).
Defined.

(** A reading of [1.0] after an update recorded at [2 ** -60]: less than
    MESSAGE_RATE_LIMIT later, and the update is permitted, for the float
    difference is [1.0]. *)
Example update_at_rounded_limit :
  let s := Toy.returned (fst (fst Toy.joined)) in
  let r := RateLimiter.record_update ((1 # 2) ^ 60) RateLimiter.init in
  let w := {| clock := fun _ => 1%Q; reads := 0; trace := [] |} in
  (clock w 0 - RateLimiter.last_update r < Settings.MESSAGE_RATE_LIMIT)%Q
  /\ RateLimiter.update_count
       (GameSession.rate_limiter
          (snd (fst (GameSession64.update 1
                       (GameSession.set_rate_limiter r s) w)))) = 2.
Proof. vm_compute. split; reflexivity. Qed.

(** X9: [stop] is not final: [start] on a stopped session whose engine is
    initialized only sets [active] again, without a second start of the
    simulator, so that [stop] followed by [start] gives back the active
    session as it was. *)
Theorem stop_then_start
  (G : Type) (doom : DoomGame G) (renderer : FrameBuffer.Renderer)
  (s : GameSession.t G) (w : World) :
  GameSession.active s = true ->
  DoomEngine.initialized (GameSession.engine s) = true ->
  GameSession.start (snd (fst (GameSession.stop s w))) w = (Ok tt, s, w).
Proof.
  intros Ha Hi. rewrite stop_effect. simpl.
  unfold GameSession.start, bind, within, modify. simpl.
  rewrite (initialize_done (GameSession.engine s) w Hi).
  destruct s as [uid e fb mid cid lu act rl lit]. simpl in *.
  subst act. reflexivity.
Qed.

Lemma stop_then_start_witness :
  let s := Toy.returned (fst (fst Toy.joined)) in
  GameSession.start (snd (fst (GameSession.stop s (Toy.world 0)))) (Toy.world 0)
  = (Ok tt, s, Toy.world 0).
Proof.
  intros s. apply (stop_then_start Toy.game _ _ s (Toy.world 0));
    reflexivity.
Defined.



(** ** SessionManager: lookups, removal, failure to start *)

Section DictMore.
Context {V : Type}.
Implicit Types (d : Dict.t V) (k : Z) (v : V).

Lemma dict_get_del k k' d :
  Dict.get k' (Dict.del k d) = if k' =? k then None else Dict.get k' d.
Proof.
  unfold Dict.get, Dict.del.
  induction d as [| [k0 v0] d IH]; simpl.
  - now destruct (k' =? k).
  - destruct (k0 =? k) eqn:E; simpl.
    + apply Z.eqb_eq in E. subst k0. rewrite IH.
      destruct (k' =? k) eqn:E1; [reflexivity |].
      rewrite Z.eqb_sym, E1. reflexivity.
    + destruct (k0 =? k') eqn:E1; simpl.
      * apply Z.eqb_eq in E1. subst k0. rewrite E. reflexivity.
      * exact IH.
Qed.

Lemma dict_get_set k k' v d :
  Dict.get k' (Dict.set k v d) = if k' =? k then Some v else Dict.get k' d.
Proof.
  destruct (k' =? k) eqn:E.
  - apply Z.eqb_eq in E. subst k'. apply dict_get_set_same.
  - apply Z.eqb_neq in E. now apply dict_get_set_other.
Qed.
End DictMore.

Section ManagerMore.
Context {G : Type} {doom : DoomGame G} {renderer : FrameBuffer.Renderer}.

(** [start] on a new session raises nothing but the simulator's error. *)
Lemma start_new_raise (uid : Z) (m m' : SessionManager.t G) (w w' : World)
  (e : Exn) :
  on_local (GameSession.new uid) GameSession.start m w = (Raise e, m', w') ->
  e = DoomError /\ m' = m /\ w' = w.
Proof.
  cbv beta iota delta [on_local GameSession.start within bind
    DoomEngine.initialize DoomEngine.game_call get modify ret].
  simpl.
  match goal with |- context [init ?g0] =>
    destruct (init g0) as [g |] end; simpl.
  - destruct (new_episode g) as [g' |]; simpl; [discriminate |].
    intros H. injection H as <- <- <-. now repeat split.
  - intros H. injection H as <- <- <-. now repeat split.
Qed.

(** What [create_session] has done when it raises. *)
Lemma create_session_raise (uid : Z) (m m' : SessionManager.t G)
  (w w' : World) (e : Exn) :
  SessionManager.create_session uid m w = (Raise e, m', w') ->
  e = DoomError
  /\ SessionManager.sessions m' =
       match Dict.get uid (SessionManager.sessions m) with
       | Some v =>
           Dict.set uid (GameSession.set_active false v)
             (SessionManager.sessions m)
       | None => SessionManager.sessions m
       end
  /\ SessionManager.last_cleanup m' = SessionManager.last_cleanup m
  /\ trace w' =
       trace w ++ (if Dict.contains uid (SessionManager.sessions m)
                   then [CallStop uid] else []).
Proof.
  unfold SessionManager.create_session.
  unfold bind at 1. unfold get at 1.
  destruct (Dict.contains uid (SessionManager.sessions m)) eqn:Hc.
  - destruct (dict_contains_get _ _ Hc) as [v Hv].
    unfold bind at 1. rewrite (stop_registered_eq uid m w v Hv).
    unfold bind at 1.
    match goal with |- context [on_local ?a ?b ?c ?d] =>
      destruct (on_local a b c d) as [[[s0 | e0] m1] w1] eqn:Hol end.
    + unfold bind, emit, modify, ret. simpl. discriminate.
    + intros H. injection H as <- <- <-.
      destruct (start_new_raise _ _ _ _ _ _ Hol) as (-> & -> & ->).
      rewrite Hv. now repeat split.
  - unfold bind at 1. unfold ret at 1. unfold bind at 1.
    match goal with |- context [on_local ?a ?b ?c ?d] =>
      destruct (on_local a b c d) as [[[s0 | e0] m1] w1] eqn:Hol end.
    + unfold bind, emit, modify, ret. simpl. discriminate.
    + intros H. injection H as <- <- <-.
      destruct (start_new_raise _ _ _ _ _ _ Hol) as (-> & -> & ->).
      rewrite (dict_not_contains_get _ _ Hc), app_nil_r. now repeat split.
Qed.
End ManagerMore.

(** X11: [end_session] always returns; afterwards a lookup of that user
    finds nothing and a lookup of any other user finds what it found
    before; a second [end_session] for the same user changes nothing. *)
Theorem end_session_removes
  (G : Type) (doom : DoomGame G) (renderer : FrameBuffer.Renderer)
  (uid : Z) (m : SessionManager.t G) (w : World) :
  let m' := snd (fst (SessionManager.end_session uid m w)) in
  let w' := snd (SessionManager.end_session uid m w) in
  fst (fst (SessionManager.end_session uid m w)) = Ok tt
  /\ (forall k,
        SessionManager.get_session k m' w' =
        (Ok (if k =? uid then None
             else Dict.get k (SessionManager.sessions m)), m', w'))
  /\ SessionManager.end_session uid m' w' = (Ok tt, m', w').
Proof.
  intros m' w'.
  pose proof (end_session_effect uid m w) as H.
  unfold m', w'.
  destruct (SessionManager.end_session uid m w) as [[r m1] w1].
  destruct H as (-> & Hs & _). simpl.
  split; [reflexivity |]. split.
  - intros k. unfold SessionManager.get_session, bind, get, ret.
    now rewrite Hs, dict_get_del.
  - unfold SessionManager.end_session, bind, get, ret.
    rewrite Hs, dict_contains_del, Z.eqb_refl. reflexivity.
Qed.

(** X12: when [create_session] returns, a lookup of the user finds the
    session returned, a lookup of any other user finds what it found
    before, and the registry keeps its order: a user who had a session
    keeps the place, a new user goes last. *)
Theorem create_session_then_lookup
  (G : Type) (doom : DoomGame G) (renderer : FrameBuffer.Renderer)
  (uid : Z) (m m' : SessionManager.t G) (w w' : World) (s : GameSession.t G) :
  SessionManager.create_session uid m w = (Ok s, m', w') ->
  (forall k,
      SessionManager.get_session k m' w' =
      (Ok (if k =? uid then Some s
           else Dict.get k (SessionManager.sessions m)), m', w'))
  /\ Dict.keys (SessionManager.sessions m') =
       (if Dict.contains uid (SessionManager.sessions m)
        then Dict.keys (SessionManager.sessions m)
        else Dict.keys (SessionManager.sessions m) ++ [uid]).
Proof.
  intros Hrun. apply create_session_ok in Hrun.
  destruct Hrun as (Hs & _). split.
  - intros k. unfold SessionManager.get_session, bind, get, ret.
    now rewrite Hs, dict_get_set.
  - rewrite Hs. apply dict_keys_set.
Qed.

Lemma create_session_then_lookup_witness :
  fst (fst (SessionManager.get_session 1
              (snd (fst (SessionManager.create_session 1 Toy.manager1
                           Toy.world1)))
              (snd (SessionManager.create_session 1 Toy.manager1 Toy.world1))))
  = Ok (Some (Toy.returned
                (fst (fst (SessionManager.create_session 1 Toy.manager1
                             Toy.world1))))).
Proof.
  assert (Hrun : SessionManager.create_session 1 Toy.manager1 Toy.world1 =
       (Ok (Toy.returned
              (fst (fst (SessionManager.create_session 1 Toy.manager1
                           Toy.world1)))),
        snd (fst (SessionManager.create_session 1 Toy.manager1 Toy.world1)),
        snd (SessionManager.create_session 1 Toy.manager1 Toy.world1)))
    by (vm_compute; reflexivity).
  rewrite (proj1 (create_session_then_lookup Toy.game _ _ 1 _ _ _ _ _ Hrun) 1).
  reflexivity.
Defined.

(** X13: when the simulator fails to start, [create_session] raises its
    error and registers nothing: the registry has the keys it had and the
    other users' sessions; but the session the user had before has been
    stopped, and stays registered, inactive. *)
Theorem create_session_failure
  (G : Type) (doom : DoomGame G) (renderer : FrameBuffer.Renderer)
  (uid : Z) (m m' : SessionManager.t G) (w w' : World) (e : Exn) :
  SessionManager.create_session uid m w = (Raise e, m', w') ->
  e = DoomError
  /\ Dict.keys (SessionManager.sessions m') =
       Dict.keys (SessionManager.sessions m)
  /\ (forall k,
        Dict.get k (SessionManager.sessions m') =
        if k =? uid
        then option_map (GameSession.set_active false)
               (Dict.get uid (SessionManager.sessions m))
        else Dict.get k (SessionManager.sessions m))
  /\ trace w' =
       trace w ++ (if Dict.contains uid (SessionManager.sessions m)
                   then [CallStop uid] else []).
Proof.
  intros Hrun. apply create_session_raise in Hrun.
  destruct Hrun as (-> & Hs & _ & Ht).
  split; [reflexivity |]. rewrite Hs.
  destruct (Dict.get uid (SessionManager.sessions m)) as [v |] eqn:Hv.
  - split; [| split; [| exact Ht]].
    + rewrite dict_keys_set.
      now rewrite (dict_get_contains _ _ _ Hv).
    + intros k. rewrite dict_get_set. now destruct (k =? uid).
  - split; [reflexivity |]. split; [| exact Ht].
    intros k. destruct (k =? uid) eqn:E; [| reflexivity].
    apply Z.eqb_eq in E. now subst k.
Qed.

Lemma create_session_failure_witness :
  let old := GameSession.set_active true (@GameSession.new Broken.game _ 1) in
  let m := {| SessionManager.sessions := [(1, old)];
              SessionManager.last_cleanup := 0 |} in
  let ran := SessionManager.create_session 1 m (Toy.world 0) in
  fst (fst ran) = Raise DoomError
  /\ Dict.get 1 (SessionManager.sessions (snd (fst ran))) =
       Some (GameSession.set_active false old)
  /\ trace (snd ran) = [CallStop 1].
Proof.
  intros old m ran.
  assert (Hrun : SessionManager.create_session 1 m (Toy.world 0) =
                 (Raise DoomError, snd (fst ran), snd ran))
    by (vm_compute; reflexivity).
  destruct (create_session_failure Broken.game _ _ 1 m _ (Toy.world 0) _ _
              Hrun) as (_ & _ & Hget & Ht).
  split; [vm_compute; reflexivity |]. split.
  - rewrite (Hget 1). reflexivity.
  - rewrite Ht. reflexivity.
Defined.

(** ** SessionManager: what every registry keeps, and the tick *)

Section DictForall.
Context {V : Type}.
Implicit Types (d : Dict.t V) (k : Z) (v : V).

Lemma dict_forall_set (P : Z * V -> Prop) k v d :
  Forall P d -> P (k, v) -> Forall P (Dict.set k v d).
Proof.
  intros Hd Hv. unfold Dict.set. destruct (Dict.contains k d).
  - apply Forall_forall. intros kv Hin. apply in_map_iff in Hin.
    destruct Hin as (kv0 & <- & Hin0).
    destruct (fst kv0 =? k); [assumption |].
    rewrite Forall_forall in Hd. now apply Hd.
  - apply Forall_app. split; [assumption | now constructor].
Qed.

Lemma dict_forall_del (P : Z * V -> Prop) k d :
  Forall P d -> Forall P (Dict.del k d).
Proof.
  intros Hd. apply Forall_forall. intros kv Hin.
  apply filter_In in Hin. rewrite Forall_forall in Hd. now apply Hd.
Qed.

Lemma dict_wf_del k d : Dict.wf d -> Dict.wf (Dict.del k d).
Proof.
  unfold Dict.wf. rewrite dict_keys_del. apply NoDup_filter.
Qed.

Lemma dict_fold_del_keep (ks : list Z) k v d :
  ~ In k ks ->
  fold_left (fun d0 k0 => Dict.del k0 d0) ks ((k, v) :: d) =
  (k, v) :: fold_left (fun d0 k0 => Dict.del k0 d0) ks d.
Proof.
  revert d. induction ks as [| k0 ks IH]; intros d Hk; [reflexivity |].
  simpl fold_left. unfold Dict.del at 2. simpl filter.
  destruct (k =? k0) eqn:E.
  - apply Z.eqb_eq in E. subst k0. exfalso. apply Hk. now left.
  - simpl. apply IH. intros H. apply Hk. now right.
Qed.

Lemma dict_wf_filter_keys (p : Z * V -> bool) d :
  Dict.wf d -> NoDup (map fst (filter p d)).
Proof.
  unfold Dict.wf, Dict.keys.
  induction d as [| [k v] d IH]; intros Hwf; [constructor |].
  simpl in Hwf. inversion Hwf as [| ? ? Hk Hnd]; subst.
  simpl. destruct (p (k, v)); [| now apply IH].
  simpl. constructor; [| now apply IH].
  intros Hin. apply Hk. apply in_map_iff in Hin.
  destruct Hin as (kv & <- & Hin). apply filter_In in Hin.
  apply in_map. apply Hin.
Qed.

(** Deleting the keys of the entries that satisfy [p] from a dict with
    unique keys leaves the entries that do not, in their order. *)
Lemma dict_fold_del_filter (p : Z * V -> bool) d :
  Dict.wf d ->
  fold_left (fun d0 k0 => Dict.del k0 d0) (map fst (filter p d)) d =
  filter (fun kv => negb (p kv)) d.
Proof.
  unfold Dict.wf, Dict.keys.
  induction d as [| [k v] d IH]; intros Hwf; [reflexivity |].
  simpl in Hwf. inversion Hwf as [| ? ? Hk Hnd]; subst.
  simpl filter. destruct (p (k, v)) eqn:Hp; simpl.
  - unfold Dict.del at 2. simpl. rewrite Z.eqb_refl. simpl.
    change (filter (fun kv : Z * V => negb (fst kv =? k)) d)
      with (Dict.del k d).
    rewrite dict_del_absent; [now apply IH |].
    destruct (Dict.contains k d) eqn:E; [| reflexivity].
    apply dict_contains_keys in E. contradiction.
  - rewrite dict_fold_del_keep; [now rewrite IH |].
    intros Hin. apply Hk. apply in_map_iff in Hin.
    destruct Hin as (kv & <- & Hin). apply filter_In in Hin.
    apply in_map. apply Hin.
Qed.
End DictForall.

Section TickFacts.
Context {G : Type} {doom : DoomGame G} {renderer : FrameBuffer.Renderer}.

(** [update] on a session whose engine is initialized returns. *)
Lemma session_update_returns (dt : Q) (s : GameSession.t G) (w : World) :
  DoomEngine.initialized (GameSession.engine s) = true ->
  exists s' w',
    GameSession.update dt s w = (Ok tt, s', w')
    /\ GameSession.user_id s' = GameSession.user_id s
    /\ DoomEngine.initialized (GameSession.engine s') = true
    /\ GameSession.last_update s' = GameSession.last_update s
    /\ trace w' = trace w.
Proof.
  intros Hi.
  pose proof (session_update_silent dt s w) as Hsil.
  pose proof (run_op_keeps_last_update (GameSession.Update dt) s w) as Hlu.
  simpl in Hlu.
  assert (Huid : keeps (@GameSession.user_id G) (GameSession.update dt)).
  { unfold GameSession.update, GameSession.limiter_can_update,
      GameSession.limiter_record_update. repeat keeps_step. }
  specialize (Huid s w).
  assert (Hrun : fst (fst (GameSession.update dt s w)) = Ok tt
                 /\ DoomEngine.initialized
                      (GameSession.engine
                         (snd (fst (GameSession.update dt s w)))) = true).
  { unfold GameSession.update, GameSession.limiter_can_update,
      GameSession.limiter_record_update, bind, get, time_time, modify,
      within, ret.
    destruct (GameSession.active s); simpl; [| now split].
    destruct (RateLimiter.can_update _ _) as [ok r]. simpl.
    destruct ok; simpl; [| now split].
    match goal with |- context [DoomEngine.update dt ?e0 ?w0] =>
      destruct (engine_update_initialized dt e0 w0 Hi)
        as (e1 & -> & Hi1 & _) end.
    simpl. now split. }
  destruct (GameSession.update dt s w) as [[r s'] w']. simpl in *.
  destruct Hrun as [-> Hi']. exists s', w'. now repeat split.
Qed.

(** The update pass over sessions whose engines are initialized. *)
Lemma update_sessions_returns (dt : Q) (d : Dict.t (GameSession.t G)) :
  forall w : World,
    Forall entry_ok d ->
    exists d' w',
      SessionManager.update_sessions dt d w = (Ok tt, d', w')
      /\ Dict.keys d' = Dict.keys d
      /\ Forall entry_ok d'
      /\ trace w' = trace w ++ pass_trace (Dict.keys d).
Proof.
  induction d as [| [uid s] rest IH]; intros w Hall.
  - exists [], w. simpl. rewrite app_nil_r. now repeat split.
  - inversion Hall as [| ? ? Hs Hrest]; subst.
    destruct Hs as (Hu & Hi & Hl). simpl in Hu, Hi, Hl.
    simpl SessionManager.update_sessions.
    unfold bind at 1. unfold emit at 1. unfold bind at 1.
    destruct (session_update_returns dt s
      {| clock := clock w; reads := reads w;
         trace := trace w ++ [CallUpdate uid] |} Hi)
      as (s1 & w1 & -> & Hu1 & Hi1 & Hl1 & Ht1).
    unfold emit. simpl in Ht1.
    match goal with |- context [SessionManager.update_sessions dt rest ?w0] =>
      destruct (IH w0 Hrest) as (d2 & w2 & -> & Hk & Hall2 & Ht2)
    end.
    eexists _, _. split; [reflexivity |]. simpl in Ht2.
    split; [simpl; now rewrite Hk |]. split.
    + constructor; [| assumption]. unfold entry_ok. simpl.
      repeat split; congruence.
    + rewrite Ht2, Ht1. unfold pass_trace. simpl.
      now rewrite <- !app_assoc.
Qed.

(** What the sweep leaves in the registry. *)
Lemma sweep_sessions (ks : list Z) :
  forall (m : SessionManager.t G) (w : World),
    SessionManager.sessions
      (snd (fst (for_each ks SessionManager.end_session m w))) =
      fold_left (fun d k => Dict.del k d) ks (SessionManager.sessions m)
    /\ SessionManager.last_cleanup
         (snd (fst (for_each ks SessionManager.end_session m w))) =
       SessionManager.last_cleanup m.
Proof.
  induction ks as [| k0 ks IH]; intros m w; [now split |].
  simpl for_each. unfold bind.
  pose proof (end_session_effect k0 m w) as H0.
  destruct (SessionManager.end_session k0 m w) as [[r0 m0] w0].
  destruct H0 as (-> & Hs0 & Hc0 & _).
  destruct (IH m0 w0) as [H1 H2]. simpl fold_left.
  rewrite <- Hs0, <- Hc0. now split.
Qed.

(** A whole tick on a registry that satisfies [registered_ok]. *)
Lemma update_all_tick (dt : Q) (m : SessionManager.t G) (w : World) :
  registered_ok m ->
  let now := clock w (reads w) in
  let due := Qle_bool 60 (now - SessionManager.last_cleanup m) in
  let kept :=
    if due
    then filter (fun kv => negb (SessionManager.idle now (snd kv)))
           (SessionManager.sessions m)
    else SessionManager.sessions m in
  exists m' w' sweep,
    SessionManager.update_all dt m w = (Ok tt, m', w')
    /\ registered_ok m'
    /\ Dict.keys (SessionManager.sessions m') = Dict.keys kept
    /\ SessionManager.last_cleanup m' =
         (if due then now else SessionManager.last_cleanup m)
    /\ trace w' = trace w ++ sweep ++ pass_trace (Dict.keys kept)
    /\ Forall (sweep_event (Dict.keys (SessionManager.sessions m))) sweep
    /\ (due = false -> sweep = []).
Proof.
  intros [Hwf Hall] now due kept.
  unfold SessionManager.update_all.
  unfold bind at 1. unfold time_time at 1.
  unfold bind at 1. unfold get at 1.
  unfold bind at 1. fold now. fold due.
  destruct due eqn:Hdue.
  - unfold bind at 1. unfold modify at 1.
    set (ks := map fst (filter (fun kv => SessionManager.idle now (snd kv))
                          (SessionManager.sessions m))).
    match goal with
    | |- context [for_each ks SessionManager.end_session ?m1 ?w1] =>
      pose proof (sweep_effect ks m1 w1) as Hsw;
      pose proof (sweep_sessions ks m1 w1) as [Hss Hlc];
      destruct (for_each ks SessionManager.end_session m1 w1) as [[r2 m2] w2]
    end.
    destruct Hsw as (-> & _ & _ & _ & _ & sweep & Ht2 & Hsweep & _).
    simpl in Ht2, Hss, Hlc.
    unfold ks in Hss. rewrite dict_fold_del_filter in Hss by assumption.
    fold kept in Hss.
    assert (Hkept : Forall entry_ok (SessionManager.sessions m2)).
    { rewrite Hss. unfold kept. apply Forall_forall. intros kv Hin.
      apply filter_In in Hin. rewrite Forall_forall in Hall.
      now apply Hall. }
    unfold within.
    destruct (update_sessions_returns dt (SessionManager.sessions m2) w2 Hkept)
      as (d3 & w3 & -> & Hk3 & Hall3 & Ht3).
    eexists _, _, sweep. split; [reflexivity |]. simpl.
    rewrite Hss in Hk3, Ht3.
    split; [| split; [exact Hk3 | split; [exact Hlc |]]].
    + split; simpl; [| exact Hall3].
      unfold Dict.wf. rewrite Hk3. unfold kept, Dict.keys.
      apply (dict_wf_filter_keys _ _ Hwf).
    + split; [rewrite Ht3, Ht2; now rewrite app_assoc |].
      split; [| discriminate].
      revert Hsweep. apply Forall_impl. intros e (k & Hk & He).
      exists k. split; [| exact He].
      unfold ks in Hk. apply in_map_iff in Hk.
      destruct Hk as (kv & <- & Hin). apply filter_In in Hin.
      apply in_map. apply Hin.
  - unfold ret at 1. unfold within.
    destruct (update_sessions_returns dt (SessionManager.sessions m) 
                {| clock := clock w; reads := S (reads w); trace := trace w |}
                Hall)
      as (d3 & w3 & -> & Hk3 & Hall3 & Ht3).
    eexists _, _, []. split; [reflexivity |]. simpl.
    split; [| split; [exact Hk3 | split; [reflexivity |]]].
    + split; simpl; [| exact Hall3]. unfold Dict.wf. now rewrite Hk3.
    + split; [exact Ht3 |]. split; [constructor | reflexivity].
Qed.
End TickFacts.

Section InvariantFacts.
Context {G : Type} {doom : DoomGame G} {renderer : FrameBuffer.Renderer}.

Lemma registered_ok_entry (m : SessionManager.t G) (k : Z)
  (v : GameSession.t G) :
  registered_ok m -> Dict.get k (SessionManager.sessions m) = Some v ->
  GameSession.user_id v = k
  /\ DoomEngine.initialized (GameSession.engine v) = true
  /\ GameSession.last_update v = 0%Q.
Proof.
  intros [_ Hall] Hget. apply dict_get_in in Hget.
  rewrite Forall_forall in Hall. exact (Hall _ Hget).
Qed.

(** The session [start] returned from still has the [last_update] of
    construction. *)
Lemma start_new_last_update (uid : Z) (m m' : SessionManager.t G)
  (w w' : World) (s : GameSession.t G) :
  on_local (GameSession.new uid) GameSession.start m w = (Ok s, m', w') ->
  GameSession.last_update s = 0%Q.
Proof.
  unfold on_local.
  pose proof (run_op_keeps_last_update GameSession.Start
                (GameSession.new uid) w) as Hk.
  simpl in Hk.
  destruct (GameSession.start (GameSession.new uid) w) as [[[u | e] s'] w1];
    [| discriminate].
  intros H. injection H as <- _ _. exact Hk.
Qed.

Lemma create_session_last_update (uid : Z) (m m' : SessionManager.t G)
  (w w' : World) (s : GameSession.t G) :
  SessionManager.create_session uid m w = (Ok s, m', w') ->
  GameSession.last_update s = 0%Q.
Proof.
  unfold SessionManager.create_session.
  unfold bind at 1. unfold get at 1. unfold bind at 1.
  match goal with |- context [(if ?b then ?x else ?y) m w] =>
    destruct ((if b then x else y) m w) as [[[u | e] m0] w0] end;
    [| discriminate].
  unfold bind at 1.
  match goal with |- context [on_local ?a ?b ?c ?d] =>
    destruct (on_local a b c d) as [[[s0 | e0] m1] w1] eqn:Hol end;
    [| discriminate].
  unfold bind, emit, modify, ret. simpl. intros H. injection H as <- _ _.
  exact (start_new_last_update _ _ _ _ _ _ Hol).
Qed.

Lemma create_session_keeps_ok (uid : Z) (m : SessionManager.t G) (w : World) :
  registered_ok m ->
  registered_ok (snd (fst (SessionManager.create_session uid m w))).
Proof.
  intros Hok. pose proof Hok as [Hwf Hall].
  destruct (SessionManager.create_session uid m w) as [[[s | e] m'] w']
    eqn:Hrun; simpl.
  - pose proof (create_session_last_update _ _ _ _ _ _ Hrun) as Hl.
    apply create_session_ok in Hrun.
    destruct Hrun as (Hs & _ & _ & Hi & Hu & _).
    split; rewrite Hs.
    + now apply dict_wf_set.
    + apply dict_forall_set; [assumption | now repeat split].
  - apply create_session_raise in Hrun.
    destruct Hrun as (_ & Hs & _).
    destruct (Dict.get uid (SessionManager.sessions m)) as [v |] eqn:Hv.
    + destruct (registered_ok_entry m uid v Hok Hv) as (Hu & Hi & Hl).
      split; rewrite Hs.
      * now apply dict_wf_set.
      * apply dict_forall_set; [assumption | now repeat split].
    + split; now rewrite Hs.
Qed.

Lemma end_session_keeps_ok (uid : Z) (m : SessionManager.t G) (w : World) :
  registered_ok m ->
  registered_ok (snd (fst (SessionManager.end_session uid m w))).
Proof.
  intros [Hwf Hall].
  pose proof (end_session_effect uid m w) as H.
  destruct (SessionManager.end_session uid m w) as [[r m'] w'].
  destruct H as (_ & Hs & _). simpl. split; rewrite Hs.
  - now apply dict_wf_del.
  - now apply dict_forall_del.
Qed.
End InvariantFacts.

Lemma manager1_ok : registered_ok Toy.manager1.
Proof.
  split.
  - unfold Dict.wf. vm_compute. repeat constructor. intros [].
  - vm_compute. repeat constructor.
Qed.

(** X14: every registry the manager builds has unique keys and holds each
    session under its own user id, with its engine initialized and its
    [last_update] at 0: this holds of the new manager and is kept by
    [create_session] (whether it returns or raises), by [end_session] and
    by [update_all]. *)
Theorem registry_invariant
  (G : Type) (doom : DoomGame G) (renderer : FrameBuffer.Renderer) :
  registered_ok (@SessionManager.new G)
  /\ forall (m : SessionManager.t G) (w : World),
       registered_ok m ->
       (forall uid,
           registered_ok (snd (fst (SessionManager.create_session uid m w))))
       /\ (forall uid,
             registered_ok (snd (fst (SessionManager.end_session uid m w))))
       /\ (forall dt,
             registered_ok (snd (fst (SessionManager.update_all dt m w)))).
Proof.
  split.
  - split; [constructor | constructor].
  - intros m w Hok. split; [| split].
    + intros uid. now apply create_session_keeps_ok.
    + intros uid. now apply end_session_keeps_ok.
    + intros dt.
      destruct (update_all_tick dt m w Hok) as (m' & w' & sw & -> & Hok' & _).
      exact Hok'.
Qed.

Lemma registry_invariant_witness :
  registered_ok Toy.manager1
  /\ registered_ok
       (snd (fst (SessionManager.create_session 1 Toy.manager1 Toy.world1)))
  /\ registered_ok
       (snd (fst (SessionManager.update_all 1 Toy.manager1 Toy.world1))).
Proof.
  split; [exact manager1_ok |].
  destruct (proj2 (registry_invariant Toy.game _ _) Toy.manager1 Toy.world1
              manager1_ok) as (Hcreate & _ & Hupdate).
  split; [apply Hcreate | apply Hupdate].
Defined.

Section DictFilter.
Context {V : Type}.
Implicit Types (d : Dict.t V) (k : Z) (v : V).

Lemma dict_in_get k v d : Dict.wf d -> In (k, v) d -> Dict.get k d = Some v.
Proof.
  unfold Dict.wf, Dict.keys, Dict.get.
  induction d as [| [k0 v0] d IH]; intros Hwf Hin; [contradiction |].
  simpl in Hwf. inversion Hwf as [| ? ? Hk Hnd]; subst.
  simpl. destruct Hin as [E | Hin].
  - injection E as -> ->. now rewrite Z.eqb_refl.
  - destruct (k0 =? k) eqn:E; [| now apply IH].
    apply Z.eqb_eq in E. subst k0. exfalso. apply Hk.
    apply in_map_iff. now exists (k, v).
Qed.

(** The keys a filter keeps are those whose entry passes. *)
Lemma dict_keys_filter (p : Z * V -> bool) k d :
  Dict.wf d ->
  In k (Dict.keys (filter p d)) <->
  exists v, Dict.get k d = Some v /\ p (k, v) = true.
Proof.
  intros Hwf. unfold Dict.keys. rewrite in_map_iff. split.
  - intros ([k0 v] & Hk & Hin). simpl in Hk. subst k0.
    apply filter_In in Hin. destruct Hin as [Hin Hp].
    exists v. split; [now apply dict_in_get | exact Hp].
  - intros (v & Hget & Hp). exists (k, v). split; [reflexivity |].
    apply filter_In. split; [now apply dict_get_in | exact Hp].
Qed.
End DictFilter.

Section TickFacts64.
Context {G : Type} {doom : DoomGame G} {renderer : FrameBuffer.Renderer}.

Lemma session_update64_silent (dt : Q) :
  silent (@GameSession64.update G doom dt).
Proof.
  unfold GameSession64.update, GameSession64.limiter_can_update,
    GameSession.limiter_record_update.
  apply silent_bind; [apply silent_get | intros self].
  apply silent_if; [apply silent_ret |].
  apply silent_bind.
  - apply silent_bind; [apply silent_time | intros ct].
    apply silent_bind; [apply silent_get | intros self'].
    destruct (RateLimiter64.can_update _ _).
    apply silent_bind; [apply silent_modify | intros ?; apply silent_ret].
  - intros ok. apply silent_if; [apply silent_ret |].
    apply silent_bind.
    + apply silent_within, engine_update_silent.
    + intros _. apply silent_bind; [apply silent_time | intros ?].
      apply silent_modify.
Qed.

(** The update pass, whether it runs to its end or stops at a session
    whose [update] raises. *)
Lemma update_sessions64_effect (dt : Q) (d : Dict.t (GameSession.t G)) :
  forall w : World,
    let '(r, d', w') := SessionManager64.update_sessions dt d w in
    Dict.keys d' = Dict.keys d
    /\ match r with
       | Ok _ => trace w' = trace w ++ pass_trace (Dict.keys d)
       | Raise _ =>
           exists done k rest,
             Dict.keys d = done ++ k :: rest
             /\ trace w' = trace w ++ pass_trace done ++ [CallUpdate k]
       end.
Proof.
  induction d as [| [uid s] rest IH]; intros w.
  - simpl. split; [reflexivity |]. now rewrite app_nil_r.
  - simpl SessionManager64.update_sessions.
    unfold bind at 1. unfold emit at 1.
    unfold bind at 1.
    pose proof (session_update64_silent dt s
      {| clock := clock w; reads := reads w;
         trace := trace w ++ [CallUpdate uid] |}) as Hsil.
    destruct (GameSession64.update dt s _) as [[[[] | e] s1] w1];
      simpl in Hsil.
    + unfold emit.
      match goal with
      | |- context [SessionManager64.update_sessions dt rest ?w0] =>
        specialize (IH w0);
        destruct (SessionManager64.update_sessions dt rest w0)
          as [[r2 d2] w2]
      end.
      destruct IH as (Hk & Hr). simpl in Hr.
      split; [simpl; now rewrite Hk |].
      destruct r2 as [u | e].
      * rewrite Hr, Hsil. unfold pass_trace. simpl.
        now rewrite <- !app_assoc.
      * destruct Hr as (done & k & rest' & Hkeys & Ht).
        exists (uid :: done), k, rest'. split; [simpl; now rewrite Hkeys |].
        rewrite Ht, Hsil. unfold pass_trace. simpl.
        now rewrite <- !app_assoc.
    + split; [reflexivity |]. exists [], uid, (Dict.keys rest).
      split; [reflexivity | exact Hsil].
Qed.

(** A whole tick, sweep and pass, on any registry with unique keys. *)
Lemma update_all64_effect (dt : Q) (m : SessionManager.t G) (w : World) :
  Dict.wf (SessionManager.sessions m) ->
  let now := clock w (reads w) in
  let due :=
    Qle_bool 60 (Float64.sub now (SessionManager.last_cleanup m)) in
  let kept :=
    if due
    then filter (fun kv => negb (SessionManager64.idle now (snd kv)))
           (SessionManager.sessions m)
    else SessionManager.sessions m in
  exists r m' w' sweep pass,
    SessionManager64.update_all dt m w = (r, m', w')
    /\ Dict.keys (SessionManager.sessions m') = Dict.keys kept
    /\ SessionManager.last_cleanup m' =
         (if due then now else SessionManager.last_cleanup m)
    /\ trace w' = trace w ++ sweep ++ pass
    /\ Forall (sweep_event (Dict.keys (SessionManager.sessions m))) sweep
    /\ match r with
       | Ok _ => pass = pass_trace (Dict.keys kept)
       | Raise _ =>
           exists done k rest,
             Dict.keys kept = done ++ k :: rest
             /\ pass = pass_trace done ++ [CallUpdate k]
       end.
Proof.
  intros Hwf now due kept.
  unfold SessionManager64.update_all.
  unfold bind at 1. unfold time_time at 1.
  unfold bind at 1. unfold get at 1.
  unfold bind at 1. fold now. fold due.
  destruct due eqn:Hdue.
  - unfold bind at 1. unfold modify at 1.
    set (ks := map fst (filter (fun kv => SessionManager64.idle now (snd kv))
                          (SessionManager.sessions m))).
    match goal with
    | |- context [for_each ks SessionManager.end_session ?m1 ?w1] =>
      pose proof (sweep_effect ks m1 w1) as Hsw;
      pose proof (sweep_sessions ks m1 w1) as [Hss Hlc];
      destruct (for_each ks SessionManager.end_session m1 w1) as [[r2 m2] w2]
    end.
    destruct Hsw as (-> & _ & _ & _ & _ & sweep & Ht2 & Hsweep & _).
    simpl in Ht2, Hss, Hlc.
    unfold ks in Hss. rewrite dict_fold_del_filter in Hss by assumption.
    fold kept in Hss.
    unfold within.
    pose proof (update_sessions64_effect dt (SessionManager.sessions m2) w2)
      as Hup.
    destruct (SessionManager64.update_sessions dt
                (SessionManager.sessions m2) w2) as [[r3 d3] w3].
    destruct Hup as (Hk3 & Hr3). rewrite Hss in Hk3, Hr3.
    assert (Hsweep' :
              Forall (sweep_event (Dict.keys (SessionManager.sessions m)))
                sweep).
    { revert Hsweep. apply Forall_impl. intros e (k & Hk & He).
      exists k. split; [| exact He].
      unfold ks in Hk. apply in_map_iff in Hk.
      destruct Hk as (kv & <- & Hin). apply filter_In in Hin.
      apply in_map. apply Hin. }
    destruct r3 as [u | e].
    + eexists _, _, _, sweep, (pass_trace (Dict.keys kept)).
      split; [reflexivity |]. simpl.
      split; [exact Hk3 |]. split; [exact Hlc |].
      split; [rewrite Hr3, Ht2; now rewrite app_assoc |].
      split; [exact Hsweep' | reflexivity].
    + destruct Hr3 as (done & k & rest & Hkeys & Ht3).
      eexists _, _, _, sweep, (pass_trace done ++ [CallUpdate k]).
      split; [reflexivity |]. simpl.
      split; [exact Hk3 |]. split; [exact Hlc |].
      split; [rewrite Ht3, Ht2; now rewrite <- !app_assoc |].
      split; [exact Hsweep' |]. now exists done, k, rest.
  - unfold ret at 1. unfold within.
    pose proof (update_sessions64_effect dt (SessionManager.sessions m)
                  {| clock := clock w; reads := S (reads w);
                     trace := trace w |}) as Hup.
    destruct (SessionManager64.update_sessions dt
                (SessionManager.sessions m) _) as [[r3 d3] w3].
    destruct Hup as (Hk3 & Hr3). simpl in Hr3.
    destruct r3 as [u | e].
    + eexists _, _, _, [], (pass_trace (Dict.keys kept)).
      split; [reflexivity |]. simpl.
      split; [exact Hk3 |]. split; [reflexivity |].
      split; [exact Hr3 |]. split; [constructor | reflexivity].
    + destruct Hr3 as (done & k & rest & Hkeys & Ht3).
      eexists _, _, _, [], (pass_trace done ++ [CallUpdate k]).
      split; [reflexivity |]. simpl.
      split; [exact Hk3 |]. split; [reflexivity |].
      split; [exact Ht3 |]. split; [constructor |].
      now exists done, k, rest.
Qed.
End TickFacts64.

(** X15: the sweep of [update_all], on floats, removes the idle sessions
    and no other, whatever the registry holds and whether or not the
    update pass that follows runs to its end: when the float difference
    of the current time and [last_cleanup] is at least 60, the users
    registered after the tick are, in their order, those whose session
    has a float difference of the current time and its [last_update] of
    at most 300, and [last_cleanup] becomes the current time; otherwise
    the users and [last_cleanup] are as before. *)
Theorem update_all_sweeps_exactly
  (G : Type) (doom : DoomGame G) (renderer : FrameBuffer.Renderer)
  (dt : Q) (m : SessionManager.t G) (w : World) :
  Dict.wf (SessionManager.sessions m) ->
  let now := clock w (reads w) in
  let due :=
    Qle_bool 60 (Float64.sub now (SessionManager.last_cleanup m)) in
  let m' := snd (fst (SessionManager64.update_all dt m w)) in
  Dict.keys (SessionManager.sessions m') =
    Dict.keys
      (if due
       then filter (fun kv => negb (SessionManager64.idle now (snd kv)))
              (SessionManager.sessions m)
       else SessionManager.sessions m)
  /\ SessionManager.last_cleanup m' =
       (if due then now else SessionManager.last_cleanup m)
  /\ (due = true ->
      forall k,
        In k (Dict.keys (SessionManager.sessions m')) <->
        exists s,
          Dict.get k (SessionManager.sessions m) = Some s
          /\ (Float64.sub now (GameSession.last_update s) <= 300)%Q).
Proof.
  intros Hwf now due m'.
  destruct (update_all64_effect dt m w Hwf)
    as (r & m1 & w1 & sw & pass & Hrun & Hk & Hl & _).
  fold now in Hk, Hl. fold due in Hk, Hl.
  unfold m'. rewrite Hrun. simpl.
  split; [exact Hk |]. split; [exact Hl |].
  intros Hdue k. rewrite Hk, Hdue.
  rewrite dict_keys_filter by assumption.
  split; intros (s & Hget & Hs); exists s; (split; [exact Hget |]).
  - simpl in Hs. apply negb_true_iff in Hs.
    unfold SessionManager64.idle in Hs. now apply Qltb_false in Hs.
  - simpl. apply negb_true_iff. unfold SessionManager64.idle.
    now apply Qltb_false.
Qed.

Lemma update_all_sweeps_exactly_witness :
  let s := Toy.returned (fst (fst Toy.joined)) in
  let recent :=
    GameSession.mk 2 (GameSession.engine s) FrameBuffer.new None None
      900 true RateLimiter.init 0 in
  let m := {| SessionManager.sessions := [(1, s); (2, recent); (3, s)];
              SessionManager.last_cleanup := 0 |} in
  let m' := snd (fst (SessionManager64.update_all 1 m (Toy.world 1000))) in
  Dict.wf (SessionManager.sessions m)
  /\ Dict.keys (SessionManager.sessions m') = [2]
  /\ SessionManager.last_cleanup m' = 1000%Q
  /\ Dict.keys
       (SessionManager.sessions
          (snd (fst (SessionManager64.update_all 1 m' (Toy.world 1030)))))
     = [2].
Proof.
  intros s recent m m'.
  assert (Hwf : Dict.wf (SessionManager.sessions m)).
  { unfold Dict.wf. vm_compute.
    repeat (constructor; [simpl; intuition discriminate |]). constructor. }
  destruct (update_all_sweeps_exactly Toy.game _ _ 1 m (Toy.world 1000) Hwf)
    as (Hk & Hl & _).
  fold m' in Hk, Hl.
  assert (Hwf' : Dict.wf (SessionManager.sessions m')).
  { unfold Dict.wf. rewrite Hk. vm_compute. repeat constructor. intros []. }
  destruct (update_all_sweeps_exactly Toy.game _ _ 1 m' (Toy.world 1030) Hwf')
    as (Hk' & _).
  split; [exact Hwf |].
  split; [rewrite Hk; vm_compute; reflexivity |].
  split; [rewrite Hl; vm_compute; reflexivity |].
  rewrite Hk'. vm_compute. reflexivity.
Defined.

(** X16: the pacing of [update_all], on any registry and with no other
    task at work on it during the tick: a tick first makes the stops and
    removals of its sweep, then calls [update] on the sessions still
    registered, in the order of the registry.  When the tick returns,
    each session has had one call, each call followed by one sleep of
    MESSAGE_RATE_LIMIT, and nothing else happened; when it raises, the
    sessions before the one whose [update] raised have had their call and
    their sleep, that one its call and no sleep, and the ones after it
    nothing. *)
Theorem update_all_paces
  (G : Type) (doom : DoomGame G) (renderer : FrameBuffer.Renderer)
  (dt : Q) (m : SessionManager.t G) (w : World) :
  Dict.wf (SessionManager.sessions m) ->
  let ran := SessionManager64.update_all dt m w in
  let after := Dict.keys (SessionManager.sessions (snd (fst ran))) in
  exists sweep pass,
    trace (snd ran) = trace w ++ sweep ++ pass
    /\ Forall
         (fun e => exists k,
              In k (Dict.keys (SessionManager.sessions m))
              /\ (e = CallStop k \/ e = Remove k))
         sweep
    /\ match fst (fst ran) with
       | Ok _ => pass = pass_trace after
       | Raise _ =>
           exists done k rest,
             after = done ++ k :: rest
             /\ pass = pass_trace done ++ [CallUpdate k]
       end.
Proof.
  intros Hwf ran after.
  destruct (update_all64_effect dt m w Hwf)
    as (r & m1 & w1 & sw & pass & Hrun & Hk & _ & Ht & Hsw & Hr).
  unfold after, ran. rewrite Hrun. simpl.
  exists sw, pass. split; [exact Ht |]. split; [exact Hsw |].
  rewrite Hk. exact Hr.
Qed.

Lemma update_all_paces_witness :
  (let m := snd (fst (SessionManager.create_session 2 Toy.manager1
                        Toy.world1)) in
   let w := snd (SessionManager.create_session 2 Toy.manager1 Toy.world1) in
   Dict.wf (SessionManager.sessions m)
   /\ fst (fst (SessionManager64.update_all 1 m w)) = Ok tt
   /\ exists sweep,
        trace (snd (SessionManager64.update_all 1 m w)) =
          trace w ++ sweep ++ pass_trace [1; 2])
  /\ (let stuck :=
        GameSession.set_active true (@GameSession.new Broken.game _ 2) in
      let m := {| SessionManager.sessions :=
                    [(1, GameSession.new 1); (2, stuck);
                     (3, GameSession.new 3)];
                  SessionManager.last_cleanup := 1000 |} in
      let w := Toy.world 1000 in
      Dict.wf (SessionManager.sessions m)
      /\ fst (fst (SessionManager64.update_all 1 m w)) = Raise DoomError
      /\ trace (snd (SessionManager64.update_all 1 m w)) =
           [CallUpdate 1; Sleep 1; CallUpdate 2]
      /\ exists sweep done k rest,
           [1; 2; 3] = done ++ k :: rest
           /\ trace (snd (SessionManager64.update_all 1 m w)) =
                trace w ++ sweep ++ pass_trace done ++ [CallUpdate k]).
Proof.
  split.
  - intros m w.
    assert (Hwf : Dict.wf (SessionManager.sessions m)).
    { unfold Dict.wf. vm_compute.
      repeat (constructor; [simpl; intuition discriminate |]). constructor. }
    assert (Hok : fst (fst (SessionManager64.update_all 1 m w)) = Ok tt)
      by (vm_compute; reflexivity).
    assert (Hafter : Dict.keys
                       (SessionManager.sessions
                          (snd (fst (SessionManager64.update_all 1 m w))))
                     = [1; 2]) by (vm_compute; reflexivity).
    destruct (update_all_paces Toy.game _ _ 1 m w Hwf)
      as (sweep & pass & Ht & _ & Hpass).
    rewrite Hok, Hafter in Hpass. subst pass.
    split; [exact Hwf |]. split; [exact Hok |].
    exists sweep. exact Ht.
  - intros stuck m w.
    assert (Hwf : Dict.wf (SessionManager.sessions m)).
    { unfold Dict.wf. vm_compute.
      repeat (constructor; [simpl; intuition discriminate |]). constructor. }
    assert (Hno : fst (fst (SessionManager64.update_all 1 m w))
                  = Raise DoomError) by (vm_compute; reflexivity).
    assert (Hafter : Dict.keys
                       (SessionManager.sessions
                          (snd (fst (SessionManager64.update_all 1 m w))))
                     = [1; 2; 3]) by (vm_compute; reflexivity).
    destruct (update_all_paces Broken.game _ _ 1 m w Hwf)
      as (sweep & pass & Ht & _ & Hpass).
    rewrite Hno, Hafter in Hpass.
    destruct Hpass as (done & k & rest & Hkeys & ->).
    split; [exact Hwf |]. split; [exact Hno |].
    split; [vm_compute; reflexivity |].
    exists sweep, done, k, rest. split; [exact Hkeys | exact Ht].
Defined.

(** X17: since no session ever leaves the [last_update] of construction,
    a sweep that is due at a clock time above 300 ends every session the
    manager holds, however recently it was updated: the registry is empty
    after the tick and no [update] was called. *)
Theorem update_all_due_sweep_empties
  (G : Type) (doom : DoomGame G) (renderer : FrameBuffer.Renderer)
  (dt : Q) (m : SessionManager.t G) (w : World) :
  registered_ok m ->
  (60 <= clock w (reads w) - SessionManager.last_cleanup m)%Q ->
  (300 < clock w (reads w))%Q ->
  SessionManager.sessions (snd (fst (SessionManager.update_all dt m w))) = []
  /\ exists sweep,
       trace (snd (SessionManager.update_all dt m w)) = trace w ++ sweep
       /\ (forall k, ~ In (CallUpdate k) sweep).
Proof.
  intros Hok Hdue Hlate.
  apply Qle_bool_iff in Hdue.
  assert (Hidle : forall kv, In kv (SessionManager.sessions m) ->
             SessionManager.idle (clock w (reads w)) (snd kv) = true).
  { intros kv Hin. destruct Hok as [_ Hall].
    rewrite Forall_forall in Hall. destruct (Hall kv Hin) as (_ & _ & Hl).
    unfold SessionManager.idle. rewrite Hl. apply Qltb_true. lra. }
  assert (Hnone : filter
            (fun kv => negb (SessionManager.idle (clock w (reads w)) (snd kv)))
            (SessionManager.sessions m) = []).
  { induction (SessionManager.sessions m) as [| kv d IH]; [reflexivity |].
    simpl. rewrite (Hidle kv) by now left. simpl.
    apply IH. intros kv' Hin. apply Hidle. now right. }
  destruct (update_all_tick dt m w Hok)
    as (m' & w' & sw & Hrun & _ & Hk & _ & Ht & Hsw & _).
  rewrite Hrun. simpl. rewrite Hdue, Hnone in Hk, Ht.
  simpl in Hk, Ht. rewrite app_nil_r in Ht.
  split.
  - destruct (SessionManager.sessions m'); [reflexivity | discriminate].
  - exists sw. split; [exact Ht |].
    intros k Hin. rewrite Forall_forall in Hsw.
    destruct (Hsw _ Hin) as (k' & _ & [He | He]); discriminate.
Qed.

Lemma update_all_due_sweep_empties_witness :
  SessionManager.sessions
    (snd (fst (SessionManager.update_all 1 Toy.full_manager Toy.full_world)))
  = [].
Proof.
  assert (Hok : registered_ok Toy.full_manager).
  { split.
    - unfold Dict.wf. vm_compute.
      repeat (constructor; [simpl; intuition discriminate |]). constructor.
    - vm_compute. repeat constructor. }
  apply (update_all_due_sweep_empties Toy.game _ _ 1 Toy.full_manager
           Toy.full_world Hok).
  - vm_compute. discriminate.
  - vm_compute. reflexivity.
Defined.

(** ** FrameBuffer: the status bar pieces and the palette *)

Lemma py_int_inject (n : Z) : py_int (inject_Z n) = n.
Proof. unfold py_int, inject_Z. simpl. apply Z.quot_1_r. Qed.

(** X18: [_weapon_name] names the seven weapons and answers "Unknown"
    for every other identifier; no weapon is named "Unknown". *)
Theorem weapon_name_unknown (weapon_id : Z) :
  (weapon_id < 1 \/ 7 < weapon_id ->
   Render._weapon_name weapon_id = "Unknown"%string)
  /\ (1 <= weapon_id <= 7 ->
      Render._weapon_name weapon_id <> "Unknown"%string
      /\ In (weapon_id, Render._weapon_name weapon_id) Render.weapons).
Proof.
  split.
  - intros H. cbv [Render._weapon_name Render.weapons find fst].
    repeat match goal with
           | |- context [?k =? weapon_id] =>
               destruct (Z.eqb_spec k weapon_id); [lia |]
           end.
    reflexivity.
  - intros H.
    assert (Hc : weapon_id = 1 \/ weapon_id = 2 \/ weapon_id = 3
                 \/ weapon_id = 4 \/ weapon_id = 5 \/ weapon_id = 6
                 \/ weapon_id = 7) by lia.
    repeat (destruct Hc as [-> | Hc]); try subst weapon_id;
      (split; [discriminate | simpl; tauto]).
Qed.

Lemma weapon_name_unknown_witness :
  Render._weapon_name 0 = "Unknown"%string
  /\ Render._weapon_name 7 <> "Unknown"%string.
Proof.
  split.
  - apply (proj1 (weapon_name_unknown 0)). left. reflexivity.
  - apply (proj2 (weapon_name_unknown 7)). split; discriminate.
Defined.

Lemma str_times_length (c n : Z) :
  Z.of_nat (List.length (Render.str_times c n)) = Z.max 0 n.
Proof.
  unfold Render.str_times. rewrite repeat_length. lia.
Qed.

(** A rational between 0 and an integer below [2 ^ 53] rounds to a
    finite float between the two. *)
Lemma to_float_bounded (x : Q) (n : Z) :
  (0 <= x)%Q -> (x <= inject_Z n)%Q -> n < 2 ^ 53 ->
  Float64.to_float x = Some (Float64.round x)
  /\ (0 <= Float64.round x)%Q
  /\ (Float64.round x <= inject_Z n)%Q.
Proof.
  intros H0 Hn Hb.
  assert (Hn0 : 0 <= n).
  { rewrite Zle_Qle. change (inject_Z 0) with 0%Q. lra. }
  pose proof (round_nonneg x H0) as Hr0.
  assert (Hr1 : (Float64.round x <= inject_Z n)%Q).
  { apply Qle_trans with (Float64.round (inject_Z n)).
    - apply round_le; [assumption | lra].
    - apply Qle_lteq. right. apply round_Z. lia. }
  split; [| now split].
  unfold Float64.to_float. cbv zeta.
  assert (Hlt : Qltb (Qabs (Float64.round x)) (2 ^ 1024) = true).
  { apply Qltb_true. rewrite Qabs_pos by assumption.
    apply Qle_lt_trans with (1 := Hr1).
    apply Qlt_trans with (inject_Z (2 ^ 53)).
    - rewrite <- Zlt_Qlt. exact Hb.
    - vm_compute. reflexivity. }
  now rewrite Hlt.
Qed.

Lemma inject_Z_nonneg (n : Z) : 0 <= n -> (0 <= inject_Z n)%Q.
Proof. intros H. change 0%Q with (inject_Z 0). now rewrite <- Zle_Qle. Qed.

(** X19: the health bar on floats.  For [max_value] positive and a
    [length] from 0 to below [2 ^ 53]: when the value is within the scale,
    [0 <= value <= max_value], [_create_bar] returns a bar of [length]
    cells, the filled ones first; when the value is above the scale (and
    [value] and [value * length] are below [2 ^ 53]) it returns filled
    cells only, at least [length] of them: the bar is not cut at its
    length. *)
Theorem create_bar_length (value max_value length : Z) :
  0 < max_value -> 0 <= length < 2 ^ 53 ->
  (0 <= value <= max_value ->
   exists filled,
     Render._create_bar value max_value length =
       Render.Bar (Render.str_times Render.FULL_BLOCK filled
                   ++ Render.str_times Render.LIGHT_SHADE (length - filled))
     /\ 0 <= filled <= length
     /\ Z.of_nat
          (List.length
             (Render.str_times Render.FULL_BLOCK filled
              ++ Render.str_times Render.LIGHT_SHADE (length - filled)))
        = length)
  /\ (max_value < value -> value < 2 ^ 53 -> value * length < 2 ^ 53 ->
      exists filled,
        Render._create_bar value max_value length =
          Render.Bar (Render.str_times Render.FULL_BLOCK filled)
        /\ length <= filled <= value * length).
Proof.
  intros Hm Hl.
  assert (Hmq : (0 < inject_Z max_value)%Q).
  { change 0%Q with (inject_Z 0). now rewrite <- Zlt_Qlt. }
  assert (Hlq : (0 <= inject_Z length)%Q) by (apply inject_Z_nonneg; lia).
  destruct (to_float_bounded (inject_Z length) length Hlq (Qle_refl _))
    as (Hlen & Hlen0 & Hlen1); [lia |].
  assert (Hlen2 : (inject_Z length <= Float64.round (inject_Z length))%Q).
  { apply Qle_lteq. right. symmetry. apply round_Z. lia. }
  set (len := Float64.round (inject_Z length)) in *.
  unfold Render._create_bar.
  destruct (max_value =? 0) eqn:E; [apply Z.eqb_eq in E; lia |].
  split.
  - intros Hv.
    assert (Hr0 : (0 <= inject_Z value / inject_Z max_value)%Q).
    { apply Qle_shift_div_l; [assumption |].
      rewrite Qmult_0_l. apply inject_Z_nonneg. lia. }
    assert (Hr1 : (inject_Z value / inject_Z max_value <= inject_Z 1)%Q).
    { apply Qle_shift_div_r; [assumption |].
      change (inject_Z 1) with 1%Q. rewrite Qmult_1_l, <- Zle_Qle. lia. }
    destruct (to_float_bounded _ 1 Hr0 Hr1) as (Hratio & Hratio0 & Hratio1);
      [reflexivity |].
    set (ratio := Float64.round (inject_Z value / inject_Z max_value)) in *.
    change (inject_Z 1) with 1%Q in Hratio1.
    assert (Hp0 : (0 <= ratio * len)%Q) by now apply Qmult_le_0_compat.
    assert (Hp1 : (ratio * len <= inject_Z length)%Q) by nra.
    destruct (to_float_bounded _ length Hp0 Hp1) as (Hprod & Hprod0 & Hprod1);
      [lia |].
    rewrite Hratio, Hlen, Hprod.
    set (filled := py_int (Float64.round (ratio * len))).
    assert (Hf : 0 <= filled <= length).
    { unfold filled. split.
      - apply (Z.le_trans _ (py_int 0)); [apply Z.le_refl |].
        now apply py_int_mono.
      - apply (Z.le_trans _ (py_int (inject_Z length)));
          [now apply py_int_mono | rewrite py_int_inject; apply Z.le_refl]. }
    exists filled. split; [reflexivity |]. split; [exact Hf |].
    rewrite length_app, Nat2Z.inj_add, !str_times_length. lia.
  - intros Hv Hv53 Hvl.
    assert (Hr0 : (0 <= inject_Z value / inject_Z max_value)%Q).
    { apply Qle_shift_div_l; [assumption |].
      rewrite Qmult_0_l. apply inject_Z_nonneg. lia. }
    assert (Hr1 : (inject_Z value / inject_Z max_value <= inject_Z value)%Q).
    { apply Qle_shift_div_r; [assumption |].
      assert (H1 : (1 <= inject_Z max_value)%Q).
      { change 1%Q with (inject_Z 1). rewrite <- Zle_Qle. lia. }
      assert (H2 : (0 <= inject_Z value)%Q) by (apply inject_Z_nonneg; lia).
      nra. }
    assert (Hr2 : (1 <= inject_Z value / inject_Z max_value)%Q).
    { apply Qle_shift_div_l; [assumption |].
      rewrite Qmult_1_l, <- Zle_Qle. lia. }
    destruct (to_float_bounded _ value Hr0 Hr1) as (Hratio & _ & Hratio1);
      [assumption |].
    assert (Hratio2 :
              (1 <= Float64.round (inject_Z value / inject_Z max_value))%Q).
    { apply Qle_trans with (Float64.round 1); [vm_compute; discriminate |].
      now apply round_le. }
    set (ratio := Float64.round (inject_Z value / inject_Z max_value)) in *.
    assert (Hp0 : (0 <= ratio * len)%Q) by nra.
    assert (Hp1 : (ratio * len <= inject_Z (value * length))%Q).
    { rewrite inject_Z_mult. nra. }
    destruct (to_float_bounded _ (value * length) Hp0 Hp1)
      as (Hprod & _ & Hprod1); [assumption |].
    assert (Hprod2 : (inject_Z length <= Float64.round (ratio * len))%Q).
    { apply Qle_trans with (1 := Hlen2). unfold len at 1.
      apply round_le; [nra | exact Hp0]. }
    rewrite Hratio, Hlen, Hprod.
    set (filled := py_int (Float64.round (ratio * len))).
    assert (Hf : length <= filled <= value * length).
    { unfold filled. split.
      - apply (Z.le_trans _ (py_int (inject_Z length)));
          [rewrite py_int_inject; apply Z.le_refl | now apply py_int_mono].
      - apply (Z.le_trans _ (py_int (inject_Z (value * length))));
          [now apply py_int_mono | rewrite py_int_inject; apply Z.le_refl]. }
    exists filled. split; [| exact Hf].
    replace (Render.str_times Render.LIGHT_SHADE (length - filled))
      with (@nil Z); [now rewrite app_nil_r |].
    unfold Render.str_times.
    replace (Z.to_nat (length - filled)) with 0%nat by lia. reflexivity.
Qed.

Lemma create_bar_length_witness :
  (exists filled,
      Render._create_bar 35 100 10 =
        Render.Bar (Render.str_times Render.FULL_BLOCK filled
                    ++ Render.str_times Render.LIGHT_SHADE (10 - filled))
      /\ 0 <= filled <= 10
      /\ Z.of_nat
           (List.length
              (Render.str_times Render.FULL_BLOCK filled
               ++ Render.str_times Render.LIGHT_SHADE (10 - filled)))
         = 10)
  /\ (exists filled,
         Render._create_bar 200 100 10 =
           Render.Bar (Render.str_times Render.FULL_BLOCK filled)
         /\ 10 <= filled <= 200 * 10).
Proof.
  destruct (create_bar_length 35 100 10) as [Hin _]; [lia | lia |].
  destruct (create_bar_length 200 100 10) as [_ Hover]; [lia | lia |].
  split; [apply Hin; lia | apply Hover; lia].
Defined.

(** The bar where floats show: [1 / 49 * 49] is below 1 and gives no
    filled cell; a value too large for a float and a scale of 0 raise. *)
Example create_bar_on_floats :
  Render._create_bar 1 49 49 = Render.Bar (repeat Render.LIGHT_SHADE 49)
  /\ Render._create_bar 35 100 10 =
       Render.Bar (repeat Render.FULL_BLOCK 3 ++ repeat Render.LIGHT_SHADE 7)
  /\ Render._create_bar 200 100 10 = Render.Bar (repeat Render.FULL_BLOCK 20)
  /\ Render._create_bar (10 ^ 400) 1 10 = Render.OverflowError
  /\ Render._create_bar 1 1 (10 ^ 400) = Render.OverflowError
  /\ Render._create_bar 50 0 10 = Render.ZeroDivisionError.
Proof. vm_compute. repeat split. Qed.

Lemma normalized_range (pixel : Z) :
  0 <= pixel <= 255 -> 0 <= Render.normalized pixel <= 9.
Proof.
  intros Hp. unfold Render.normalized.
  change (inject_Z (Z.of_nat (String.length Render.ASCII_CHARS) - 1))
    with 9%Q.
  assert (H0 : (0 <= inject_Z pixel)%Q).
  { change 0%Q with (inject_Z 0). rewrite <- Zle_Qle. lia. }
  assert (H1 : (inject_Z pixel <= 255)%Q).
  { change 255%Q with (inject_Z 255). rewrite <- Zle_Qle. lia. }
  assert (Hd : (inject_Z pixel / 255 == inject_Z pixel * (1 # 255))%Q)
    by reflexivity.
  split.
  - apply (Z.le_trans _ (py_int 0)); [apply Z.le_refl |].
    apply py_int_mono. rewrite Hd. lra.
  - apply (Z.le_trans _ (py_int 9)); [| apply Z.le_refl].
    apply py_int_mono. rewrite Hd. lra.
Qed.

Lemma normalized_mono (p q : Z) :
  p <= q -> Render.normalized p <= Render.normalized q.
Proof.
  intros H. unfold Render.normalized. apply py_int_mono.
  apply Qmult_le_compat_r; [| easy].
  unfold Qdiv. apply Qmult_le_compat_r; [| easy].
  now rewrite <- Zle_Qle.
Qed.

Lemma palette_index (i : Z) :
  0 <= i <= 9 -> exists c, Render.str_index Render.ASCII_CHARS i = Some c.
Proof.
  intros H.
  assert (Hc : i = 0 \/ i = 1 \/ i = 2 \/ i = 3 \/ i = 4 \/ i = 5
               \/ i = 6 \/ i = 7 \/ i = 8 \/ i = 9) by lia.
  repeat (destruct Hc as [-> | Hc]); try subst i; eexists; reflexivity.
Qed.

Lemma ascii_row_total (row : list Z) :
  Forall (fun p => 0 <= p <= 255) row ->
  exists s, Render.ascii_row row = Some s
            /\ String.length s = List.length row.
Proof.
  induction row as [| p row IH]; intros Hall.
  - exists EmptyString. now split.
  - inversion Hall as [| ? ? Hp Hrest]; subst.
    destruct (IH Hrest) as (s & Hs & Hlen).
    destruct (palette_index _ (normalized_range p Hp)) as [c Hc].
    exists (String c s). simpl. rewrite Hc, Hs. split; [reflexivity |].
    now rewrite Hlen.
Qed.

(** X20: the text part of [frame_to_ascii] never fails on 8-bit pixels:
    every pixel from 0 to 255 falls on one of the ten palette characters,
    darker pixels never on a later character than lighter ones, 0 on the
    space and 255 on the [@]; the result has one line per pixel row and
    one character per pixel. *)
Theorem ascii_art_total (pixels : list (list Z)) :
  Forall (Forall (fun p => 0 <= p <= 255)) pixels ->
  (exists rows,
      Render.ascii_rows pixels = Some rows
      /\ Forall2 (fun row r => String.length r = List.length row) pixels rows
      /\ Render.ascii_art pixels =
           Some (String.concat (String (Ascii.ascii_of_nat 10) EmptyString)
                   rows))
  /\ (forall p q, p <= q -> Render.normalized p <= Render.normalized q)
  /\ Render.str_index Render.ASCII_CHARS (Render.normalized 0) =
       Some (Ascii.ascii_of_nat 32)
  /\ Render.str_index Render.ASCII_CHARS (Render.normalized 255) =
       Some (Ascii.ascii_of_nat 64).
Proof.
  intros Hall. split; [| split; [exact normalized_mono | split; reflexivity]].
  assert (Hrows : exists rows,
             Render.ascii_rows pixels = Some rows
             /\ Forall2 (fun row r => String.length r = List.length row)
                  pixels rows).
  { induction pixels as [| row rest IH].
    - exists []. split; [reflexivity | constructor].
    - inversion Hall as [| ? ? Hrow Hrest]; subst.
      destruct (IH Hrest) as (rows & Hrows & Hlen).
      destruct (ascii_row_total row Hrow) as (r & Hr & Hl).
      exists (r :: rows). simpl. rewrite Hr, Hrows.
      split; [reflexivity | now constructor]. }
  destruct Hrows as (rows & Hrows & Hlen).
  exists rows. split; [exact Hrows |]. split; [exact Hlen |].
  unfold Render.ascii_art. now rewrite Hrows.
Qed.

Lemma ascii_art_total_witness :
  Render.ascii_art [[0; 128; 255]; [30; 60; 90]] =
    Some (String.concat (String (Ascii.ascii_of_nat 10) EmptyString)
            [" =@"; ".:-"])%string.
Proof.
  destruct (ascii_art_total [[0; 128; 255]; [30; 60; 90]])
    as [(rows & Hr & _ & Ha) _].
  - repeat constructor; discriminate.
  - rewrite Ha. vm_compute in Hr. injection Hr as <-. reflexivity.
Defined.

(** ** DoomBot *)

(** X21: [start_game] never replaces a session: for a user who has one it
    leaves [active_sessions] as it is and answers that a session is
    already active, for a user who has none it registers a new session
    last and answers that the game starts; either way the user has one
    session afterwards, the other users keep theirs, and a second call
    changes nothing. *)
Theorem start_game_once (author_id : Z) (bot : DoomBot.t) :
  Dict.wf (DoomBot.active_sessions bot) ->
  let bot' := fst (DoomBot.start_game author_id bot) in
  Dict.wf (DoomBot.active_sessions bot')
  /\ Dict.count author_id (DoomBot.active_sessions bot') = 1%nat
  /\ (forall k,
        Dict.get k (DoomBot.active_sessions bot') =
        match Dict.get k (DoomBot.active_sessions bot) with
        | Some v => Some v
        | None => if k =? author_id
                  then Some (DoomBot.new_session author_id) else None
        end)
  /\ snd (DoomBot.start_game author_id bot) =
       (if Dict.contains author_id (DoomBot.active_sessions bot)
        then [DoomBot.ALREADY_ACTIVE] else [DoomBot.STARTING])
  /\ DoomBot.start_game author_id bot' = (bot', [DoomBot.ALREADY_ACTIVE]).
Proof.
  intros Hwf bot'. unfold bot', DoomBot.start_game.
  destruct (Dict.contains author_id (DoomBot.active_sessions bot)) eqn:Hc;
    simpl.
  - rewrite Hc. repeat split; try assumption.
    + rewrite dict_count_keys. apply NoDup_count_occ'; [assumption |].
      now apply dict_contains_keys.
    + intros k. destruct (Dict.get k _) as [v |] eqn:Hk; [reflexivity |].
      destruct (k =? author_id) eqn:E; [| reflexivity].
      apply Z.eqb_eq in E. subst k.
      destruct (dict_contains_get _ _ Hc) as [v Hv]. congruence.
  - rewrite dict_contains_set. repeat split.
    + now apply dict_wf_set.
    + now apply dict_count_set.
    + intros k. rewrite dict_get_set.
      destruct (k =? author_id) eqn:E.
      * apply Z.eqb_eq in E. subst k.
        now rewrite (dict_not_contains_get _ _ Hc).
      * now destruct (Dict.get k _).
Qed.

Lemma start_game_once_witness :
  let bot := fst (DoomBot.start_game 7 DoomBot.new) in
  Dict.wf (DoomBot.active_sessions bot)
  /\ DoomBot.start_game 7 bot = (bot, [DoomBot.ALREADY_ACTIVE]).
Proof.
  intros bot.
  destruct (start_game_once 7 DoomBot.new ltac:(constructor))
    as (Hwf & _ & _ & _ & Hagain).
  split; [exact Hwf | exact Hagain].
Defined.
